(** * YouTube Language Reactor Lite: subtitle acquisition, parsing and sync

    A shallow embedding of the extension's content script
    (SubtitleExtractor.ts, SubtitleOverlay.tsx, the content entry point),
    of its storage helpers (utils/storage.ts), of the API client and of the
    service worker's translation handler, followed by the properties the
    specification states about them. *)

From Stdlib Require Import ZArith NArith List String Ascii Bool Lia SpecFloat QArith DecimalString DecimalNat.
From stdpp Require Import base option list gmap.
From Equations Require Import Equations.

Local Open Scope nat_scope.
Local Set Warnings "-register-all,-clear-no-such-hyp".

(* ===================================================================== *)
(** ** JavaScript strings *)
(* ===================================================================== *)

Module JS.

(** A JavaScript string is a sequence of UTF-16 code units. *)
Definition code_unit := N.
Definition jsstring := list code_unit.

(** ASCII literals of the source, as code units. *)
Definition lit (s : string) : jsstring :=
  map N_of_ascii (list_ascii_of_string s).

(** The class [\s] of ECMAScript regular expressions (WhiteSpace and
    LineTerminator), which is also what [String.prototype.trim] strips. *)
Definition isWhiteSpace (c : code_unit) : bool :=
  ((9 <=? c) && (c <=? 13) ||
   (c =? 32) || (c =? 160) || (c =? 5760) ||
   (8192 <=? c) && (c <=? 8202) ||
   (c =? 8232) || (c =? 8233) || (c =? 8239) || (c =? 8287) ||
   (c =? 12288) || (c =? 65279))%N.

(** The class [\S]. *)
Definition isNonWhiteSpace (c : code_unit) : bool := negb (isWhiteSpace c).

(** The class [\w] (no [u] or [i] flag): [A-Za-z0-9_]. *)
Definition isWordChar (c : code_unit) : bool :=
  ((65 <=? c) && (c <=? 90) ||
   (97 <=? c) && (c <=? 122) ||
   (48 <=? c) && (c <=? 57) ||
   (c =? 95))%N.

Fixpoint take_while (p : code_unit -> bool) (s : jsstring) : jsstring :=
  match s with
  | c :: s' => if p c then c :: take_while p s' else []
  | [] => []
  end.

Fixpoint drop_while (p : code_unit -> bool) (s : jsstring) : jsstring :=
  match s with
  | c :: s' => if p c then drop_while p s' else s
  | [] => []
  end.

(** [s.substring(i, j)] for [i <= j]. *)
Definition substring (s : jsstring) (i j : nat) : jsstring :=
  take (j - i) (drop i s).

(** [s.trim()]. *)
Definition trim (s : jsstring) : jsstring :=
  reverse (drop_while isWhiteSpace (reverse (drop_while isWhiteSpace s))).

(** [s.startsWith(p)]. *)
Fixpoint startsWith (p s : jsstring) : bool :=
  match p, s with
  | [], _ => true
  | a :: p', b :: s' => (a =? b)%N && startsWith p' s'
  | _ :: _, [] => false
  end.

(** [s.includes(p)]. *)
Fixpoint includes (p s : jsstring) : bool :=
  startsWith p s ||
  match s with
  | [] => false
  | _ :: s' => includes p s'
  end.

(** Decimal rendering of an index, as a template literal does it. *)
Definition ofNat (n : nat) : jsstring :=
  lit (NilEmpty.string_of_uint (Nat.to_uint n)).

(** Truthiness of a string: the empty string is falsy. *)
Definition truthy (s : jsstring) : bool :=
  match s with [] => false | _ :: _ => true end.

(** [x || d] on a possibly-null string. *)
Definition orElse (x : option jsstring) (d : jsstring) : jsstring :=
  match x with
  | Some s => if truthy s then s else d
  | None => d
  end.

End JS.

Import JS.

(* ===================================================================== *)
(** ** JavaScript numbers *)
(* ===================================================================== *)

Module Num.

(** A JavaScript Number is an IEEE 754 binary64 value. *)
Definition prec : Z := 53.
Definition emax : Z := 1024.
Definition number := spec_float.

Definition NaN : number := S754_nan.
Definition zero : number := S754_zero false.

Definition add (x y : number) : number := SFadd prec emax x y.
Definition sub (x y : number) : number := SFsub prec emax x y.
Definition abs (x : number) : number := SFabs x.

(** [x < y], [x > y] and [x >= y]; each is false when an operand is NaN. *)
Definition lt (x y : number) : bool := SFltb x y.
Definition gt (x y : number) : bool := SFltb y x.
Definition ge (x y : number) : bool := SFleb y x.
Definition le (x y : number) : bool := SFleb x y.

(** The Number nearest to [m * 10^e] (ties to even), negative when [neg]:
    the value of a decimal literal with digits [m] and exponent [e]. *)
Definition ofDecimal (neg : bool) (m e : Z) : number :=
  match m with
  | Zpos p =>
      if (0 <=? e)%Z
      then binary_normalize prec emax
             (if neg then Z.opp (m * 10 ^ e) else m * 10 ^ e)%Z 0 false
      else SFdiv prec emax (S754_finite neg p 0)
             (S754_finite false (Z.to_pos (10 ^ (- e))) 0)
  | _ => S754_zero neg
  end.

Definition isDigit (c : code_unit) : bool := ((48 <=? c) && (c <=? 57))%N.

Definition digitsValue (ds : jsstring) : Z :=
  fold_left (fun acc d => (10 * acc + (Z.of_N d - 48))%Z) ds 0%Z.

(** The optional sign of a StrDecimalLiteral or of an exponent. *)
Definition readSign (s : jsstring) : bool * jsstring :=
  match s with
  | 43%N :: r => (false, r)
  | 45%N :: r => (true, r)
  | _ => (false, s)
  end.

(** The exponent part [e±ddd] at the head of [s], 0 when there is none (an
    [e] that no digit follows is not part of the literal). *)
Definition readExponent (s : jsstring) : Z :=
  match s with
  | c :: r =>
      if ((c =? 101) || (c =? 69))%N then
        let '(neg, r') := readSign r in
        match take_while isDigit r' with
        | [] => 0%Z
        | ds => if neg then (- digitsValue ds)%Z else digitsValue ds
        end
      else 0%Z
  | [] => 0%Z
  end.

(** [parseFloat(s)]: leading white space is skipped, the longest prefix that
    is a StrDecimalLiteral is read, and NaN is the answer when there is no
    such prefix. *)
Definition parseFloat (s : jsstring) : number :=
  let '(neg, r) := readSign (drop_while isWhiteSpace s) in
  if startsWith (lit "Infinity") r then S754_infinity neg else
  let ip := take_while isDigit r in
  let r1 := drop_while isDigit r in
  let '(fp, r2) :=
    match r1 with
    | 46%N :: r' => (take_while isDigit r', drop_while isDigit r')
    | _ => ([], r1)
    end in
  match ip ++ fp with
  | [] => NaN
  | ds => ofDecimal neg (digitsValue ds) (readExponent r2 - Z.of_nat (length fp))
  end.

End Num.

(* ===================================================================== *)
(** ** Core types (types/index.ts) *)
(* ===================================================================== *)

Record SubtitleWord := mkWord {
  word_id : jsstring;
  word_text : jsstring;
  startIndex : nat;
  endIndex : nat
}.

(* ===================================================================== *)
(** ** Word splitting (SubtitleExtractor.splitIntoWords) *)
(* ===================================================================== *)

(** One call of [regex.exec(text)] for the global regex [/\S+/g] whose
    [lastIndex] is [lastIndex]: the leftmost maximal run of non-whitespace
    code units at or after [lastIndex], with the index it starts at. *)
Definition regex_exec (text : jsstring) (lastIndex : nat)
  : option (nat * jsstring) :=
  let rest := drop lastIndex text in
  let gap := length (take_while isWhiteSpace rest) in
  match take_while isNonWhiteSpace (drop_while isWhiteSpace rest) with
  | [] => None
  | c :: m => Some (lastIndex + gap, c :: m)
  end.

Definition inspect {A} (a : A) : {b | a = b} := exist _ a eq_refl.

Lemma take_drop_while_length p s :
  length (take_while p s) + length (drop_while p s) = length s.
Proof.
  induction s as [|c s IH]; simpl; [reflexivity|].
  destruct (p c); simpl; lia.
Qed.

Lemma take_while_length_le p s : length (take_while p s) <= length s.
Proof.
  induction s as [|c s IH]; simpl; [lia|].
  destruct (p c); simpl; lia.
Qed.

Lemma regex_exec_bounds text lastIndex idx m :
  regex_exec text lastIndex = Some (idx, m) ->
  lastIndex <= idx /\ 0 < length m /\ idx + length m <= length text.
Proof.
  unfold regex_exec.
  destruct (take_while isNonWhiteSpace
              (drop_while isWhiteSpace (drop lastIndex text)))
    as [|c r] eqn:E; [discriminate|].
  intros [= <- <-].
  pose proof (take_drop_while_length isWhiteSpace (drop lastIndex text)) as H1.
  pose proof (take_while_length_le isNonWhiteSpace
                (drop_while isWhiteSpace (drop lastIndex text))) as H2.
  rewrite E in H2. rewrite length_drop in H1.
  simpl in *. lia.
Qed.

(** The [while ((match = regex.exec(text)) !== null)] loop; after a match
    the regex's [lastIndex] is the end of the match. *)
Equations? exec_loop (text segmentId : jsstring) (lastIndex wordIndex : nat)
  : list SubtitleWord by wf (length text - lastIndex) lt :=
  exec_loop text segmentId lastIndex wordIndex
    with inspect (regex_exec text lastIndex) := {
    | exist _ None _ => [];
    | exist _ (Some (idx, m)) Hexec =>
        {| word_id := segmentId ++ lit "-word-" ++ ofNat wordIndex;
           word_text := m;
           startIndex := idx;
           endIndex := idx + length m |}
        :: exec_loop text segmentId (idx + length m) (S wordIndex) }.
Proof.
  apply regex_exec_bounds in Hexec. lia.
Qed.

Definition splitIntoWords (text segmentId : jsstring) : list SubtitleWord :=
  exec_loop text segmentId 0 0.

(* ===================================================================== *)
(** ** The parts of the browser the extension calls *)
(* ===================================================================== *)

(** An XML document as [DOMParser] hands it over: elements with their
    attributes and children, and character data. *)
Inductive XmlNode :=
| XElement (localName : jsstring) (attributes : list (jsstring * jsstring))
           (childNodes : list XmlNode)
| XText (data : jsstring).

Record Document := { documentElement : XmlNode }.

(** [node.textContent]. *)
Fixpoint textContent (n : XmlNode) : jsstring :=
  match n with
  | XText d => d
  | XElement _ _ cs => concat (map textContent cs)
  end.

(** The element and its descendant elements, in document order. *)
Fixpoint elementsOf (n : XmlNode) : list XmlNode :=
  match n with
  | XText _ => []
  | XElement _ _ cs => n :: concat (map elementsOf cs)
  end.

Definition hasLocalName (tag : jsstring) (n : XmlNode) : bool :=
  match n with
  | XElement name _ _ => bool_decide (name = tag)
  | XText _ => false
  end.

(** [doc.querySelectorAll(tag)] for a type selector. *)
Definition querySelectorAll (tag : jsstring) (doc : Document) : list XmlNode :=
  List.filter (hasLocalName tag) (elementsOf (documentElement doc)).

(** [element.getAttribute(name)]; [None] is [null]. *)
Definition getAttribute (name : jsstring) (n : XmlNode) : option jsstring :=
  match n with
  | XElement _ attrs _ =>
      option_map snd (List.find (fun a => bool_decide (fst a = name)) attrs)
  | XText _ => None
  end.

(** YouTube's player response, as the source declares it. *)
Record CaptionTrack := {
  baseUrl : jsstring;
  languageCode : jsstring;
  track_name : option jsstring;
  vssId : option jsstring
}.

Record TracklistRenderer := { captionTracks : option (list CaptionTrack) }.
Record Captions := { playerCaptionsTracklistRenderer : option TracklistRenderer }.
Record PlayerResponse := { captions : option Captions }.

(** Built-ins whose results the extension takes as they come. *)
Class Platform := {
  (** [s.toLowerCase()] *)
  toLowerCase : jsstring -> jsstring;
  (** [new DOMParser().parseFromString(s, 'text/xml')] *)
  parseFromString : jsstring -> Document;
  (** the [value] of a fresh textarea whose [innerHTML] was set to [s] *)
  textareaValue : jsstring -> jsstring;
  (** [JSON.parse(s)] read at the type [PlayerResponse]; [None] when it
      throws *)
  JSON_parse : jsstring -> option PlayerResponse
}.

(** The outcome of [fetch(url)] followed by [response.text()]. *)
Inductive FetchResult :=
| NetworkError
| Response (ok : bool) (status : nat) (text : option jsstring).

(** The page the content script runs in. *)
Record Page := {
  pathname : jsstring;
  (** [new URLSearchParams(location.search).get('v')] *)
  search_v : option jsstring;
  (** [window.ytInitialPlayerResponse] *)
  ytInitialPlayerResponse : option PlayerResponse;
  (** the [textContent] of every script element, in document order *)
  scripts : list jsstring;
  (** [window.ytplayer?.config?.args?.raw_player_response] *)
  raw_player_response : option PlayerResponse
}.

Record World := {
  page : Page;
  fetch : jsstring -> FetchResult
}.

(* ===================================================================== *)
(** ** Exceptions *)
(* ===================================================================== *)

Inductive Error :=
| NoVideoId
| NoPlayerResponse
| NoCaptionTracks
| FetchRejected
| FetchStatus (status : nat)
| StorageFailure.

Inductive result (A : Type) :=
| Ok (a : A)
| Throw (e : Error).
Arguments Ok {A} a.
Arguments Throw {A} e.

Definition bind {A B} (r : result A) (k : A -> result B) : result B :=
  match r with
  | Ok a => k a
  | Throw e => Throw e
  end.

Notation "'let*' x ':=' r 'in' k" := (bind r (fun x => k))
  (at level 10, x pattern, r at level 100, k at level 200).

(** [try { body } catch { return d }]. *)
Definition catch {A} (body : result A) (d : A) : A :=
  match body with
  | Ok a => a
  | Throw _ => d
  end.

(* ===================================================================== *)
(** ** Segments *)
(* ===================================================================== *)

Record SubtitleSegment := {
  seg_id : jsstring;
  startTime : Num.number;
  endTime : Num.number;
  seg_text : jsstring;
  words : list SubtitleWord
}.

(* ===================================================================== *)
(** ** SubtitleExtractor.ts *)
(* ===================================================================== *)

Module SubtitleExtractor.

Record t := {
  videoId : option jsstring;
  subtitles : list SubtitleSegment
}.

Definition init : t := {| videoId := None; subtitles := [] |}.

Definition getVideoId (pg : Page) : option jsstring := search_v pg.

Definition isVideoPage (pg : Page) : bool :=
  bool_decide (pathname pg = lit "/watch") &&
  match getVideoId pg with
  | Some v => truthy v
  | None => false
  end.

(** The four places a player response is looked for. *)
Inductive Strategy := WindowGlobal | InlineScripts | LegacyConfig | BackgroundFetch.

(** The rest of [/ytInitialPlayerResponse\s*=\s*({[\s\S]+?});/] after the
    first character of the lazy group: up to the first [};]. *)
Fixpoint lazyUntilClose (s : jsstring) : option jsstring :=
  if startsWith (lit "};") s then Some (lit "}") else
  match s with
  | c :: s' => option_map (cons c) (lazyUntilClose s')
  | [] => None
  end.

(** The regex anchored at the head of [s]; the result is capture group 1. *)
Definition matchHere (s : jsstring) : option jsstring :=
  if startsWith (lit "ytInitialPlayerResponse") s then
    match drop_while isWhiteSpace (drop 23 s) with
    | 61%N :: r =>
        match drop_while isWhiteSpace r with
        | 123%N :: c :: r' => option_map (fun x => 123%N :: c :: x) (lazyUntilClose r')
        | _ => None
        end
    | _ => None
    end
  else None.

(** [s.match(/ytInitialPlayerResponse\s*=\s*({[\s\S]+?});/)]: the leftmost
    match. *)
Fixpoint matchPlayerResponse (s : jsstring) : option jsstring :=
  match matchHere s with
  | Some g => Some g
  | None =>
      match s with
      | _ :: s' => matchPlayerResponse s'
      | [] => None
      end
  end.

Section WithPlatform.
Context `{Platform}.

(** The body of the [for (const script of scripts)] loop, and the loop. *)
Definition scanScript (content : jsstring) : option PlayerResponse :=
  if includes (lit "ytInitialPlayerResponse") content then
    match matchPlayerResponse content with
    | Some g =>
        if truthy g then
          match JSON_parse g with
          | Some json =>
              match captions json with
              | Some _ => Some json
              | None => None
              end
          | None => None
          end
        else None
    | None => None
    end
  else None.

Fixpoint scanScripts (ss : list jsstring) : option PlayerResponse :=
  match ss with
  | [] => None
  | content :: ss' =>
      match scanScript content with
      | Some json => Some json
      | None => scanScripts ss'
      end
  end.

(** [getPlayerResponse()], with the places it looked at, in order. *)
Definition getPlayerResponse (pg : Page) : list Strategy * option PlayerResponse :=
  match ytInitialPlayerResponse pg with
  | Some r => ([WindowGlobal], Some r)
  | None =>
      match scanScripts (scripts pg) with
      | Some json => ([WindowGlobal; InlineScripts], Some json)
      | None =>
          match raw_player_response pg with
          | Some r => ([WindowGlobal; InlineScripts; LegacyConfig], Some r)
          | None => ([WindowGlobal; InlineScripts; LegacyConfig], None)
          end
      end
  end.

Definition getCaptionTracks (r : PlayerResponse) : option (list CaptionTrack) :=
  match captions r with
  | Some c =>
      match playerCaptionsTracklistRenderer c with
      | Some tl => captionTracks tl
      | None => None
      end
  | None => None
  end.

Definition hasCaptions (r : PlayerResponse) : bool :=
  match getCaptionTracks r with
  | Some (_ :: _) => true
  | _ => false
  end.

Definition watchUrl (videoId : jsstring) : jsstring :=
  lit "https://www.youtube.com/watch?v=" ++ videoId.

Definition fetchPlayerResponseFallback (w : World) (videoId : jsstring)
  : option PlayerResponse :=
  match fetch w (watchUrl videoId) with
  | Response _ _ (Some text) =>
      match matchPlayerResponse text with
      | Some g =>
          if truthy g then
            match JSON_parse g with
            | Some json => if hasCaptions json then Some json else None
            | None => None
            end
          else None
      | None => None
      end
  | _ => None
  end.

Definition fetchSubtitles (w : World) (url : jsstring) : result jsstring :=
  match fetch w url with
  | NetworkError => Throw FetchRejected
  | Response false status _ => Throw (FetchStatus status)
  | Response true _ None => Throw FetchRejected
  | Response true _ (Some text) => Ok text
  end.

Definition decodeHtmlEntities (text : jsstring) : jsstring := textareaValue text.

Definition segmentId (index : nat) : jsstring := lit "segment-" ++ ofNat index.

(** The callback of [textElements.forEach] in [parseXml]. *)
Definition parseElement (index : nat) (element : XmlNode) : SubtitleSegment :=
  let start := Num.parseFloat (orElse (getAttribute (lit "start") element) (lit "0")) in
  let duration := Num.parseFloat (orElse (getAttribute (lit "dur") element) (lit "0")) in
  let text := decodeHtmlEntities (textContent element) in
  {| seg_id := segmentId index;
     startTime := start;
     endTime := Num.add start duration;
     seg_text := text;
     words := splitIntoWords text (segmentId index) |}.

Definition parseXml (xmlString : jsstring) : list SubtitleSegment :=
  imap parseElement (querySelectorAll (lit "text") (parseFromString xmlString)).

(** Lines 40 to 46 of [extractSubtitles]: the in-page lookup and, when it
    gives no response or one without captions, the fetch of the watch
    page. *)
Definition locatePlayerResponse (w : World) (videoId : jsstring)
  : list Strategy * option PlayerResponse :=
  let '(tried, playerResponse) := getPlayerResponse (page w) in
  match playerResponse with
  | Some r =>
      if hasCaptions r then (tried, Some r)
      else (tried ++ [BackgroundFetch], fetchPlayerResponseFallback w videoId)
  | None => (tried ++ [BackgroundFetch], fetchPlayerResponseFallback w videoId)
  end.

(** The track chosen among a non-empty list. *)
Definition selectTrack (language : option jsstring) (first : CaptionTrack)
  (rest : list CaptionTrack) : CaptionTrack :=
  match language with
  | Some l =>
      if truthy l then
        match List.find (fun t => bool_decide (languageCode t = l)) (first :: rest) with
        | Some t => t
        | None => first
        end
      else first
  | None => first
  end.

(** The body of the [try] block of [extractSubtitles], after [this.videoId]
    is assigned. *)
Definition extractSubtitles_try (w : World) (language : option jsstring)
  (vid : option jsstring) : result (list SubtitleSegment) :=
  let* videoId :=
    match vid with
    | Some v => if truthy v then Ok v else Throw NoVideoId
    | None => Throw NoVideoId
    end in
  let* playerResponse :=
    match snd (locatePlayerResponse w videoId) with
    | Some r => Ok r
    | None => Throw NoPlayerResponse
    end in
  let* (first, rest) :=
    match getCaptionTracks playerResponse with
    | Some (t :: ts) => Ok (t, ts)
    | _ => Throw NoCaptionTracks
    end in
  let track := selectTrack language first rest in
  let* subtitleXml := fetchSubtitles w (baseUrl track) in
  Ok (parseXml subtitleXml).

(** [extractSubtitles(language)]: the value the promise resolves to and the
    extractor afterwards. *)
Definition extractSubtitles (w : World) (language : option jsstring) (ex : t)
  : list SubtitleSegment * t :=
  let vid := getVideoId (page w) in
  match extractSubtitles_try w language vid with
  | Ok segs => (segs, {| videoId := vid; subtitles := segs |})
  | Throw _ => ([], {| videoId := vid; subtitles := subtitles ex |})
  end.

(** The test of [find] in [getCurrentSegment] and in the overlay component. *)
Definition covers (currentTime : Num.number) (segment : SubtitleSegment) : bool :=
  Num.ge currentTime (startTime segment) && Num.lt currentTime (endTime segment).

(** [getCurrentSegment(currentTime)]; the extractor is read, not written. *)
Definition getCurrentSegment (currentTime : Num.number) (ex : t)
  : option SubtitleSegment * t :=
  (List.find (covers currentTime) (subtitles ex), ex).

(** [getAvailableLanguages()]. *)
Definition getAvailableLanguages (pg : Page) : list jsstring :=
  match snd (getPlayerResponse pg) with
  | None => []
  | Some playerResponse =>
      match getCaptionTracks playerResponse with
      | None => []
      | Some captionTracks => map languageCode captionTracks
      end
  end.

(** [getSubtitles()]. *)
Definition getSubtitles (ex : t) : list SubtitleSegment := subtitles ex.

End WithPlatform.

End SubtitleExtractor.

(* ===================================================================== *)
(** ** SubtitleOverlay.tsx: the overlay manager *)
(* ===================================================================== *)

Record TranslationResponse := {
  tr_word : jsstring;
  tr_translation : jsstring;
  tr_language : jsstring;
  pronunciation : option jsstring;
  partOfSpeech : option jsstring;
  definitions : option (list jsstring)
}.

Module Overlay.

(** The state handed to the [SubtitleOverlay] component by [render]. *)
Record Props := {
  p_segments : list SubtitleSegment;
  p_currentTime : Num.number;
  p_translation : option TranslationResponse;
  p_hoveredWord : option SubtitleWord;
  p_isEnabled : bool
}.

(** What the manager needs of the host page.  DOM nodes are told apart by a
    number; [parentOf] is the [parentNode] of the overlay containers made so
    far; [frames] are the pending [requestAnimationFrame] handles. *)
Record Browser := {
  player : option nat;            (** [document.querySelector('#movie_player')] *)
  video : option nat;             (** [document.querySelector('video')] *)
  parentOf : gmap nat nat;
  freshNode : nat;
  mediaTime : nat -> Num.number;  (** [currentTime] of each video element *)
  frames : list nat;
  nextFrame : nat;
  log : list (nat * option Props)
    (** calls on React roots, latest first: [(r, Some props)] is
        [r.render(<SubtitleOverlay ... />)] and [(r, None)] is
        [r.unmount()] *)
}.

(** The two callbacks the content script installs. *)
Inductive Callback := HandleTranslationRequest | HandleWordSave.

Record Manager := {
  root : option nat;
  container : option nat;
  segments : list SubtitleSegment;
  currentTime : Num.number;
  translation : option TranslationResponse;
  hoveredWord : option SubtitleWord;
  isEnabled : bool;
  videoElement : option nat;
  animationFrameId : option nat;
  onTranslationRequest : option Callback;
  onWordSave : option Callback
}.

Definition new : Manager :=
  {| root := None; container := None; segments := []; currentTime := Num.zero;
     translation := None; hoveredWord := None; isEnabled := true;
     videoElement := None; animationFrameId := None;
     onTranslationRequest := None; onWordSave := None |}.

Definition set_root v (m : Manager) : Manager :=
  {| root := v; container := container m; segments := segments m;
     currentTime := currentTime m; translation := translation m;
     hoveredWord := hoveredWord m; isEnabled := isEnabled m;
     videoElement := videoElement m; animationFrameId := animationFrameId m;
     onTranslationRequest := onTranslationRequest m; onWordSave := onWordSave m |}.

Definition set_container v (m : Manager) : Manager :=
  {| root := root m; container := v; segments := segments m;
     currentTime := currentTime m; translation := translation m;
     hoveredWord := hoveredWord m; isEnabled := isEnabled m;
     videoElement := videoElement m; animationFrameId := animationFrameId m;
     onTranslationRequest := onTranslationRequest m; onWordSave := onWordSave m |}.

Definition set_segments v (m : Manager) : Manager :=
  {| root := root m; container := container m; segments := v;
     currentTime := currentTime m; translation := translation m;
     hoveredWord := hoveredWord m; isEnabled := isEnabled m;
     videoElement := videoElement m; animationFrameId := animationFrameId m;
     onTranslationRequest := onTranslationRequest m; onWordSave := onWordSave m |}.

Definition set_currentTime v (m : Manager) : Manager :=
  {| root := root m; container := container m; segments := segments m;
     currentTime := v; translation := translation m;
     hoveredWord := hoveredWord m; isEnabled := isEnabled m;
     videoElement := videoElement m; animationFrameId := animationFrameId m;
     onTranslationRequest := onTranslationRequest m; onWordSave := onWordSave m |}.

Definition set_translation v (m : Manager) : Manager :=
  {| root := root m; container := container m; segments := segments m;
     currentTime := currentTime m; translation := v;
     hoveredWord := hoveredWord m; isEnabled := isEnabled m;
     videoElement := videoElement m; animationFrameId := animationFrameId m;
     onTranslationRequest := onTranslationRequest m; onWordSave := onWordSave m |}.

Definition set_hoveredWord v (m : Manager) : Manager :=
  {| root := root m; container := container m; segments := segments m;
     currentTime := currentTime m; translation := translation m;
     hoveredWord := v; isEnabled := isEnabled m;
     videoElement := videoElement m; animationFrameId := animationFrameId m;
     onTranslationRequest := onTranslationRequest m; onWordSave := onWordSave m |}.

Definition set_isEnabled v (m : Manager) : Manager :=
  {| root := root m; container := container m; segments := segments m;
     currentTime := currentTime m; translation := translation m;
     hoveredWord := hoveredWord m; isEnabled := v;
     videoElement := videoElement m; animationFrameId := animationFrameId m;
     onTranslationRequest := onTranslationRequest m; onWordSave := onWordSave m |}.

Definition set_videoElement v (m : Manager) : Manager :=
  {| root := root m; container := container m; segments := segments m;
     currentTime := currentTime m; translation := translation m;
     hoveredWord := hoveredWord m; isEnabled := isEnabled m;
     videoElement := v; animationFrameId := animationFrameId m;
     onTranslationRequest := onTranslationRequest m; onWordSave := onWordSave m |}.

Definition set_animationFrameId v (m : Manager) : Manager :=
  {| root := root m; container := container m; segments := segments m;
     currentTime := currentTime m; translation := translation m;
     hoveredWord := hoveredWord m; isEnabled := isEnabled m;
     videoElement := videoElement m; animationFrameId := v;
     onTranslationRequest := onTranslationRequest m; onWordSave := onWordSave m |}.

Definition set_onTranslationRequest v (m : Manager) : Manager :=
  {| root := root m; container := container m; segments := segments m;
     currentTime := currentTime m; translation := translation m;
     hoveredWord := hoveredWord m; isEnabled := isEnabled m;
     videoElement := videoElement m; animationFrameId := animationFrameId m;
     onTranslationRequest := v; onWordSave := onWordSave m |}.

Definition set_onWordSave v (m : Manager) : Manager :=
  {| root := root m; container := container m; segments := segments m;
     currentTime := currentTime m; translation := translation m;
     hoveredWord := hoveredWord m; isEnabled := isEnabled m;
     videoElement := videoElement m; animationFrameId := animationFrameId m;
     onTranslationRequest := onTranslationRequest m; onWordSave := v |}.

Definition set_dom (pl vi : option nat) (po : gmap nat nat) (fr : nat)
  (b : Browser) : Browser :=
  {| player := pl; video := vi; parentOf := po; freshNode := fr;
     mediaTime := mediaTime b; frames := frames b; nextFrame := nextFrame b;
     log := log b |}.

Definition set_mediaTime v (b : Browser) : Browser :=
  {| player := player b; video := video b; parentOf := parentOf b;
     freshNode := freshNode b; mediaTime := v; frames := frames b;
     nextFrame := nextFrame b; log := log b |}.

Definition set_frames (fs : list nat) (nf : nat) (b : Browser) : Browser :=
  {| player := player b; video := video b; parentOf := parentOf b;
     freshNode := freshNode b; mediaTime := mediaTime b; frames := fs;
     nextFrame := nf; log := log b |}.

Definition set_log v (b : Browser) : Browser :=
  {| player := player b; video := video b; parentOf := parentOf b;
     freshNode := freshNode b; mediaTime := mediaTime b; frames := frames b;
     nextFrame := nextFrame b; log := v |}.

(** [document.body.contains(c)] for an overlay container: its parent is the
    player that is in the document. *)
Definition inDocument (b : Browser) (c : nat) : bool :=
  match parentOf b !! c, player b with
  | Some p, Some q => bool_decide (p = q)
  | _, _ => false
  end.

(** The overlay containers that are in the document. *)
Definition overlaysInDocument (b : Browser) : list nat :=
  List.filter (inDocument b) (map_to_list (parentOf b)).*1.

(** The [find] of the [SubtitleOverlay] component; [None] is [undefined]. *)
Definition currentSegment (segs : list SubtitleSegment) (time : Num.number)
  : option SubtitleSegment :=
  List.find (SubtitleExtractor.covers time) segs.

Definition propsOf (m : Manager) : Props :=
  {| p_segments := segments m; p_currentTime := currentTime m;
     p_translation := translation m; p_hoveredWord := hoveredWord m;
     p_isEnabled := isEnabled m |}.

(** [render()]. *)
Definition render (mb : Manager * Browser) : Manager * Browser :=
  let '(m, b) := mb in
  match root m with
  | None => (m, b)
  | Some r =>
      (m, set_log ((r, Some (propsOf m)) :: log b) b)
  end.

(** The threshold [0.1] of the time sync. *)
Definition threshold : Num.number := Num.ofDecimal false 1 (-1).

Definition timeMoved (newTime oldTime : Num.number) : bool :=
  Num.gt (Num.abs (Num.sub newTime oldTime)) threshold.

(** One run of the [syncTime] closure of [startTimeSync]. *)
Definition syncTime (mb : Manager * Browser) : Manager * Browser :=
  let '(m, b) := mb in
  let '(m1, b1) :=
    match videoElement m with
    | Some v =>
        let newTime := mediaTime b v in
        if timeMoved newTime (currentTime m)
        then render (set_currentTime newTime m, b)
        else (m, b)
    | None => (m, b)
    end in
  let h := nextFrame b1 in
  (set_animationFrameId (Some h) m1, set_frames (h :: frames b1) (S h) b1).

Definition startTimeSync (mb : Manager * Browser) : Manager * Browser :=
  syncTime mb.

(** [initialize()]. *)
Definition initialize (mb : Manager * Browser) : bool * (Manager * Browser) :=
  let '(m, b) := mb in
  match player b with
  | None => (false, (m, b))
  | Some playerContainer =>
      if match container m with Some c => inDocument b c | None => false end
      then (true, (m, b))
      else
        let c := freshNode b in
        let b1 := set_dom (player b) (video b)
                    (<[c := playerContainer]> (parentOf b)) (S c) b in
        let m1 := set_root (Some c) (set_container (Some c) m) in
        let m2 := set_videoElement (video b1) m1 in
        let mb3 := match videoElement m2 with
                   | Some _ => startTimeSync (m2, b1)
                   | None => (m2, b1)
                   end in
        (true, render mb3)
  end.

Definition setSubtitles (segs : list SubtitleSegment) (mb : Manager * Browser)
  : Manager * Browser :=
  render (set_segments segs (fst mb), snd mb).

Definition setOnTranslationRequest (cb : Callback) (m : Manager) : Manager :=
  set_onTranslationRequest (Some cb) m.

Definition setOnWordSave (cb : Callback) (m : Manager) : Manager :=
  set_onWordSave (Some cb) m.

Definition setTranslation (t : option TranslationResponse)
  (mb : Manager * Browser) : Manager * Browser :=
  render (set_translation t (fst mb), snd mb).

Definition setEnabled (enabled : bool) (mb : Manager * Browser)
  : Manager * Browser :=
  render (set_isEnabled enabled (fst mb), snd mb).

Definition handleWordHover (w : SubtitleWord) (mb : Manager * Browser)
  : Manager * Browser :=
  render (set_hoveredWord (Some w) (fst mb), snd mb).

Definition handleWordLeave (mb : Manager * Browser) : Manager * Browser :=
  render (set_translation None (set_hoveredWord None (fst mb)), snd mb).

(** [destroy()]. *)
Definition destroy (mb : Manager * Browser) : Manager * Browser :=
  let '(m, b) := mb in
  let b1 :=
    match animationFrameId m with
    | Some (S h) => set_frames (List.filter (fun f => negb (f =? S h)) (frames b))
                      (nextFrame b) b
    | _ => b
    end in
  let '(m2, b2) :=
    match root m with
    | Some r => (set_root None m, set_log ((r, None) :: log b1) b1)
    | None => (m, b1)
    end in
  match container m2 with
  | Some c =>
      match parentOf b2 !! c with
      | Some _ =>
          (set_container None m2,
           set_dom (player b2) (video b2) (delete c (parentOf b2)) (freshNode b2) b2)
      | None => (m2, b2)
      end
  | None => (m2, b2)
  end.

(** One [span] of the subtitle line: the word and whether it carries the
    class [ylr-word-hovered]. *)
Record WordSpan := {
  span_word : SubtitleWord;
  span_hovered : bool
}.

(** What the [SubtitleOverlay] component returns, without the tooltip's
    screen position (which the component measures and keeps itself): the
    line of the current segment and the translation in the tooltip, if one
    is shown. *)
Record View := {
  view_segment : SubtitleSegment;
  view_line : list WordSpan;
  view_tooltip : option TranslationResponse
}.

(** [hoveredWord?.id === word.id]. *)
Definition isHovered (hovered : option SubtitleWord) (w : SubtitleWord) : bool :=
  match hovered with
  | Some h => bool_decide (word_id h = word_id w)
  | None => false
  end.

(** The component [SubtitleOverlay]; [None] is [null]. *)
Definition SubtitleOverlay (p : Props) : option View :=
  match currentSegment (p_segments p) (p_currentTime p) with
  | Some seg =>
      if negb (p_isEnabled p) then None
      else
        Some {| view_segment := seg;
                view_line :=
                  map (fun w => {| span_word := w;
                                   span_hovered := isHovered (p_hoveredWord p) w |})
                      (words seg);
                view_tooltip :=
                  match p_hoveredWord p with
                  | Some _ => p_translation p
                  | None => None
                  end |}
  | None => None
  end.

(** What is on screen: what the root was last asked to render, nothing
    once it is unmounted or before it has rendered. *)
Definition onScreen (b : Browser) (r : nat) : option View :=
  match List.find (fun call => fst call =? r) (log b) with
  | Some (_, Some props) => SubtitleOverlay props
  | _ => None
  end.

End Overlay.

(* ===================================================================== *)
(** ** The content script (class YouTubeLanguageReactor) *)
(* ===================================================================== *)

Module Reactor.

Record t := {
  isInitialized : bool;
  currentVideoId : option jsstring
}.

(** A call of [checkAndInitialize] that is suspended at an [await]. *)
Inductive Task :=
| AwaitPlayer
    (** at [await this.waitForPlayer()] *)
| AwaitExtract (outcome : result (list SubtitleSegment)).
    (** at [await subtitleExtractor.extractSubtitles()], whose [try] block
        ends in [outcome] *)

Record State := {
  world : World;
  browser : Overlay.Browser;
  extractor : SubtitleExtractor.t;
  manager : Overlay.Manager;
  reactor : t;
  pending : list Task
}.

Definition set_page (pg : Page) (s : State) : State :=
  {| world := {| page := pg; fetch := fetch (world s) |};
     browser := browser s; extractor := extractor s; manager := manager s;
     reactor := reactor s; pending := pending s |}.

Definition set_browser (b : Overlay.Browser) (s : State) : State :=
  {| world := world s; browser := b; extractor := extractor s;
     manager := manager s; reactor := reactor s; pending := pending s |}.

Definition set_overlay (mb : Overlay.Manager * Overlay.Browser) (s : State) : State :=
  {| world := world s; browser := snd mb; extractor := extractor s;
     manager := fst mb; reactor := reactor s; pending := pending s |}.

Definition set_extractor (ex : SubtitleExtractor.t) (s : State) : State :=
  {| world := world s; browser := browser s; extractor := ex;
     manager := manager s; reactor := reactor s; pending := pending s |}.

Definition set_reactor (r : t) (s : State) : State :=
  {| world := world s; browser := browser s; extractor := extractor s;
     manager := manager s; reactor := r; pending := pending s |}.

Definition set_pending (ts : list Task) (s : State) : State :=
  {| world := world s; browser := browser s; extractor := extractor s;
     manager := manager s; reactor := reactor s; pending := ts |}.

Definition overlay (s : State) : Overlay.Manager * Overlay.Browser :=
  (manager s, browser s).

Section WithPlatform.
Context `{Platform}.

(** [cleanup()]. *)
Definition cleanup (s : State) : State :=
  let s1 := set_reactor {| isInitialized := false;
                           currentVideoId := currentVideoId (reactor s) |} s in
  set_overlay (Overlay.destroy (overlay s1)) s1.

(** [checkAndInitialize()] up to its first [await]. *)
Definition checkAndInitialize (s : State) : State :=
  if negb (SubtitleExtractor.isVideoPage (page (world s))) then cleanup s
  else
    let videoId := SubtitleExtractor.getVideoId (page (world s)) in
    if bool_decide (videoId = currentVideoId (reactor s)) && isInitialized (reactor s)
    then s
    else
      set_pending (pending s ++ [AwaitPlayer])
        (set_reactor {| isInitialized := isInitialized (reactor s);
                        currentVideoId := videoId |} s).

(** [waitForPlayer()] resolves once both elements are found. *)
Definition playerReady (b : Overlay.Browser) : bool :=
  match Overlay.player b, Overlay.video b with
  | Some _, Some _ => true
  | _, _ => false
  end.

(** [initializeForVideo()] up to its [await]: it calls [extractSubtitles],
    which assigns [this.videoId] and runs its [try] block. *)
Definition initializeForVideo (s : State) : State :=
  let vid := SubtitleExtractor.getVideoId (page (world s)) in
  let outcome := SubtitleExtractor.extractSubtitles_try (world s) None vid in
  set_pending (pending s ++ [AwaitExtract outcome])
    (set_extractor {| SubtitleExtractor.videoId := vid;
                      SubtitleExtractor.subtitles :=
                        SubtitleExtractor.subtitles (extractor s) |} s).

(** The end of that call of [extractSubtitles]: [this.subtitles] is
    assigned when nothing was thrown, and the value it resolves to. *)
Definition extractSubtitles_resume (outcome : result (list SubtitleSegment)) (s : State)
  : list SubtitleSegment * State :=
  match outcome with
  | Ok segs =>
      (segs, set_extractor {| SubtitleExtractor.videoId :=
                                SubtitleExtractor.videoId (extractor s);
                              SubtitleExtractor.subtitles := segs |} s)
  | Throw _ => ([], s)
  end.

(** [initializeForVideo()] from its [await] on. *)
Definition initializeForVideo_resume (outcome : result (list SubtitleSegment)) (s : State)
  : State :=
  let '(subtitles, s1) := extractSubtitles_resume outcome s in
  match subtitles with
  | [] => s1
  | _ :: _ =>
      let '(overlayInitialized, mb) := Overlay.initialize (overlay s1) in
      let s2 := set_overlay mb s1 in
      if negb overlayInitialized then s2
      else
        let '(m3, b3) := Overlay.setSubtitles subtitles (overlay s2) in
        let m4 := Overlay.setOnWordSave Overlay.HandleWordSave
                    (Overlay.setOnTranslationRequest
                       Overlay.HandleTranslationRequest m3) in
        set_reactor {| isInitialized := true;
                       currentVideoId := currentVideoId (reactor s2) |}
          (set_overlay (m4, b3) s2)
  end.

(** What can happen next: the host page acts, a timer or the mutation
    observer calls [checkAndInitialize], a suspended call resumes, an
    animation frame runs [syncTime], or a message or pointer event reaches
    the overlay.  The host builds a new player out of fresh nodes; it does
    not put back one it removed. *)
Inductive Event :=
| Navigate (pg : Page)
| PlayerRebuilt
| PlayerRemoved
| VideoRebuilt
| VideoRemoved
| Playback (v : nat) (time : Num.number)
| Recheck
| Resume (i : nat)
| Frame (h : nat)
| Toggle (enabled : bool)
| Hover (w : SubtitleWord)
| Leave
| TranslationArrived (tr : TranslationResponse).

Definition step (e : Event) (s : State) : option State :=
  let b := browser s in
  match e with
  | Navigate pg => Some (set_page pg s)
  | PlayerRebuilt =>
      Some (set_browser
              (Overlay.set_dom (Some (Overlay.freshNode b)) (Overlay.video b)
                 (Overlay.parentOf b) (S (Overlay.freshNode b)) b) s)
  | PlayerRemoved =>
      Some (set_browser
              (Overlay.set_dom None (Overlay.video b) (Overlay.parentOf b)
                 (Overlay.freshNode b) b) s)
  | VideoRebuilt =>
      Some (set_browser
              (Overlay.set_dom (Overlay.player b) (Some (Overlay.freshNode b))
                 (Overlay.parentOf b) (S (Overlay.freshNode b)) b) s)
  | VideoRemoved =>
      Some (set_browser
              (Overlay.set_dom (Overlay.player b) None (Overlay.parentOf b)
                 (Overlay.freshNode b) b) s)
  | Playback v time =>
      Some (set_browser
              (Overlay.set_mediaTime
                 (fun x => if x =? v then time else Overlay.mediaTime b x) b) s)
  | Recheck => Some (checkAndInitialize s)
  | Resume i =>
      match pending s !! i with
      | Some AwaitPlayer =>
          if playerReady b
          then Some (initializeForVideo (set_pending (delete i (pending s)) s))
          else None
      | Some (AwaitExtract outcome) =>
          Some (initializeForVideo_resume outcome (set_pending (delete i (pending s)) s))
      | None => None
      end
  | Frame h =>
      if existsb (Nat.eqb h) (Overlay.frames b)
      then
        let b1 := Overlay.set_frames
                    (List.filter (fun f => negb (f =? h)) (Overlay.frames b))
                    (Overlay.nextFrame b) b in
        Some (set_overlay (Overlay.syncTime (manager s, b1)) s)
      else None
  | Toggle enabled => Some (set_overlay (Overlay.setEnabled enabled (overlay s)) s)
  | Hover w => Some (set_overlay (Overlay.handleWordHover w (overlay s)) s)
  | Leave => Some (set_overlay (Overlay.handleWordLeave (overlay s)) s)
  | TranslationArrived tr =>
      Some (set_overlay (Overlay.setTranslation (Some tr) (overlay s)) s)
  end.

Fixpoint run (es : list Event) (s : State) : option State :=
  match es with
  | [] => Some s
  | e :: es' =>
      match step e s with
      | Some s' => run es' s'
      | None => None
      end
  end.

(** The state in which the content script is constructed. *)
Definition initial (w : World) (hasPlayer hasVideo : bool) : State :=
  {| world := w;
     browser :=
       {| Overlay.player := if hasPlayer then Some 0 else None;
          Overlay.video := if hasVideo then Some 1 else None;
          Overlay.parentOf := ∅;
          Overlay.freshNode := 2;
          Overlay.mediaTime := fun _ => Num.zero;
          Overlay.frames := [];
          Overlay.nextFrame := 1;
          Overlay.log := [] |};
     extractor := SubtitleExtractor.init;
     manager := Overlay.new;
     reactor := {| isInitialized := false; currentVideoId := None |};
     pending := [] |}.

Inductive reachable : State -> Prop :=
| reachable_initial w hasPlayer hasVideo :
    reachable (initial w hasPlayer hasVideo)
| reachable_step s e s' :
    reachable s -> step e s = Some s' -> reachable s'.

End WithPlatform.

End Reactor.

(* ===================================================================== *)
(** ** utils/storage.ts *)
(* ===================================================================== *)

Record VocabularyItem := {
  item_id : Z;
  originalWord : jsstring;
  item_translation : jsstring;
  contextSentence : jsstring;
  item_videoId : jsstring;
  videoTitle : option jsstring;
  timestamp : jsstring;
  item_language : option jsstring;
  mastery : option nat
}.

(** [Omit<VocabularyItem, 'id'>]. *)
Record VocabularyDraft := {
  d_originalWord : jsstring;
  d_translation : jsstring;
  d_contextSentence : jsstring;
  d_videoId : jsstring;
  d_videoTitle : option jsstring;
  d_timestamp : jsstring;
  d_language : option jsstring;
  d_mastery : option nat
}.

Record ExtensionSettings := {
  enabled : bool;
  targetLanguage : jsstring;
  sourceLanguage : jsstring;
  showDualSubtitles : bool;
  autoShowTranslation : bool;
  subtitleFontSize : Num.number;
  subtitlePositionTop : bool;
  overlayOpacity : Num.number;
  apiEndpoint : jsstring
}.

(** [Partial<ExtensionSettings>]. *)
Record SettingsPatch := {
  s_enabled : option bool;
  s_targetLanguage : option jsstring;
  s_sourceLanguage : option jsstring;
  s_showDualSubtitles : option bool;
  s_autoShowTranslation : option bool;
  s_subtitleFontSize : option Num.number;
  s_subtitlePositionTop : option bool;
  s_overlayOpacity : option Num.number;
  s_apiEndpoint : option jsstring
}.

Definition DEFAULT_SETTINGS : ExtensionSettings :=
  {| enabled := true;
     targetLanguage := lit "vi";
     sourceLanguage := lit "en";
     showDualSubtitles := true;
     autoShowTranslation := false;
     subtitleFontSize := Num.ofDecimal false 18 0;
     subtitlePositionTop := false;
     overlayOpacity := Num.ofDecimal false 9 (-1);
     apiEndpoint := lit "http://localhost:5001" |}.

(** [{ ...base, ...patch }]. *)
Definition spread (base : ExtensionSettings) (patch : SettingsPatch)
  : ExtensionSettings :=
  {| enabled := default (enabled base) (s_enabled patch);
     targetLanguage := default (targetLanguage base) (s_targetLanguage patch);
     sourceLanguage := default (sourceLanguage base) (s_sourceLanguage patch);
     showDualSubtitles := default (showDualSubtitles base) (s_showDualSubtitles patch);
     autoShowTranslation := default (autoShowTranslation base) (s_autoShowTranslation patch);
     subtitleFontSize := default (subtitleFontSize base) (s_subtitleFontSize patch);
     subtitlePositionTop := default (subtitlePositionTop base) (s_subtitlePositionTop patch);
     overlayOpacity := default (overlayOpacity base) (s_overlayOpacity patch);
     apiEndpoint := default (apiEndpoint base) (s_apiEndpoint patch) |}.

Module Storage.

(** [chrome.storage.local]: the three keys the extension uses, each absent
    or present; while [available] is false every call on it rejects. *)
Record t := {
  available : bool;
  vocabulary : option (list VocabularyItem);
  settings : option SettingsPatch;
  translationCache : option (gmap jsstring jsstring)
}.

Definition set_vocabulary (v : list VocabularyItem) (st : t) : result t :=
  if available st
  then Ok {| available := true; vocabulary := Some v; settings := settings st;
             translationCache := translationCache st |}
  else Throw StorageFailure.

Definition set_translationCache (c : gmap jsstring jsstring) (st : t) : result t :=
  if available st
  then Ok {| available := true; vocabulary := vocabulary st;
             settings := settings st; translationCache := Some c |}
  else Throw StorageFailure.

Definition getVocabulary (st : t) : list VocabularyItem :=
  catch (if available st then Ok (default [] (vocabulary st))
         else Throw StorageFailure) [].

(** [array.findIndex(p)]; [None] is [-1]. *)
Fixpoint findIndex {A} (p : A -> bool) (l : list A) : option nat :=
  match l with
  | [] => None
  | x :: l' => if p x then Some 0 else option_map S (findIndex p l')
  end.

Section WithPlatform.
Context `{Platform}.

(** The test of [findIndex] in [saveVocabularyItem]. *)
Definition sameWord (item : VocabularyDraft) (v : VocabularyItem) : bool :=
  bool_decide (toLowerCase (originalWord v) = toLowerCase (d_originalWord item)).

(** [{ ...item, id, timestamp }]. *)
Definition withId (item : VocabularyDraft) (id : Z) (ts : jsstring)
  : VocabularyItem :=
  {| item_id := id;
     originalWord := d_originalWord item;
     item_translation := d_translation item;
     contextSentence := d_contextSentence item;
     item_videoId := d_videoId item;
     videoTitle := d_videoTitle item;
     timestamp := ts;
     item_language := d_language item;
     mastery := d_mastery item |}.

(** [saveVocabularyItem(item)], with [now] for [Date.now()] and [iso] for
    [new Date().toISOString()]: the item returned and the storage
    afterwards. *)
Definition saveVocabularyItem (item : VocabularyDraft) (now : Z) (iso : jsstring)
  (st : t) : result (VocabularyItem * t) :=
  let vocabulary := getVocabulary st in
  let existingIndex := findIndex (sameWord item) vocabulary in
  let newItem :=
    withId item
      (match existingIndex with
       | Some i => match vocabulary !! i with
                   | Some v => item_id v
                   | None => now
                   end
       | None => now
       end) iso in
  let vocabulary' :=
    match existingIndex with
    | Some i => <[i := newItem]> vocabulary
    | None => vocabulary ++ [newItem]
    end in
  let* st' := set_vocabulary vocabulary' st in
  Ok (newItem, st').

Definition getSettings (st : t) : ExtensionSettings :=
  catch (if available st
         then Ok (match settings st with
                  | Some p => spread DEFAULT_SETTINGS p
                  | None => DEFAULT_SETTINGS
                  end)
         else Throw StorageFailure) DEFAULT_SETTINGS.

(** [getCachedTranslation(word)]; [None] is [null].  The cache is read as
    a map of its own properties. *)
Definition getCachedTranslation (word : jsstring) (st : t) : option jsstring :=
  catch (if available st
         then Ok (match default ∅ (translationCache st) !! toLowerCase word with
                  | Some tr => if truthy tr then Some tr else None
                  | None => None
                  end)
         else Throw StorageFailure) None.

(** [cacheTranslation(word, translation)]. *)
Definition cacheTranslation (word translation : jsstring) (st : t) : t :=
  catch (if available st
         then set_translationCache
                (<[toLowerCase word := translation]> (default ∅ (translationCache st))) st
         else Throw StorageFailure) st.

(** [deleteVocabularyItem(id)]: what it returns and the storage
    afterwards. *)
Definition deleteVocabularyItem (id : Z) (st : t) : bool * t :=
  let vocabulary := getVocabulary st in
  let filtered := List.filter (fun v => negb (item_id v =? id)%Z) vocabulary in
  match set_vocabulary filtered st with
  | Ok st' => (true, st')
  | Throw _ => (false, st)
  end.

(** [clearVocabulary()]. *)
Definition clearVocabulary (st : t) : result t := set_vocabulary [] st.


(** A settings object as the stored value it is: every field present. *)
Definition stored (x : ExtensionSettings) : SettingsPatch :=
  {| s_enabled := Some (enabled x);
     s_targetLanguage := Some (targetLanguage x);
     s_sourceLanguage := Some (sourceLanguage x);
     s_showDualSubtitles := Some (showDualSubtitles x);
     s_autoShowTranslation := Some (autoShowTranslation x);
     s_subtitleFontSize := Some (subtitleFontSize x);
     s_subtitlePositionTop := Some (subtitlePositionTop x);
     s_overlayOpacity := Some (overlayOpacity x);
     s_apiEndpoint := Some (apiEndpoint x) |}.


End WithPlatform.

(** The template literal of a cell: every double quote of the cell
    replaced by two, the whole between double quotes. *)
Definition quoteCell (cell : jsstring) : jsstring :=
  [34%N] ++ flat_map (fun c => if (c =? 34)%N then [34%N; 34%N] else [c]) cell
         ++ [34%N].

(** [parts.join(sep)]. *)
Fixpoint join (sep : jsstring) (parts : list jsstring) : jsstring :=
  match parts with
  | [] => []
  | [part] => part
  | part :: rest => part ++ sep ++ join sep rest
  end.

(** The cells of an item's row; [toLocaleDateString] stands for
    [new Date(timestamp).toLocaleDateString()]. *)
Definition cellsOf (toLocaleDateString : jsstring -> jsstring) (v : VocabularyItem)
  : list jsstring :=
  [originalWord v; item_translation v; contextSentence v; item_videoId v;
   toLocaleDateString (timestamp v)].

(** [exportVocabularyToCSV()]. *)
Definition exportVocabularyToCSV (toLocaleDateString : jsstring -> jsstring)
  (st : t) : jsstring :=
  let vocabulary := getVocabulary st in
  let headers := [lit "Word"; lit "Translation"; lit "Context"; lit "Video ID";
                  lit "Date"] in
  let rows := map (cellsOf toLocaleDateString) vocabulary in
  let csvContent :=
    join [10%N]
      (join (lit ",") headers
       :: map (fun row => join (lit ",") (map quoteCell row)) rows) in
  csvContent.

End Storage.

(* ===================================================================== *)
(** ** utils/api.ts and background/service-worker.ts *)
(* ===================================================================== *)

Record TranslationRequest := {
  req_word : jsstring;
  req_contextSentence : option jsstring;
  req_sourceLanguage : option jsstring;
  req_targetLanguage : jsstring
}.

Module Api.

(** The JSON body posted to [/api/translate]. *)
Record Body := {
  body_word : jsstring;
  body_context : option jsstring;
  body_source_language : jsstring;
  body_target_language : jsstring
}.

(** The JSON object a successful reply carries. *)
Record Data := {
  data_word : jsstring;
  data_translation : jsstring;
  data_language : option jsstring;
  data_pronunciation : option jsstring;
  data_part_of_speech : option jsstring;
  data_definitions : option (list jsstring)
}.

(** What the [fetch] of [/api/translate] and [response.json()] end in. *)
Inductive Reply :=
| Unreachable
| Status (status : nat)
| BadJson
| Json (data : Data).

(** The backend, seen from the extension. *)
Definition Backend := Body -> Reply.

Definition translateWord (backend : Backend) (request : TranslationRequest)
  : TranslationResponse :=
  match backend {| body_word := req_word request;
                   body_context := req_contextSentence request;
                   body_source_language :=
                     orElse (req_sourceLanguage request) (lit "en");
                   body_target_language := req_targetLanguage request |} with
  | Json data =>
      {| tr_word := data_word data;
         tr_translation := data_translation data;
         tr_language := orElse (data_language data) (req_targetLanguage request);
         pronunciation := data_pronunciation data;
         partOfSpeech := data_part_of_speech data;
         definitions := data_definitions data |}
  | _ =>
      {| tr_word := req_word request;
         tr_translation := lit "[" ++ req_word request ++ lit "]";
         tr_language := req_targetLanguage request;
         pronunciation := None;
         partOfSpeech := None;
         definitions := None |}
  end.

End Api.

Module ServiceWorker.

Section WithPlatform.
Context `{Platform}.

(** [request.word.replace(/[^\w\s]/g, '').trim().toLowerCase()]. *)
Definition cleanWord (word : jsstring) : jsstring :=
  toLowerCase
    (trim (List.filter (fun c => isWordChar c || isWhiteSpace c) word)).

(** What [handleGetTranslation] did besides answering. *)
Inductive Effect :=
| CacheLookup (word : jsstring)
| ApiCall (request : TranslationRequest).

(** [handleGetTranslation(request)]: the [data] of the response (its
    [success] is always true), the storage afterwards, and the lookups and
    calls made, in order. *)
Definition handleGetTranslation (backend : Api.Backend)
  (request : TranslationRequest) (st : Storage.t)
  : TranslationResponse * Storage.t * list Effect :=
  let settings := Storage.getSettings st in
  let cleanWord := cleanWord (req_word request) in
  match Storage.getCachedTranslation cleanWord st with
  | Some cached =>
      ({| tr_word := cleanWord;
          tr_translation := cached;
          tr_language := targetLanguage settings;
          pronunciation := None;
          partOfSpeech := None;
          definitions := None |}, st, [CacheLookup cleanWord])
  | None =>
      let apiRequest :=
        {| req_word := cleanWord;
           req_contextSentence := req_contextSentence request;
           req_sourceLanguage := Some (sourceLanguage settings);
           req_targetLanguage := targetLanguage settings |} in
      let translation := Api.translateWord backend apiRequest in
      let st' :=
        if truthy (tr_translation translation) &&
           negb (startsWith (lit "[") (tr_translation translation))
        then Storage.cacheTranslation cleanWord (tr_translation translation) st
        else st in
      (translation, st', [CacheLookup cleanWord; ApiCall apiRequest])
  end.

End WithPlatform.

(** [ExtensionResponse<T>]. *)
Record Response (T : Type) := {
  success : bool;
  data : option T;
  error : option Error
}.
Arguments success {T} r.
Arguments data {T} r.
Arguments error {T} r.

(** The message listener around a handler: [handleMessage(message)
    .then(sendResponse).catch(...)] answers with the handler's response,
    or with a failure when the handler threw; the storage is the one the
    handler left. *)
Definition respond {T} (handled : result (Response T * Storage.t)) (st : Storage.t)
  : Response T * Storage.t :=
  match handled with
  | Ok answered => answered
  | Throw e => ({| success := false; data := None; error := Some e |}, st)
  end.

Section Handlers.
Context `{Platform}.

(** The listener on a [GET_TRANSLATION] message. *)
Definition onGetTranslation (backend : Api.Backend) (request : TranslationRequest)
  (st : Storage.t) : Response TranslationResponse * Storage.t :=
  let '(translation, st', _) := handleGetTranslation backend request st in
  respond (Ok ({| success := true; data := Some translation; error := None |}, st')) st.

(** [handleSaveVocabulary(item)]. *)
Definition handleSaveVocabulary (item : VocabularyDraft) (now : Z) (iso : jsstring)
  (st : Storage.t) : result (Response VocabularyItem * Storage.t) :=
  let* (savedItem, st') := Storage.saveVocabularyItem item now iso st in
  Ok ({| success := true; data := Some savedItem; error := None |}, st').

(** [handleGetVocabulary()]. *)
Definition handleGetVocabulary (st : Storage.t)
  : result (Response (list VocabularyItem) * Storage.t) :=
  Ok ({| success := true; data := Some (Storage.getVocabulary st); error := None |}, st).

(** [handleDeleteVocabulary(payload)]; the response has no [data]. *)
Definition handleDeleteVocabulary (id : Z) (st : Storage.t)
  : result (Response unit * Storage.t) :=
  let '(ok, st') := Storage.deleteVocabularyItem id st in
  Ok ({| success := ok; data := None; error := None |}, st').

End Handlers.

End ServiceWorker.

(* ===================================================================== *)
(** ** The content script's two callbacks *)
(* ===================================================================== *)

Module ReactorHandlers.

Section WithPlatform.
Context `{Platform}.






End WithPlatform.

End ReactorHandlers.

(* ===================================================================== *)
(** ** A platform to run the definitions on *)
(* ===================================================================== *)

(** ASCII lower-casing, an XML reader for elements, quoted attributes and
    character data (no prolog, no entities), a textarea that hands back
    what it was given, and a [JSON.parse] that knows one object.  It is
    used on inputs inside these limits only. *)
Module Sample.

Definition lowerUnit (c : code_unit) : code_unit :=
  if ((65 <=? c) && (c <=? 90))%N then (c + 32)%N else c.

Definition isNameChar (c : code_unit) : bool :=
  (isWordChar c || (c =? 45) || (c =? 46) || (c =? 58))%N.

Fixpoint readAttributes (fuel : nat) (s : jsstring)
  : option (list (jsstring * jsstring) * bool * jsstring) :=
  match fuel with
  | 0 => None
  | S f =>
      match drop_while isWhiteSpace s with
      | 62%N :: r => Some ([], false, r)
      | 47%N :: 62%N :: r => Some ([], true, r)
      | s1 =>
          match take_while isNameChar s1, drop_while isNameChar s1 with
          | c :: name, 61%N :: q :: r =>
              if ((q =? 34) || (q =? 39))%N then
                match drop_while (fun x => negb (x =? q)%N) r with
                | _ :: r' =>
                    match readAttributes f r' with
                    | Some (attrs, closed, rest) =>
                        Some ((c :: name, take_while (fun x => negb (x =? q)%N) r)
                                :: attrs, closed, rest)
                    | None => None
                    end
                | [] => None
                end
              else None
          | _, _ => None
          end
      end
  end.

Fixpoint readNodes (fuel : nat) (s : jsstring) : option (list XmlNode * jsstring) :=
  match fuel with
  | 0 => None
  | S f =>
      match s with
      | [] => Some ([], [])
      | 60%N :: 47%N :: _ => Some ([], s)
      | 60%N :: r =>
          let name := take_while isNameChar r in
          match readAttributes f (drop_while isNameChar r) with
          | Some (attrs, true, rest) =>
              match readNodes f rest with
              | Some (siblings, rest') =>
                  Some (XElement name attrs [] :: siblings, rest')
              | None => None
              end
          | Some (attrs, false, rest) =>
              match readNodes f rest with
              | Some (children, 60%N :: 47%N :: rest1) =>
                  if startsWith (name ++ [62%N]) rest1 then
                    match readNodes f (drop (S (length name)) rest1) with
                    | Some (siblings, rest') =>
                        Some (XElement name attrs children :: siblings, rest')
                    | None => None
                    end
                  else None
              | _ => None
              end
          | None => None
          end
      | _ =>
          match readNodes f (drop_while (fun x => negb (x =? 60)%N) s) with
          | Some (siblings, rest') =>
              Some (XText (take_while (fun x => negb (x =? 60)%N) s) :: siblings, rest')
          | None => None
          end
      end
  end.

Definition readDocument (s : jsstring) : Document :=
  match readNodes (S (length s)) s with
  | Some ([XElement name attrs children], []) =>
      {| documentElement := XElement name attrs children |}
  | _ => {| documentElement := XElement (lit "parsererror") [] [] |}
  end.

Definition emptyCaptions : PlayerResponse :=
  {| captions := Some {| playerCaptionsTracklistRenderer := None |} |}.

(** A double quote. *)
Definition dq : jsstring := [34%N].

(** The text [{"captions":{}}]. *)
Definition emptyCaptionsJson : jsstring :=
  lit "{" ++ dq ++ lit "captions" ++ dq ++ lit ":{}}".

Definition platform : Platform :=
  {| toLowerCase := map lowerUnit;
     parseFromString := readDocument;
     textareaValue := fun s => s;
     JSON_parse := fun s =>
       if bool_decide (s = emptyCaptionsJson) then Some emptyCaptions else None |}.

(** [<text start="1.0" dur="2.5">Hello world</text>] *)
Definition helloXml : jsstring :=
  lit "<text start=" ++ dq ++ lit "1.0" ++ dq ++ lit " dur=" ++ dq ++ lit "2.5"
    ++ dq ++ lit ">Hello world</text>".

Definition helloDocument : Document :=
  {| documentElement :=
       XElement (lit "text") [(lit "start", lit "1.0"); (lit "dur", lit "2.5")]
         [XText (lit "Hello world")] |}.

Definition helloSegment : SubtitleSegment :=
  {| seg_id := lit "segment-0";
     startTime := Num.ofDecimal false 1 0;
     endTime := Num.ofDecimal false 35 (-1);
     seg_text := lit "Hello world";
     words := [ {| word_id := lit "segment-0-word-0"; word_text := lit "Hello";
                   startIndex := 0; endIndex := 5 |};
                {| word_id := lit "segment-0-word-1"; word_text := lit "world";
                   startIndex := 6; endIndex := 11 |} ] |}.

(** Two lines under a root element; the second has no [dur]. *)
Definition twoLinesXml : jsstring :=
  lit "<transcript><text start='0' dur='1.5'>one  two</text><text start='2'> three</text></transcript>".

Definition track (url : string) : CaptionTrack :=
  {| baseUrl := lit url; languageCode := lit "en"; track_name := None; vssId := None |}.

Definition withTracks (ts : list CaptionTrack) : PlayerResponse :=
  {| captions := Some {| playerCaptionsTracklistRenderer :=
                           Some {| captionTracks := Some ts |} |} |}.

Definition noCaptions : PlayerResponse := {| captions := None |}.

(** A watch page whose window global has no captions while the legacy
    configuration lists a track; nothing can be fetched. *)
Definition legacyOnlyWorld : World :=
  {| page := {| pathname := lit "/watch";
                search_v := Some (lit "abc");
                ytInitialPlayerResponse := Some noCaptions;
                scripts := [];
                raw_player_response := Some (withTracks [track "https://t/en"]) |};
     fetch := fun _ => NetworkError |}.

(** The watch page of video [aaa], whose window global lists one track that
    serves [helloXml]. *)
Definition pageA : Page :=
  {| pathname := lit "/watch";
     search_v := Some (lit "aaa");
     ytInitialPlayerResponse := Some (withTracks [track "https://t/a"]);
     scripts := [];
     raw_player_response := None |}.

(** The watch page of video [bbb], which has no captions. *)
Definition pageB : Page :=
  {| pathname := lit "/watch";
     search_v := Some (lit "bbb");
     ytInitialPlayerResponse := Some noCaptions;
     scripts := [];
     raw_player_response := None |}.

(** A watch page whose second inline script assigns the player response
    [{"captions":{}}]. *)
Definition pageWithScript : Page :=
  {| pathname := lit "/watch";
     search_v := Some (lit "ccc");
     ytInitialPlayerResponse := None;
     scripts := [lit "var a = 1;";
                 lit "var ytInitialPlayerResponse  = " ++ emptyCaptionsJson
                   ++ lit ";var b = {};"];
     raw_player_response := Some (withTracks [track "https://t/c"]) |}.

(** The home page. *)
Definition pageHome : Page :=
  {| pathname := lit "/";
     search_v := None;
     ytInitialPlayerResponse := None;
     scripts := [];
     raw_player_response := None |}.

Definition worldA : World :=
  {| page := pageA;
     fetch := fun url =>
       if bool_decide (url = lit "https://t/a")
       then Response true 200 (Some helloXml)
       else NetworkError |}.

End Sample.

(* ===================================================================== *)
(** ** Notions the properties are stated with *)
(* ===================================================================== *)

(** The substring a word's offsets cut out of the text. *)
Definition wordSubstring (text : jsstring) (w : SubtitleWord) : jsstring :=
  substring text (startIndex w) (endIndex w).

(** What holds of the words found from [lastIndex] on. *)
Record loop_facts (text : jsstring) (lastIndex : nat) (ws : list SubtitleWord)
  : Prop := {
  lf_concat :
    concat (map (wordSubstring text) ws)
    = List.filter isNonWhiteSpace (drop lastIndex text);
  lf_bounds :
    Forall (fun w => lastIndex <= startIndex w /\ startIndex w < endIndex w /\
                     endIndex w <= length text) ws;
  lf_text :
    Forall (fun w => wordSubstring text w = word_text w /\
                     Forall (fun c => isWhiteSpace c = false) (word_text w)) ws;
  lf_sorted :
    forall i j w1 w2, i < j -> ws !! i = Some w1 -> ws !! j = Some w2 ->
                      endIndex w1 <= startIndex w2
}.

(** The number an attribute stands for when a missing (or empty) one counts
    as 0. *)
Definition attributeOrZero (name : jsstring) (element : XmlNode) : Num.number :=
  match getAttribute name element with
  | Some (c :: v) => Num.parseFloat (c :: v)
  | _ => Num.zero
  end.

(** A sequence is ordered and free of overlap when no segment ends before
    it starts and each ends at or before the start of the next. *)
Fixpoint orderedSegments (segs : list SubtitleSegment) : bool :=
  match segs with
  | [] => true
  | s :: rest =>
      Num.le (startTime s) (endTime s) &&
      match rest with
      | [] => true
      | s' :: _ => Num.le (endTime s) (startTime s')
      end &&
      orderedSegments rest
  end.

Section Chain.
Context `{Platform}.

(** What each place yields when asked on its own. *)
Definition yield (w : World) (videoId : jsstring)
  (s : SubtitleExtractor.Strategy) : option PlayerResponse :=
  match s with
  | SubtitleExtractor.WindowGlobal => ytInitialPlayerResponse (page w)
  | SubtitleExtractor.InlineScripts => SubtitleExtractor.scanScripts (scripts (page w))
  | SubtitleExtractor.LegacyConfig => raw_player_response (page w)
  | SubtitleExtractor.BackgroundFetch =>
      SubtitleExtractor.fetchPlayerResponseFallback w videoId
  end.

(** A yield is usable when its caption-track list is there and not empty. *)
Definition usable (r : option PlayerResponse) : bool :=
  match r with
  | Some r => SubtitleExtractor.hasCaptions r
  | None => false
  end.

(** The chain in the specification's words: the yield of the first place,
    in order, whose yield is usable. *)
Definition spec_firstUsable (w : World) (videoId : jsstring)
  : option PlayerResponse :=
  match List.find (fun s => usable (yield w videoId s))
          [SubtitleExtractor.WindowGlobal; SubtitleExtractor.InlineScripts;
           SubtitleExtractor.LegacyConfig; SubtitleExtractor.BackgroundFetch] with
  | Some s => yield w videoId s
  | None => None
  end.

End Chain.

(** What the invariant reads of manager and page: the manager's container,
    the player in the document, the parents of the containers and the next
    node. *)
Definition shape (mb : Overlay.Manager * Overlay.Browser) :=
  (Overlay.container (fst mb), Overlay.player (snd mb),
   Overlay.parentOf (snd mb), Overlay.freshNode (snd mb)).

(** Nodes in use are older than the next node, and a container that is in
    the document is the one the manager holds. *)
Definition overlay_inv (mb : Overlay.Manager * Overlay.Browser) : Prop :=
  (forall c p, Overlay.parentOf (snd mb) !! c = Some p ->
               c < Overlay.freshNode (snd mb) /\ p < Overlay.freshNode (snd mb)) /\
  (forall p, Overlay.player (snd mb) = Some p -> p < Overlay.freshNode (snd mb)) /\
  (forall c, Overlay.inDocument (snd mb) c = true ->
             Overlay.container (fst mb) = Some c).

(** The state once video [aaa] has its overlay and the URL has changed to
    video [bbb]. *)
Definition sessionThenNavigation : Reactor.State :=
  default (Reactor.initial Sample.worldA true true)
    (@Reactor.run Sample.platform
       [Reactor.Recheck; Reactor.Resume 0; Reactor.Resume 0;
        Reactor.Navigate Sample.pageB]
       (Reactor.initial Sample.worldA true true)).

(** The lower-cased word a vocabulary item is found under. *)
Definition wordKey `{Platform} (v : VocabularyItem) : jsstring :=
  toLowerCase (originalWord v).

(** The calls that write the vocabulary, and one such call on a storage; a
    call that rejects leaves the storage as it was. *)
Inductive VocabularyCall :=
| CallSave (item : VocabularyDraft) (now : Z) (iso : jsstring)
| CallDelete (id : Z)
| CallClear.

Definition call `{Platform} (c : VocabularyCall) (st : Storage.t) : Storage.t :=
  match c with
  | CallSave item now iso =>
      match Storage.saveVocabularyItem item now iso st with
      | Ok (_, st') => st'
      | Throw _ => st
      end
  | CallDelete id => snd (Storage.deleteVocabularyItem id st)
  | CallClear =>
      match Storage.clearVocabulary st with
      | Ok st' => st'
      | Throw _ => st
      end
  end.

(** The calls on the overlay manager that end in [render], and a frame of
    the time sync. *)
Inductive OverlayCall :=
| CallSetSubtitles (segs : list SubtitleSegment)
| CallSetTranslation (t : option TranslationResponse)
| CallSetEnabled (enabled : bool)
| CallHover (w : SubtitleWord)
| CallLeave
| CallFrame.

Definition overlayCall (c : OverlayCall)
  (mb : Overlay.Manager * Overlay.Browser) : Overlay.Manager * Overlay.Browser :=
  match c with
  | CallSetSubtitles segs => Overlay.setSubtitles segs mb
  | CallSetTranslation t => Overlay.setTranslation t mb
  | CallSetEnabled enabled => Overlay.setEnabled enabled mb
  | CallHover w => Overlay.handleWordHover w mb
  | CallLeave => Overlay.handleWordLeave mb
  | CallFrame => Overlay.syncTime mb
  end.

(** The manager's root and container are made and given up together, and
    a container it holds is attached to some node. *)
Definition mounted (mb : Overlay.Manager * Overlay.Browser) : Prop :=
  Overlay.root (fst mb) = Overlay.container (fst mb) /\
  forall c, Overlay.container (fst mb) = Some c ->
            is_Some (Overlay.parentOf (snd mb) !! c).

(** What [isInitialized] stands for: the overlay has a root, segments to
    show and both callbacks. *)
Definition ready (m : Overlay.Manager) : Prop :=
  Overlay.root m <> None /\
  Overlay.segments m <> [] /\
  Overlay.onTranslationRequest m = Some Overlay.HandleTranslationRequest /\
  Overlay.onWordSave m = Some Overlay.HandleWordSave.

(** What [mounted] and [ready] read of manager and page. *)
Definition frameOf (mb : Overlay.Manager * Overlay.Browser) :=
  (Overlay.root (fst mb), Overlay.container (fst mb), Overlay.parentOf (snd mb),
   Overlay.segments (fst mb), Overlay.onTranslationRequest (fst mb),
   Overlay.onWordSave (fst mb)).

(** Reading a CSV row back.  [readQuoted] reads the inside of a quoted
    cell, from after its opening quote to its closing quote, and gives the
    cell and what follows; [readRow] reads quoted cells separated by commas
    for as long as a comma follows. *)
Fixpoint readQuoted (s : jsstring) : option (jsstring * jsstring) :=
  match s with
  | [] => None
  | c :: r =>
      if (c =? 34)%N then
        match r with
        | d :: r' =>
            if (d =? 34)%N
            then option_map (fun out => (34%N :: fst out, snd out)) (readQuoted r')
            else Some ([], r)
        | [] => Some ([], [])
        end
      else option_map (fun out => (c :: fst out, snd out)) (readQuoted r)
  end.

Fixpoint readRow (cells : nat) (s : jsstring) : option (list jsstring * jsstring) :=
  match cells with
  | 0 => None
  | S n =>
      match s with
      | q :: r =>
          if (q =? 34)%N then
            match readQuoted r with
            | Some (cell, k :: rest) =>
                if (k =? 44)%N
                then option_map (fun out => (cell :: fst out, snd out)) (readRow n rest)
                else Some ([cell], k :: rest)
            | Some (cell, []) => Some ([cell], [])
            | None => None
            end
          else None
      | [] => None
      end
  end.

(* ===================================================================== *)
(** * Properties *)
(* ===================================================================== *)

(** ** The definitions at work *)

Example split_hello :
  map (fun w => (startIndex w, endIndex w)) (splitIntoWords (lit "Hello world") (lit "segment-0"))
  = [(0,5); (6,11)].
Proof. vm_compute. reflexivity. Qed.

Example parseFloat_1_0 :
  Num.parseFloat (lit "1.0") = S754_finite false 4503599627370496 (-52).
Proof. vm_compute. reflexivity. Qed.

Example parseFloat_2_5 :
  Num.parseFloat (lit "2.5") = S754_finite false 5629499534213120 (-51).
Proof. vm_compute. reflexivity. Qed.

Example parseFloat_0_1 :
  Num.parseFloat (lit "0.1") = S754_finite false 7205759403792794 (-56).
Proof. vm_compute. reflexivity. Qed.

Example parseFloat_misc :
  Num.parseFloat (lit "  -12.5e1xyz") = Num.ofDecimal true 125 0 /\
  Num.parseFloat (lit "abc") = Num.NaN /\
  Num.parseFloat (lit ".") = Num.NaN /\
  Num.parseFloat (lit "1e") = Num.ofDecimal false 1 0 /\
  Num.parseFloat (lit "-0") = S754_zero true /\
  Num.parseFloat (lit "1e400") = S754_infinity false /\
  Num.parseFloat (lit "0") = Num.zero /\
  Num.add (Num.parseFloat (lit "0.1")) (Num.parseFloat (lit "0.2"))
    = S754_finite false 5404319552844596 (-54).
Proof. vm_compute. repeat split; reflexivity. Qed.

Example sample_reads_hello :
  Sample.readDocument Sample.helloXml = Sample.helloDocument.
Proof. vm_compute. reflexivity. Qed.

Example sample_parseXml_two_lines :
  map (fun s => (seg_id s, map (fun w => (startIndex w, endIndex w)) (words s)))
      (@SubtitleExtractor.parseXml Sample.platform Sample.twoLinesXml)
  = [(lit "segment-0", [(0, 3); (5, 8)]); (lit "segment-1", [(1, 6)])].
Proof. vm_compute. reflexivity. Qed.

Example script_scan :
  SubtitleExtractor.matchPlayerResponse
    (lit "var ytInitialPlayerResponse  = " ++ Sample.emptyCaptionsJson
       ++ lit ";var b = {};")
  = Some Sample.emptyCaptionsJson /\
  @SubtitleExtractor.getPlayerResponse Sample.platform Sample.pageWithScript
  = ([SubtitleExtractor.WindowGlobal; SubtitleExtractor.InlineScripts],
     Some Sample.emptyCaptions) /\
  @SubtitleExtractor.locatePlayerResponse Sample.platform
    {| page := Sample.pageWithScript; fetch := fun _ => NetworkError |} (lit "ccc")
  = ([SubtitleExtractor.WindowGlobal; SubtitleExtractor.InlineScripts;
      SubtitleExtractor.BackgroundFetch], None).
Proof. vm_compute. repeat split; reflexivity. Qed.

Example clean_word :
  @ServiceWorker.cleanWord Sample.platform (lit "  Don't-Stop!  ") = lit "dontstop" /\
  @ServiceWorker.cleanWord Sample.platform (lit "New York,") = lit "new york".
Proof. vm_compute. split; reflexivity. Qed.

Example three_and_a_half :
  Num.ofDecimal false 1 0 = S754_finite false 4503599627370496 (-52) /\
  Num.ofDecimal false 35 (-1) = S754_finite false 7881299347898368 (-51) /\
  (4503599627370496 = 1 * 2 ^ 52)%Z /\
  (2 * 7881299347898368 = 7 * 2 ^ 51)%Z.
Proof. vm_compute. repeat split; reflexivity. Qed.

(** ** Runs of code units *)

Lemma take_drop_while p s : take_while p s ++ drop_while p s = s.
Proof.
  induction s as [|c s IH]; simpl; [reflexivity|].
  destruct (p c); simpl; [f_equal; exact IH | reflexivity].
Qed.

Lemma take_while_all p s : Forall (fun c => p c = true) (take_while p s).
Proof.
  induction s as [|c s IH]; simpl; [constructor|].
  destruct (p c) eqn:E; constructor; assumption.
Qed.

Lemma drop_while_head p s c r : drop_while p s = c :: r -> p c = false.
Proof.
  induction s as [|d s IH]; simpl; [discriminate|].
  destruct (p d) eqn:E; [exact IH|].
  intros [= <- <-]. exact E.
Qed.

Lemma filter_all (p : code_unit -> bool) s :
  Forall (fun c => p c = true) s -> List.filter p s = s.
Proof.
  induction 1 as [|c s Hc _ IH]; simpl; [reflexivity|].
  rewrite Hc, IH. reflexivity.
Qed.

Lemma filter_none (p : code_unit -> bool) s :
  Forall (fun c => p c = false) s -> List.filter p s = [].
Proof.
  induction 1 as [|c s Hc _ IH]; simpl; [reflexivity|].
  rewrite Hc. exact IH.
Qed.

Lemma white_run_filtered s :
  List.filter isNonWhiteSpace (take_while isWhiteSpace s) = [].
Proof.
  apply filter_none.
  eapply Forall_impl; [apply take_while_all|].
  intros c Hc. unfold isNonWhiteSpace. rewrite Hc. reflexivity.
Qed.

(** ** One match of the regex *)

(** What a successful [exec] says about the text after [lastIndex]: white
    space, then the match, then a rest that does not go on with a
    non-white-space unit. *)
Lemma regex_exec_some text lastIndex idx m :
  regex_exec text lastIndex = Some (idx, m) ->
  exists gap rest,
    drop lastIndex text = gap ++ m ++ rest /\
    idx = lastIndex + length gap /\
    Forall (fun c => isWhiteSpace c = true) gap /\
    Forall (fun c => isNonWhiteSpace c = true) m /\
    m <> [] /\
    drop (idx + length m) text = rest.
Proof.
  unfold regex_exec. intros Hx.
  pose proof (take_drop_while isWhiteSpace (drop lastIndex text)) as Hgap.
  pose proof (take_while_all isWhiteSpace (drop lastIndex text)) as Hws.
  pose proof (take_drop_while isNonWhiteSpace
                (drop_while isWhiteSpace (drop lastIndex text))) as Hrun.
  pose proof (take_while_all isNonWhiteSpace
                (drop_while isWhiteSpace (drop lastIndex text))) as Hnws.
  destruct (take_while isNonWhiteSpace
              (drop_while isWhiteSpace (drop lastIndex text)))
    as [|c r]; [discriminate|].
  injection Hx as <- <-.
  remember (take_while isWhiteSpace (drop lastIndex text)) as gap.
  remember (drop_while isNonWhiteSpace
              (drop_while isWhiteSpace (drop lastIndex text))) as rest.
  exists gap, rest.
  rewrite <- Hrun in Hgap.
  repeat split; try assumption; try discriminate.
  - symmetry. exact Hgap.
  - rewrite <- Nat.add_assoc, <- drop_drop, <- Hgap, app_assoc.
    apply drop_app_length'. rewrite length_app. reflexivity.
Qed.

(** When [exec] answers [null], only white space is left. *)
Lemma regex_exec_none text lastIndex :
  regex_exec text lastIndex = None ->
  Forall (fun c => isWhiteSpace c = true) (drop lastIndex text).
Proof.
  unfold regex_exec.
  set (after := drop lastIndex text).
  destruct (take_while isNonWhiteSpace (drop_while isWhiteSpace after))
    as [|c r] eqn:E; [intros _|discriminate].
  rewrite <- (take_drop_while isWhiteSpace after).
  apply Forall_app. split; [apply take_while_all|].
  destruct (drop_while isWhiteSpace after) as [|d s] eqn:D; [constructor|].
  apply drop_while_head in D. simpl in E.
  unfold isNonWhiteSpace in E. rewrite D in E. discriminate.
Qed.

(** ** The word loop *)

Lemma substring_of_match text idx m rest gap k :
  drop k text = gap ++ m ++ rest -> idx = k + length gap ->
  substring text idx (idx + length m) = m.
Proof.
  intros Hd ->. unfold substring.
  replace (k + length gap + length m - (k + length gap)) with (length m) by lia.
  rewrite <- drop_drop, Hd, drop_app_length.
  apply take_app_length.
Qed.

Lemma exec_loop_facts text segmentId lastIndex wordIndex :
  loop_facts text lastIndex (exec_loop text segmentId lastIndex wordIndex).
Proof.
  funelim (exec_loop text segmentId lastIndex wordIndex); clear Heqcall.
  - (* a match at idx *)
    match goal with H : _ = _ :> sigma _ |- _ => clear H end.
    rename Hexec into Hsome.
    pose proof (regex_exec_bounds _ _ _ _ Hsome) as (Hle & Hpos & Hend).
    destruct (regex_exec_some _ _ _ _ Hsome)
      as (gap & rest & Hd & Hidx & Hgap & Hm & Hne & Hrest).
    destruct H as [IHc IHb IHt IHs].
    pose proof (substring_of_match _ _ _ _ _ _ Hd Hidx) as Hsub.
    constructor.
    + simpl. unfold wordSubstring at 1. simpl. rewrite Hsub, IHc, Hrest, Hd.
      rewrite !List.filter_app, (filter_none _ gap), (filter_all _ m Hm);
        [reflexivity|].
      eapply Forall_impl; [exact Hgap|].
      intros c Hc. unfold isNonWhiteSpace. rewrite Hc. reflexivity.
    + constructor; [simpl; lia|].
      eapply Forall_impl; [exact IHb|]. simpl. intros w Hw. lia.
    + constructor; [|exact IHt].
      split; [exact Hsub|]. simpl.
      eapply Forall_impl; [exact Hm|].
      intros c Hc. unfold isNonWhiteSpace in Hc.
      destruct (isWhiteSpace c); [discriminate|reflexivity].
    + intros i j w1 w2 Hij Hi Hj.
      destruct j as [|j]; [lia|]. simpl in Hj.
      destruct i as [|i].
      * injection Hi as <-. simpl.
        rewrite Forall_forall in IHb.
        apply list_elem_of_lookup_2 in Hj.
        apply IHb in Hj. lia.
      * simpl in Hi. apply (IHs i j); [lia|assumption|assumption].
  - (* exec answered null *)
    match goal with H : _ = _ :> sigma _ |- _ => clear H end.
    match goal with H : regex_exec _ _ = None |- _ =>
      apply regex_exec_none in H; rename H into Hnone end.
    constructor; simpl.
    + symmetry. apply filter_none.
      eapply Forall_impl; [exact Hnone|].
      intros c Hc. unfold isNonWhiteSpace. rewrite Hc. reflexivity.
    + constructor.
    + constructor.
    + intros i j w1 w2 _ Hi. rewrite lookup_nil in Hi. discriminate.
Qed.

Lemma splitIntoWords_facts text segmentId :
  loop_facts text 0 (splitIntoWords text segmentId).
Proof. apply exec_loop_facts. Qed.

(** ** Segments of [parseXml] *)

Lemma parseXml_elem `{Platform} xml seg :
  seg ∈ SubtitleExtractor.parseXml xml ->
  exists i element,
    querySelectorAll (lit "text") (parseFromString xml) !! i = Some element /\
    seg = SubtitleExtractor.parseElement i element.
Proof.
  unfold SubtitleExtractor.parseXml. rewrite elem_of_lookup_imap.
  intros (i & el & -> & Hi). exists i, el. split; [exact Hi|reflexivity].
Qed.

Lemma parseXml_words `{Platform} xml seg :
  seg ∈ SubtitleExtractor.parseXml xml ->
  words seg = splitIntoWords (seg_text seg) (seg_id seg).
Proof.
  intros Hin. apply parseXml_elem in Hin as (i & el & _ & ->). reflexivity.
Qed.

(** C4: for every segment [parseXml] produces, the substrings its words cut
    out of the decoded text by their offsets, concatenated in word order,
    are the text with every white-space code unit removed. *)
Theorem words_concat_is_nonwhitespace_content `{Platform}
  (xml : jsstring) (seg : SubtitleSegment) :
  seg ∈ SubtitleExtractor.parseXml xml ->
  concat (map (wordSubstring (seg_text seg)) (words seg))
  = List.filter isNonWhiteSpace (seg_text seg).
Proof.
  intros Hin. rewrite (parseXml_words _ _ Hin).
  apply (lf_concat _ _ _ (splitIntoWords_facts _ _)).
Qed.

Lemma words_concat_witness :
  Sample.helloSegment ∈ @SubtitleExtractor.parseXml Sample.platform Sample.helloXml /\
  concat (map (wordSubstring (seg_text Sample.helloSegment))
              (words Sample.helloSegment))
  = List.filter isNonWhiteSpace (seg_text Sample.helloSegment).
Proof.
  assert (Hin : Sample.helloSegment
                ∈ @SubtitleExtractor.parseXml Sample.platform Sample.helloXml)
    by (vm_compute; apply list_elem_of_here).
  split; [exact Hin|].
  exact (@words_concat_is_nonwhitespace_content Sample.platform _ _ Hin).
Defined.

(** C5: in every segment [parseXml] produces, a word that precedes another
    ends at or before the offset the other starts at, so start offsets
    increase strictly and no two words overlap; every word is non-empty,
    lies inside the text, and the substring at its offsets is its text and
    holds no white-space code unit. *)
Theorem word_offsets_ordered `{Platform} (xml : jsstring) (seg : SubtitleSegment) :
  seg ∈ SubtitleExtractor.parseXml xml ->
  (forall i j w1 w2,
      i < j -> words seg !! i = Some w1 -> words seg !! j = Some w2 ->
      endIndex w1 <= startIndex w2 /\ startIndex w1 < startIndex w2) /\
  (forall w, w ∈ words seg ->
      startIndex w < endIndex w /\ endIndex w <= length (seg_text seg) /\
      wordSubstring (seg_text seg) w = word_text w /\
      forall c, c ∈ wordSubstring (seg_text seg) w -> isWhiteSpace c = false).
Proof.
  intros Hin. rewrite (parseXml_words _ _ Hin).
  destruct (splitIntoWords_facts (seg_text seg) (seg_id seg))
    as [_ Hb Ht Hs].
  rewrite Forall_forall in Hb, Ht.
  split.
  - intros i j w1 w2 Hij Hi Hj.
    pose proof (Hs i j w1 w2 Hij Hi Hj) as Hle.
    apply list_elem_of_lookup_2, Hb in Hi. lia.
  - intros w Hw.
    destruct (Hb w Hw) as (_ & Hlt & Hlen).
    destruct (Ht w Hw) as (Hsub & Hnw).
    repeat split; try assumption.
    intros c Hc. rewrite Hsub in Hc.
    rewrite Forall_forall in Hnw. exact (Hnw c Hc).
Qed.

Lemma word_offsets_witness :
  Sample.helloSegment ∈ @SubtitleExtractor.parseXml Sample.platform Sample.helloXml /\
  (forall i j w1 w2,
      i < j -> words Sample.helloSegment !! i = Some w1 ->
      words Sample.helloSegment !! j = Some w2 ->
      endIndex w1 <= startIndex w2 /\ startIndex w1 < startIndex w2) /\
  (forall w, w ∈ words Sample.helloSegment ->
      startIndex w < endIndex w /\
      endIndex w <= length (seg_text Sample.helloSegment) /\
      wordSubstring (seg_text Sample.helloSegment) w = word_text w /\
      forall c, c ∈ wordSubstring (seg_text Sample.helloSegment) w ->
                isWhiteSpace c = false).
Proof.
  assert (Hin : Sample.helloSegment
                ∈ @SubtitleExtractor.parseXml Sample.platform Sample.helloXml)
    by (vm_compute; apply list_elem_of_here).
  split; [exact Hin|].
  exact (@word_offsets_ordered Sample.platform _ _ Hin).
Defined.

(** ** Timed text to segments *)

Lemma parseFloat_orElse name element :
  Num.parseFloat (orElse (getAttribute name element) (lit "0"))
  = attributeOrZero name element.
Proof.
  unfold attributeOrZero, orElse.
  destruct (getAttribute name element) as [[|c v]|]; reflexivity.
Qed.

(** C3: [parseXml] makes one segment per [text] element, in document
    order; the segment's start time is the number in the [start]
    attribute, its end time is that plus the number in [dur], and a
    missing attribute counts as 0.  Where the XML parser reads
    [<text start="1.0" dur="2.5">Hello world</text>] as that one element
    and entity decoding leaves [Hello world] alone, the result is the one
    segment from 1.0 to 3.5 with the words [Hello] at (0,5) and [world]
    at (6,11). *)
Theorem parseXml_one_segment_per_text_node `{Platform} (xml : jsstring) :
  let elements := querySelectorAll (lit "text") (parseFromString xml) in
  let segs := SubtitleExtractor.parseXml xml in
  length segs = length elements /\
  (forall i element,
      elements !! i = Some element ->
      exists seg,
        segs !! i = Some seg /\
        seg_id seg = SubtitleExtractor.segmentId i /\
        startTime seg = attributeOrZero (lit "start") element /\
        endTime seg = Num.add (attributeOrZero (lit "start") element)
                              (attributeOrZero (lit "dur") element) /\
        seg_text seg = SubtitleExtractor.decodeHtmlEntities (textContent element) /\
        words seg = splitIntoWords (seg_text seg) (seg_id seg)) /\
  (parseFromString Sample.helloXml = Sample.helloDocument ->
   textareaValue (lit "Hello world") = lit "Hello world" ->
   SubtitleExtractor.parseXml Sample.helloXml = [Sample.helloSegment]).
Proof.
  intros elements segs. subst elements segs.
  unfold SubtitleExtractor.parseXml.
  split; [apply length_imap|].
  split.
  - intros i element Hi.
    exists (SubtitleExtractor.parseElement i element).
    split; [rewrite list_lookup_imap, Hi; reflexivity|].
    unfold SubtitleExtractor.parseElement. simpl.
    rewrite !parseFloat_orElse. repeat split; reflexivity.
  - intros Hparse Htext. rewrite Hparse.
    assert (Hq : querySelectorAll (lit "text") Sample.helloDocument
                 = [documentElement Sample.helloDocument])
      by (vm_compute; reflexivity).
    rewrite Hq. cbn [imap].
    unfold SubtitleExtractor.parseElement, SubtitleExtractor.decodeHtmlEntities.
    assert (Htc : textContent (documentElement Sample.helloDocument)
                  = lit "Hello world") by (vm_compute; reflexivity).
    rewrite Htc, Htext.
    vm_compute. reflexivity.
Qed.

Lemma parseXml_hello_witness :
  @parseFromString Sample.platform Sample.helloXml = Sample.helloDocument /\
  @textareaValue Sample.platform (lit "Hello world") = lit "Hello world" /\
  @SubtitleExtractor.parseXml Sample.platform Sample.helloXml
  = [Sample.helloSegment].
Proof.
  assert (Hparse : @parseFromString Sample.platform Sample.helloXml
                   = Sample.helloDocument) by (vm_compute; reflexivity).
  assert (Htext : @textareaValue Sample.platform (lit "Hello world")
                  = lit "Hello world") by reflexivity.
  split; [exact Hparse|]. split; [exact Htext|].
  exact (proj2 (proj2 (@parseXml_one_segment_per_text_node
                         Sample.platform Sample.helloXml)) Hparse Htext).
Defined.

(** ** Comparing numbers *)

Ltac compare_cases :=
  repeat match goal with
  | H : context [Z.compare ?x ?y] |- _ => destruct (Z.compare_spec x y)
  | |- context [Z.compare ?x ?y] => destruct (Z.compare_spec x y)
  | H : context [Pos.compare_cont Eq ?x ?y] |- _ =>
      change (Pos.compare_cont Eq x y) with (Pos.compare x y) in *;
      destruct (Pos.compare_spec x y)
  | |- context [Pos.compare_cont Eq ?x ?y] =>
      change (Pos.compare_cont Eq x y) with (Pos.compare x y) in *;
      destruct (Pos.compare_spec x y)
  end.

Ltac by_comparison :=
  unfold Num.lt, Num.le, Num.ge, Num.gt, SFltb, SFleb, SFcompare;
  repeat match goal with
  | x : Num.number |- _ => destruct x as [[]|[]| |[] ? ?]
  end;
  try discriminate; try reflexivity; simpl; intros;
  compare_cases; simpl in *; try discriminate; try reflexivity; try lia.

Lemma lt_le_trans (a b c : Num.number) :
  Num.lt a b = true -> Num.le b c = true -> Num.lt a c = true.
Proof. by_comparison. Qed.

Lemma le_trans (a b c : Num.number) :
  Num.le a b = true -> Num.le b c = true -> Num.le a c = true.
Proof. by_comparison. Qed.

Lemma lt_not_ge (a b : Num.number) : Num.lt a b = true -> Num.ge a b = false.
Proof. by_comparison. Qed.

Lemma ge_not_lt (a b : Num.number) : Num.ge a b = true -> Num.lt a b = false.
Proof. by_comparison. Qed.

(** ** The active segment *)

Lemma find_some_split {A} (p : A -> bool) (l : list A) (x : A) :
  List.find p l = Some x <->
  exists pre post,
    l = pre ++ x :: post /\ p x = true /\ Forall (fun y => p y = false) pre.
Proof.
  split.
  - induction l as [|y l IH]; simpl; [discriminate|].
    destruct (p y) eqn:E.
    + intros [= ->]. exists [], l. repeat split; [exact E|constructor].
    + intros Hf. destruct (IH Hf) as (pre & post & -> & Hx & Hpre).
      exists (y :: pre), post. repeat split; [exact Hx|].
      constructor; assumption.
  - intros (pre & post & -> & Hx & Hpre).
    induction Hpre as [|y pre Hy _ IH]; simpl.
    + rewrite Hx. reflexivity.
    + rewrite Hy. exact IH.
Qed.

Lemma find_none_all {A} (p : A -> bool) (l : list A) :
  List.find p l = None <-> Forall (fun y => p y = false) l.
Proof.
  induction l as [|y l IH]; simpl.
  - split; [constructor|reflexivity].
  - destruct (p y) eqn:E.
    + split; [discriminate|]. intros Hf. inversion Hf; congruence.
    + rewrite IH. split; [constructor; assumption|].
      intros Hf. inversion Hf; assumption.
Qed.

Lemma before_first_none t s rest :
  orderedSegments (s :: rest) = true ->
  Num.lt t (startTime s) = true ->
  Forall (fun x => SubtitleExtractor.covers t x = false) (s :: rest).
Proof.
  revert s. induction rest as [|s' rest IH]; intros s Hord Hlt.
  - constructor; [|constructor].
    unfold SubtitleExtractor.covers. rewrite (lt_not_ge _ _ Hlt). reflexivity.
  - cbn [orderedSegments] in Hord.
    apply andb_prop in Hord as [Hord Hrest].
    apply andb_prop in Hord as [Hse Hnext].
    constructor.
    + unfold SubtitleExtractor.covers. rewrite (lt_not_ge _ _ Hlt). reflexivity.
    + apply IH; [exact Hrest|].
      eapply lt_le_trans; [|exact Hnext].
      eapply lt_le_trans; [exact Hlt|exact Hse].
Qed.

Lemma ends_before_last t s rest l :
  orderedSegments (s :: rest) = true ->
  last (s :: rest) = Some l ->
  Num.ge t (endTime l) = true ->
  Num.ge t (endTime s) = true.
Proof.
  revert s. induction rest as [|s' rest IH]; intros s Hord Hlast Hge.
  - injection Hlast as ->. exact Hge.
  - cbn [orderedSegments] in Hord.
    apply andb_prop in Hord as [Hord Hrest].
    apply andb_prop in Hord as [_ Hnext].
    change (last (s :: s' :: rest)) with (last (s' :: rest)) in Hlast.
    pose proof (IH s' Hrest Hlast Hge) as Hs'.
    assert (Hmid : Num.le (startTime s') (endTime s') = true).
    { cbn [orderedSegments] in Hrest.
      apply andb_prop in Hrest as [Hrest _].
      apply andb_prop in Hrest as [Hrest _]. exact Hrest. }
    change (Num.le (endTime s) t = true).
    eapply le_trans; [exact Hnext|].
    eapply le_trans; [exact Hmid|]. exact Hs'.
Qed.

Lemma after_last_none t segs l :
  orderedSegments segs = true ->
  last segs = Some l ->
  Num.ge t (endTime l) = true ->
  Forall (fun x => SubtitleExtractor.covers t x = false) segs.
Proof.
  induction segs as [|s rest IH]; intros Hord Hlast Hge; [constructor|].
  constructor.
  - pose proof (ends_before_last _ _ _ _ Hord Hlast Hge) as Hs.
    unfold SubtitleExtractor.covers.
    rewrite (ge_not_lt _ _ Hs). apply andb_false_r.
  - destruct rest as [|s' rest]; [constructor|].
    apply IH; [|exact Hlast|exact Hge].
    cbn [orderedSegments] in Hord.
    apply andb_prop in Hord as [_ Hrest]. exact Hrest.
Qed.

(** C6: [getCurrentSegment] (and the [find] of the overlay component, which
    is the same test) answers the first segment in sequence order with
    [startTime <= t < endTime], and nothing exactly when no segment passes
    the test; it leaves the extractor as it was, so asking again gives the
    same answer; and on a sequence that is ordered and free of overlap the
    answer is nothing for [t] before the first start and for [t] at or
    after the last end. *)
Theorem getCurrentSegment_first_cover (t : Num.number) (ex : SubtitleExtractor.t) :
  let segs := SubtitleExtractor.subtitles ex in
  let answer := fst (SubtitleExtractor.getCurrentSegment t ex) in
  let within seg := Num.le (startTime seg) t && Num.lt t (endTime seg) in
  (forall seg,
      answer = Some seg <->
      exists pre post,
        segs = pre ++ seg :: post /\ within seg = true /\
        Forall (fun s => within s = false) pre) /\
  (answer = None <-> Forall (fun s => within s = false) segs) /\
  snd (SubtitleExtractor.getCurrentSegment t ex) = ex /\
  fst (SubtitleExtractor.getCurrentSegment t
         (snd (SubtitleExtractor.getCurrentSegment t ex))) = answer /\
  Overlay.currentSegment segs t = answer /\
  (orderedSegments segs = true ->
   forall first final,
     head segs = Some first -> last segs = Some final ->
     Num.lt t (startTime first) = true \/ Num.ge t (endTime final) = true ->
     answer = None).
Proof.
  intros segs answer within. subst segs answer.
  unfold SubtitleExtractor.getCurrentSegment. cbn [fst snd].
  assert (Hw : forall s, SubtitleExtractor.covers t s = within s) by reflexivity.
  split; [intros seg; apply (find_some_split (SubtitleExtractor.covers t))|].
  split; [apply (find_none_all (SubtitleExtractor.covers t))|].
  split; [reflexivity|]. split; [reflexivity|]. split; [reflexivity|].
  intros Hord first final Hfirst Hlast Hout.
  apply find_none_all.
  destruct Hout as [Hbefore|Hafter].
  - destruct (SubtitleExtractor.subtitles ex) as [|s rest]; [constructor|].
    injection Hfirst as ->. apply before_first_none; assumption.
  - eapply after_last_none; eassumption.
Qed.

Lemma getCurrentSegment_witness :
  let ex := {| SubtitleExtractor.videoId := None;
               SubtitleExtractor.subtitles := [Sample.helloSegment] |} in
  orderedSegments (SubtitleExtractor.subtitles ex) = true /\
  Num.lt (Num.ofDecimal false 5 (-1)) (startTime Sample.helloSegment) = true /\
  fst (SubtitleExtractor.getCurrentSegment (Num.ofDecimal false 5 (-1)) ex) = None.
Proof.
  intros ex.
  assert (Hord : orderedSegments (SubtitleExtractor.subtitles ex) = true)
    by (vm_compute; reflexivity).
  assert (Hlt : Num.lt (Num.ofDecimal false 5 (-1))
                       (startTime Sample.helloSegment) = true)
    by (vm_compute; reflexivity).
  split; [exact Hord|]. split; [exact Hlt|].
  destruct (getCurrentSegment_first_cover (Num.ofDecimal false 5 (-1)) ex)
    as (_ & _ & _ & _ & _ & Hout).
  exact (Hout Hord Sample.helloSegment Sample.helloSegment
              eq_refl eq_refl (or_introl Hlt)).
Defined.

(** ** Failures of the extraction *)

Lemma locate_has_captions `{Platform} w videoId r :
  snd (SubtitleExtractor.locatePlayerResponse w videoId) = Some r ->
  SubtitleExtractor.hasCaptions r = true.
Proof.
  unfold SubtitleExtractor.locatePlayerResponse.
  destruct (SubtitleExtractor.getPlayerResponse (page w)) as [tried [r0|]].
  - destruct (SubtitleExtractor.hasCaptions r0) eqn:E; cbn [snd].
    + intros [= <-]. exact E.
    + unfold SubtitleExtractor.fetchPlayerResponseFallback.
      repeat case_match; try discriminate. intros [= <-]. assumption.
  - cbn [snd]. unfold SubtitleExtractor.fetchPlayerResponseFallback.
    repeat case_match; try discriminate. intros [= <-]. assumption.
Qed.

(** C7: whatever is thrown inside [extractSubtitles] is caught there and
    the empty list is returned: when the URL has no video id, when no
    place yields a player response, when the response found in the page
    has no caption track and the fetched page has none either, when the
    caption file cannot be fetched, and (without anything thrown) when the
    XML holds no [text] element.  [initializeForVideo] then leaves overlay
    and reactor as they are. *)
Theorem extractSubtitles_failures_give_empty `{Platform}
  (w : World) (language : option jsstring) (ex : SubtitleExtractor.t) :
  let vid := SubtitleExtractor.getVideoId (page w) in
  let attempt := SubtitleExtractor.extractSubtitles_try w language vid in
  let returned := fst (SubtitleExtractor.extractSubtitles w language ex) in
  (forall e, attempt = Throw e -> returned = []) /\
  (forall segs, attempt = Ok segs -> returned = segs) /\
  (orElse vid [] = [] -> returned = []) /\
  (forall v, vid = Some v ->
     snd (SubtitleExtractor.getPlayerResponse (page w)) = None ->
     SubtitleExtractor.fetchPlayerResponseFallback w v = None ->
     returned = []) /\
  (forall v r, vid = Some v ->
     snd (SubtitleExtractor.getPlayerResponse (page w)) = Some r ->
     match SubtitleExtractor.getCaptionTracks r with
     | Some (_ :: _) => False
     | _ => True
     end ->
     SubtitleExtractor.fetchPlayerResponseFallback w v = None ->
     returned = []) /\
  (forall v r t ts e, vid = Some v ->
     snd (SubtitleExtractor.locatePlayerResponse w v) = Some r ->
     SubtitleExtractor.getCaptionTracks r = Some (t :: ts) ->
     SubtitleExtractor.fetchSubtitles w
       (baseUrl (SubtitleExtractor.selectTrack language t ts)) = Throw e ->
     returned = []) /\
  (forall v r t ts xml, vid = Some v ->
     snd (SubtitleExtractor.locatePlayerResponse w v) = Some r ->
     SubtitleExtractor.getCaptionTracks r = Some (t :: ts) ->
     SubtitleExtractor.fetchSubtitles w
       (baseUrl (SubtitleExtractor.selectTrack language t ts)) = Ok xml ->
     querySelectorAll (lit "text") (parseFromString xml) = [] ->
     returned = []) /\
  (forall s outcome,
     fst (Reactor.extractSubtitles_resume outcome s) = [] ->
     let s' := Reactor.initializeForVideo_resume outcome s in
     Reactor.manager s' = Reactor.manager s /\
     Reactor.browser s' = Reactor.browser s /\
     Reactor.reactor s' = Reactor.reactor s).
Proof.
  intros vid attempt returned. subst returned attempt.
  unfold SubtitleExtractor.extractSubtitles. fold vid.
  assert (Hthrow : forall e,
    SubtitleExtractor.extractSubtitles_try w language vid = Throw e ->
    fst match SubtitleExtractor.extractSubtitles_try w language vid with
        | Ok segs => (segs, {| SubtitleExtractor.videoId := vid;
                               SubtitleExtractor.subtitles := segs |})
        | Throw _ => ([], {| SubtitleExtractor.videoId := vid;
                             SubtitleExtractor.subtitles :=
                               SubtitleExtractor.subtitles ex |})
        end = []).
  { intros e ->. reflexivity. }
  split; [exact Hthrow|].
  split; [intros segs ->; reflexivity|].
  split.
  { intros Hvid. apply (Hthrow NoVideoId).
    unfold SubtitleExtractor.extractSubtitles_try.
    destruct vid as [[|c v]|]; try reflexivity. discriminate. }
  assert (Hnone : forall v, vid = Some v ->
    snd (SubtitleExtractor.locatePlayerResponse w v) = None ->
    exists e, SubtitleExtractor.extractSubtitles_try w language vid = Throw e).
  { intros v -> Hloc. unfold SubtitleExtractor.extractSubtitles_try.
    destruct v as [|c v]; [exists NoVideoId; reflexivity|].
    cbn [truthy bind]. rewrite Hloc. exists NoPlayerResponse. reflexivity. }
  split.
  { intros v Hv Hpage Hfetch.
    destruct (Hnone v Hv) as [e He]; [|exact (Hthrow e He)].
    unfold SubtitleExtractor.locatePlayerResponse.
    destruct (SubtitleExtractor.getPlayerResponse (page w)) as [tried r0].
    cbn [snd] in Hpage. subst r0. exact Hfetch. }
  split.
  { intros v r Hv Hpage Hcap Hfetch.
    destruct (Hnone v Hv) as [e He]; [|exact (Hthrow e He)].
    unfold SubtitleExtractor.locatePlayerResponse.
    destruct (SubtitleExtractor.getPlayerResponse (page w)) as [tried r0].
    cbn [snd] in Hpage. subst r0.
    unfold SubtitleExtractor.hasCaptions.
    destruct (SubtitleExtractor.getCaptionTracks r) as [[|t ts]|];
      [exact Hfetch|contradiction|exact Hfetch]. }
  split.
  { intros v r t ts e Hv Hloc Htracks Hfetch.
    destruct v as [|c v].
    - apply (Hthrow NoVideoId).
      unfold SubtitleExtractor.extractSubtitles_try. rewrite Hv. reflexivity.
    - apply (Hthrow e).
      unfold SubtitleExtractor.extractSubtitles_try. rewrite Hv.
      cbn [truthy bind]. rewrite Hloc. cbn [bind]. rewrite Htracks.
      cbn [bind]. rewrite Hfetch. reflexivity. }
  split.
  { intros v r t ts xml Hv Hloc Htracks Hfetch Hempty.
    destruct v as [|c v].
    - apply (Hthrow NoVideoId).
      unfold SubtitleExtractor.extractSubtitles_try. rewrite Hv. reflexivity.
    - unfold SubtitleExtractor.extractSubtitles_try. rewrite Hv.
      cbn [truthy bind]. rewrite Hloc. cbn [bind]. rewrite Htracks.
      cbn [bind]. rewrite Hfetch. cbn [bind fst].
      unfold SubtitleExtractor.parseXml. rewrite Hempty. reflexivity. }
  intros s outcome Hempty.
  unfold Reactor.initializeForVideo_resume.
  destruct (Reactor.extractSubtitles_resume outcome s) as [subs s1] eqn:E.
  cbn [fst] in Hempty. subst subs.
  unfold Reactor.extractSubtitles_resume in E.
  destruct outcome as [segs|e].
  - injection E as _ <-. repeat split.
  - injection E as <-. repeat split.
Qed.

Lemma extractSubtitles_failure_witness :
  let w := {| page := {| pathname := lit "/watch";
                         search_v := Some (lit "abc");
                         ytInitialPlayerResponse :=
                           Some (Sample.withTracks [Sample.track "https://t/en"]);
                         scripts := [];
                         raw_player_response := None |};
              fetch := fun _ => NetworkError |} in
  @SubtitleExtractor.extractSubtitles_try Sample.platform w None
    (SubtitleExtractor.getVideoId (page w)) = Throw FetchRejected /\
  fst (@SubtitleExtractor.extractSubtitles Sample.platform w None
         SubtitleExtractor.init) = [].
Proof.
  intros w.
  assert (Ht : @SubtitleExtractor.extractSubtitles_try Sample.platform w None
                 (SubtitleExtractor.getVideoId (page w)) = Throw FetchRejected)
    by (vm_compute; reflexivity).
  split; [exact Ht|].
  exact (proj1 (@extractSubtitles_failures_give_empty Sample.platform w None
                  SubtitleExtractor.init) FetchRejected Ht).
Defined.

(** ** The order in which a player response is looked for *)

Lemma scanScripts_has_captions_field `{Platform} ss r :
  SubtitleExtractor.scanScripts ss = Some r -> captions r <> None.
Proof.
  induction ss as [|content ss IH]; simpl; [discriminate|].
  destruct (SubtitleExtractor.scanScript content) as [json|] eqn:E; [|exact IH].
  intros [= <-]. unfold SubtitleExtractor.scanScript in E.
  repeat case_match; try discriminate. injection E as <-. congruence.
Qed.

(** C1 as the code has it: inside the page the window global, the inline
    scripts and the legacy configuration are asked in that order, and the
    first that yields a response at all ends the lookup (a script's
    response counts when it has a [captions] field); a later place is asked
    only when the earlier ones yielded none.  The watch page is fetched
    exactly when that response is missing or has no caption track, and the
    fetched response is then the only candidate.  A response that is used
    always has a non-empty caption-track list. *)
Theorem locatePlayerResponse_order `{Platform} (w : World) (videoId : jsstring) :
  let inPage := SubtitleExtractor.getPlayerResponse (page w) in
  let located := SubtitleExtractor.locatePlayerResponse w videoId in
  let asked s := s ∈ fst located in
  let found := yield w videoId in
  snd inPage
  = match found SubtitleExtractor.WindowGlobal with
    | Some r => Some r
    | None =>
        match found SubtitleExtractor.InlineScripts with
        | Some r => Some r
        | None => found SubtitleExtractor.LegacyConfig
        end
    end /\
  (exists rest,
      fst located = SubtitleExtractor.WindowGlobal :: rest /\
      rest `sublist_of` [SubtitleExtractor.InlineScripts;
                         SubtitleExtractor.LegacyConfig;
                         SubtitleExtractor.BackgroundFetch]) /\
  (asked SubtitleExtractor.InlineScripts <->
   found SubtitleExtractor.WindowGlobal = None) /\
  (asked SubtitleExtractor.LegacyConfig <->
   found SubtitleExtractor.WindowGlobal = None /\
   found SubtitleExtractor.InlineScripts = None) /\
  (asked SubtitleExtractor.BackgroundFetch <-> usable (snd inPage) = false) /\
  snd located
  = (if usable (snd inPage) then snd inPage
     else found SubtitleExtractor.BackgroundFetch) /\
  (forall r, found SubtitleExtractor.InlineScripts = Some r -> captions r <> None) /\
  (forall r, snd located = Some r -> SubtitleExtractor.hasCaptions r = true).
Proof.
  intros inPage located asked found.
  subst inPage located asked found.
  unfold SubtitleExtractor.locatePlayerResponse, SubtitleExtractor.getPlayerResponse.
  cbn [yield].
  pose proof (scanScripts_has_captions_field (scripts (page w))) as Hfield.
  pose proof (locate_has_captions w videoId) as Hused.
  unfold SubtitleExtractor.locatePlayerResponse,
    SubtitleExtractor.getPlayerResponse in Hused.
  destruct (ytInitialPlayerResponse (page w)) as [r1|];
    [|destruct (SubtitleExtractor.scanScripts (scripts (page w))) as [r2|];
      [|destruct (raw_player_response (page w)) as [r3|]]];
    cbn [usable fst snd] in *;
    repeat match goal with
    | |- context [SubtitleExtractor.hasCaptions ?r] =>
        destruct (SubtitleExtractor.hasCaptions r) eqn:?
    end;
    cbn [fst snd app] in *;
    (split; [reflexivity|]);
    (split; [eexists; (split; [reflexivity|]);
             repeat first [ apply sublist_nil
                          | apply sublist_skip; solve [repeat constructor]
                          | apply sublist_skip | apply sublist_cons ] |]);
    (split; [set_solver|]); (split; [set_solver|]); (split; [set_solver|]);
    (split; [reflexivity|]); (split; [assumption|assumption]).
Qed.

(** The chain as the specification words it does not hold: with a window
    global that has no captions, the legacy configuration is never asked
    although it is the first place with a usable yield, and nothing is
    located. *)
Lemma first_usable_place_is_skipped :
  let w := Sample.legacyOnlyWorld in
  let v := lit "abc" in
  @spec_firstUsable Sample.platform w v
  = Some (Sample.withTracks [Sample.track "https://t/en"]) /\
  @SubtitleExtractor.locatePlayerResponse Sample.platform w v
  = ([SubtitleExtractor.WindowGlobal; SubtitleExtractor.BackgroundFetch], None) /\
  snd (@SubtitleExtractor.locatePlayerResponse Sample.platform w v)
  <> @spec_firstUsable Sample.platform w v /\
  fst (@SubtitleExtractor.extractSubtitles Sample.platform w None
         SubtitleExtractor.init) = [].
Proof.
  vm_compute. repeat split; try reflexivity. discriminate.
Qed.

Lemma locatePlayerResponse_witness :
  let w := Sample.legacyOnlyWorld in
  usable (snd (@SubtitleExtractor.getPlayerResponse Sample.platform (page w)))
  = false /\
  SubtitleExtractor.BackgroundFetch
  ∈ fst (@SubtitleExtractor.locatePlayerResponse Sample.platform w (lit "abc")).
Proof.
  intros w.
  assert (Hu : usable (snd (@SubtitleExtractor.getPlayerResponse
                              Sample.platform (page w))) = false)
    by (vm_compute; reflexivity).
  split; [exact Hu|].
  destruct (@locatePlayerResponse_order Sample.platform w (lit "abc"))
    as (_ & _ & _ & _ & Hfetch & _).
  exact (proj2 Hfetch Hu).
Defined.

(** ** The sync tick *)

(** C8 as the code has it: a tick whose video time is more than 0.1 away
    from the stored time stores the new time and renders with it; any other
    tick leaves every field of the manager as it was except the stored
    animation-frame handle, and renders nothing.  Every tick re-arms the
    loop: it requests the next frame and stores that handle. *)
Theorem syncTime_dead_zone (m : Overlay.Manager) (b : Overlay.Browser) (v : nat) :
  Overlay.videoElement m = Some v ->
  let newTime := Overlay.mediaTime b v in
  let moved := Num.gt (Num.abs (Num.sub newTime (Overlay.currentTime m)))
                      (Num.ofDecimal false 1 (-1)) in
  let m' := fst (Overlay.syncTime (m, b)) in
  let b' := snd (Overlay.syncTime (m, b)) in
  (moved = true ->
   m' = Overlay.set_animationFrameId (Some (Overlay.nextFrame b))
          (Overlay.set_currentTime newTime m) /\
   Overlay.log b'
   = match Overlay.root m with
     | Some r => (r, Some (Overlay.propsOf (Overlay.set_currentTime newTime m)))
                   :: Overlay.log b
     | None => Overlay.log b
     end) /\
  (moved = false ->
   m' = Overlay.set_animationFrameId (Some (Overlay.nextFrame b)) m /\
   Overlay.log b' = Overlay.log b) /\
  Overlay.animationFrameId m' = Some (Overlay.nextFrame b) /\
  Overlay.frames b' = Overlay.nextFrame b :: Overlay.frames b /\
  Overlay.nextFrame b' = S (Overlay.nextFrame b) /\
  Overlay.parentOf b' = Overlay.parentOf b /\
  Overlay.player b' = Overlay.player b /\
  Overlay.video b' = Overlay.video b.
Proof.
  intros Hv newTime moved m' b'. subst m' b' moved newTime.
  unfold Overlay.syncTime. rewrite Hv.
  fold Overlay.threshold.
  fold (Overlay.timeMoved (Overlay.mediaTime b v) (Overlay.currentTime m)).
  destruct (Overlay.timeMoved (Overlay.mediaTime b v) (Overlay.currentTime m)).
  - unfold Overlay.render. cbn [Overlay.root Overlay.set_currentTime].
    destruct (Overlay.root m) as [r|]; cbn;
      repeat split; try reflexivity; discriminate.
  - cbn. repeat split; try reflexivity; discriminate.
Qed.

Lemma syncTime_witness :
  let m := Overlay.set_videoElement (Some 1) Overlay.new in
  let b := Reactor.browser (Reactor.initial Sample.worldA true true) in
  Overlay.videoElement m = Some 1 /\
  Num.gt (Num.abs (Num.sub (Overlay.mediaTime b 1) (Overlay.currentTime m)))
         (Num.ofDecimal false 1 (-1)) = false /\
  fst (Overlay.syncTime (m, b))
  = Overlay.set_animationFrameId (Some (Overlay.nextFrame b)) m.
Proof.
  intros m b.
  assert (Hstill : Num.gt (Num.abs (Num.sub (Overlay.mediaTime b 1)
                                            (Overlay.currentTime m)))
                          (Num.ofDecimal false 1 (-1)) = false)
    by (vm_compute; reflexivity).
  split; [reflexivity|]. split; [exact Hstill|].
  destruct (syncTime_dead_zone m b 1 eq_refl) as (_ & Hnoop & _).
  exact (proj1 (Hnoop Hstill)).
Defined.

(** A tick inside the dead zone is not without effect on the manager: in
    the state reached once the overlay for a video is set up, the next
    frame leaves the stored time alone but replaces the stored frame
    handle. *)
Lemma idle_tick_replaces_frame_handle :
  match @Reactor.run Sample.platform
          [Reactor.Recheck; Reactor.Resume 0; Reactor.Resume 0]
          (Reactor.initial Sample.worldA true true) with
  | Some s =>
      let m := Reactor.manager s in
      let b := Reactor.browser s in
      Overlay.videoElement m = Some 1 /\
      Overlay.timeMoved (Overlay.mediaTime b 1) (Overlay.currentTime m) = false /\
      Overlay.animationFrameId m = Some 1 /\
      Overlay.animationFrameId (fst (Overlay.syncTime (m, b))) = Some 2 /\
      fst (Overlay.syncTime (m, b)) <> m
  | None => False
  end.
Proof.
  vm_compute. repeat split; try reflexivity. discriminate.
Qed.

(** ** Saving a vocabulary item *)

Lemma findIndex_Some {A} (p : A -> bool) (l : list A) (i : nat) :
  Storage.findIndex p l = Some i ->
  exists x, l !! i = Some x /\ p x = true /\
            forall j y, j < i -> l !! j = Some y -> p y = false.
Proof.
  revert i. induction l as [|x l IH]; intros i; simpl; [discriminate|].
  destruct (p x) eqn:E.
  - intros [= <-]. exists x. repeat split; [exact E|]. intros j y Hj. lia.
  - destruct (Storage.findIndex p l) as [k|]; [|discriminate].
    intros [= <-]. destruct (IH k eq_refl) as (y & Hk & Hy & Hbefore).
    exists y. repeat split; [exact Hk|exact Hy|].
    intros [|j] z Hj Hz.
    + injection Hz as <-. exact E.
    + apply (Hbefore j z); [lia|exact Hz].
Qed.

Lemma findIndex_None {A} (p : A -> bool) (l : list A) :
  Storage.findIndex p l = None -> forall x, x ∈ l -> p x = false.
Proof.
  induction l as [|y l IH]; simpl; intros Hf x Hx.
  - inversion Hx.
  - destruct (p y) eqn:E; [discriminate|].
    destruct (Storage.findIndex p l); [discriminate|].
    apply elem_of_cons in Hx as [->|Hx]; [exact E|exact (IH eq_refl x Hx)].
Qed.

(** C9: saving a word that some stored item equals after lower-casing
    replaces the first such item in place (the list keeps its length, the
    other items and the item's id), and saving a word that no stored item
    matches appends one new item, whose id is the current time. *)
Theorem saveVocabularyItem_upsert `{Platform}
  (item : VocabularyDraft) (now : Z) (iso : jsstring) (st : Storage.t) :
  Storage.available st = true ->
  let stored := default [] (Storage.vocabulary st) in
  let matches v := toLowerCase (originalWord v) = toLowerCase (d_originalWord item) in
  exists newItem st' saved,
    Storage.saveVocabularyItem item now iso st = Ok (newItem, st') /\
    Storage.vocabulary st' = Some saved /\
    originalWord newItem = d_originalWord item /\
    ((exists v, v ∈ stored /\ matches v) ->
     exists i v,
       stored !! i = Some v /\ matches v /\
       (forall j u, j < i -> stored !! j = Some u -> ~ matches u) /\
       saved = <[i := newItem]> stored /\
       length saved = length stored /\
       saved !! i = Some newItem /\
       item_id newItem = item_id v /\
       (forall j, j <> i -> saved !! j = stored !! j)) /\
    ((forall v, v ∈ stored -> ~ matches v) ->
     saved = stored ++ [newItem] /\
     length saved = S (length stored) /\
     item_id newItem = now).
Proof.
  intros Hav stored matches.
  unfold Storage.saveVocabularyItem, Storage.getVocabulary, Storage.set_vocabulary.
  rewrite Hav. cbn [catch bind]. fold stored.
  assert (Hsame : forall v, Storage.sameWord item v = true <-> matches v).
  { intros v. unfold Storage.sameWord. apply bool_decide_eq_true. }
  destruct (Storage.findIndex (Storage.sameWord item) stored) as [i|] eqn:Hfind.
  - destruct (findIndex_Some _ _ _ Hfind) as (v & Hi & Hv & Hbefore).
    rewrite Hi.
    eexists _, _, _. split; [reflexivity|]. split; [reflexivity|].
    split; [reflexivity|]. split.
    + intros _. exists i, v.
      split; [exact Hi|]. split; [apply Hsame; exact Hv|].
      split.
      { intros j u Hj Hu Hm. apply Hsame in Hm.
        rewrite (Hbefore j u Hj Hu) in Hm. discriminate. }
      split; [reflexivity|]. split; [apply length_insert|].
      split; [apply list_lookup_insert_eq; eapply lookup_lt_Some; exact Hi|].
      split; [reflexivity|].
      intros j Hj. apply list_lookup_insert_ne. congruence.
    + intros Hno. exfalso. apply (Hno v).
      * eapply list_elem_of_lookup_2. exact Hi.
      * apply Hsame. exact Hv.
  - eexists _, _, _. split; [reflexivity|]. split; [reflexivity|].
    split; [reflexivity|]. split.
    + intros (v & Hin & Hm). apply Hsame in Hm.
      rewrite (findIndex_None _ _ Hfind v Hin) in Hm. discriminate.
    + intros _. split; [reflexivity|]. split; [|reflexivity].
      rewrite length_app. simpl. lia.
Qed.

Lemma saveVocabularyItem_witness :
  let known := {| item_id := 7; originalWord := lit "Hello";
                  item_translation := lit "xin chao"; contextSentence := lit "Hello world";
                  item_videoId := lit "aaa"; videoTitle := None;
                  timestamp := lit "2024-01-01T00:00:00.000Z";
                  item_language := None; mastery := None |} in
  let st := {| Storage.available := true; Storage.vocabulary := Some [known];
               Storage.settings := None; Storage.translationCache := None |} in
  let item := {| d_originalWord := lit "HELLO"; d_translation := lit "chao";
                 d_contextSentence := lit "HELLO there"; d_videoId := lit "bbb";
                 d_videoTitle := None; d_timestamp := lit "";
                 d_language := None; d_mastery := None |} in
  Storage.available st = true /\
  exists newItem st' saved,
    @Storage.saveVocabularyItem Sample.platform item 99 (lit "2024-02-02T00:00:00.000Z") st
    = Ok (newItem, st') /\
    Storage.vocabulary st' = Some saved /\
    length saved = 1 /\ item_id newItem = 7%Z.
Proof.
  intros known st item.
  split; [reflexivity|].
  destruct (@saveVocabularyItem_upsert Sample.platform item 99
              (lit "2024-02-02T00:00:00.000Z") st eq_refl)
    as (newItem & st' & saved & Hsave & Hvoc & _ & Hmatch & _).
  exists newItem, st', saved.
  split; [exact Hsave|]. split; [exact Hvoc|].
  destruct Hmatch as (i & v & Hi & _ & _ & _ & Hlen & _ & Hid & _).
  { exists known. split; [apply list_elem_of_here|reflexivity]. }
  split; [exact Hlen|].
  destruct i as [|i]; [|destruct i; discriminate Hi].
  injection Hi as <-. exact Hid.
Defined.

(** ** Normalising the word to translate *)











(** ** One overlay, reused across videos *)

Lemma overlay_inv_shape mb mb' :
  shape mb = shape mb' -> overlay_inv mb -> overlay_inv mb'.
Proof.
  destruct mb as [m b], mb' as [m' b']. unfold shape, overlay_inv, Overlay.inDocument.
  cbn [fst snd]. intros [= Hc Hp Hpo Hf].
  rewrite <- Hc, <- Hp, <- Hpo, <- Hf. tauto.
Qed.

Lemma render_shape mb : shape (Overlay.render mb) = shape mb.
Proof.
  destruct mb as [m b]. unfold Overlay.render.
  destruct (Overlay.root m); reflexivity.
Qed.

Lemma syncTime_shape mb : shape (Overlay.syncTime mb) = shape mb.
Proof.
  destruct mb as [m b]. unfold Overlay.syncTime, Overlay.render.
  destruct (Overlay.videoElement m) as [v|]; [|reflexivity].
  destruct (Overlay.timeMoved _ _); [|reflexivity].
  cbn [Overlay.root Overlay.set_currentTime].
  destruct (Overlay.root m); reflexivity.
Qed.

Lemma inDocument_spec b c :
  Overlay.inDocument b c = true <->
  exists p, Overlay.parentOf b !! c = Some p /\ Overlay.player b = Some p.
Proof.
  unfold Overlay.inDocument.
  destruct (Overlay.parentOf b !! c) as [p|], (Overlay.player b) as [q|];
    try (split; [discriminate|intros (x & ? & ?); discriminate]).
  rewrite bool_decide_eq_true. split.
  - intros ->. exists q. split; reflexivity.
  - intros (x & [= ->] & [= ->]). reflexivity.
Qed.

Lemma initialize_inv mb :
  overlay_inv mb -> overlay_inv (snd (Overlay.initialize mb)).
Proof.
  destruct mb as [m b]. intros Hinv.
  pose proof Hinv as (Hnodes & Hplayer & Hdoc). cbn [fst snd] in *.
  unfold Overlay.initialize.
  destruct (Overlay.player b) as [p|] eqn:Hp; [|exact Hinv].
  destruct (match Overlay.container m with
            | Some c => Overlay.inDocument b c
            | None => false
            end) eqn:Hin; [exact Hinv|].
  cbn [snd].
  eapply overlay_inv_shape.
  { symmetry. etransitivity; [apply render_shape|].
    instantiate (1 := (Overlay.set_container (Some (Overlay.freshNode b)) m,
                       Overlay.set_dom (Some p) (Overlay.video b)
                         (<[Overlay.freshNode b := p]> (Overlay.parentOf b))
                         (S (Overlay.freshNode b)) b)).
    cbn [Overlay.videoElement Overlay.set_videoElement Overlay.set_root
         Overlay.set_container Overlay.video Overlay.set_dom].
    destruct (Overlay.video b);
      [unfold Overlay.startTimeSync; rewrite syncTime_shape|]; reflexivity. }
  unfold overlay_inv. cbn [fst snd Overlay.set_dom Overlay.set_container
    Overlay.parentOf Overlay.freshNode Overlay.player Overlay.container].
  pose proof (Hplayer p eq_refl) as Hlt.
  split; [|split].
  - intros c q Hq. apply lookup_insert_Some in Hq as [[<- <-]|[_ Hq]]; [lia|].
    apply Hnodes in Hq. lia.
  - intros q [= <-]. lia.
  - intros c Hc. apply inDocument_spec in Hc as (q & Hq & Hpq).
    cbn [Overlay.set_dom Overlay.parentOf Overlay.player] in Hq, Hpq.
    injection Hpq as <-.
    apply lookup_insert_Some in Hq as [[<- _]|[_ Hq]]; [reflexivity|].
    assert (Hold : Overlay.inDocument b c = true)
      by (apply inDocument_spec; exists p; split; assumption).
    rewrite (Hdoc c Hold) in Hin. rewrite Hold in Hin. discriminate.
Qed.

Lemma destroy_inv mb :
  overlay_inv mb -> overlay_inv (Overlay.destroy mb).
Proof.
  destruct mb as [m b]. intros Hinv.
  assert (Hgoal : forall m1 b1,
    shape (m1, b1) = shape (m, b) -> overlay_inv
      match Overlay.container m1 with
      | Some c =>
          match Overlay.parentOf b1 !! c with
          | Some _ =>
              (Overlay.set_container None m1,
               Overlay.set_dom (Overlay.player b1) (Overlay.video b1)
                 (delete c (Overlay.parentOf b1)) (Overlay.freshNode b1) b1)
          | None => (m1, b1)
          end
      | None => (m1, b1)
      end).
  { intros m1 b1 Hs.
    assert (Hinv1 : overlay_inv (m1, b1)).
    { eapply overlay_inv_shape; [symmetry; exact Hs|exact Hinv]. }
    destruct (Overlay.container m1) as [c|] eqn:Hc; [|exact Hinv1].
    destruct (Overlay.parentOf b1 !! c) as [q|] eqn:Hq; [|exact Hinv1].
    destruct Hinv1 as (Hn1 & Hp1 & Hd1).
    unfold overlay_inv. cbn [fst snd Overlay.set_dom Overlay.set_container
      Overlay.parentOf Overlay.freshNode Overlay.player Overlay.container] in *.
    split; [|split].
    - intros c' p' Hl. apply lookup_delete_Some in Hl as [_ Hl]. exact (Hn1 _ _ Hl).
    - exact Hp1.
    - intros c' Hc'. apply inDocument_spec in Hc' as (p' & Hl & Hpl).
      cbn [Overlay.set_dom Overlay.parentOf Overlay.player] in Hl, Hpl.
      apply lookup_delete_Some in Hl as [Hne Hl].
      assert (Hold : Overlay.inDocument b1 c' = true)
        by (apply inDocument_spec; exists p'; split; assumption).
      apply Hd1 in Hold. rewrite Hc in Hold. congruence. }
  unfold Overlay.destroy.
  set (b1 := match Overlay.animationFrameId m with
             | Some (S h) => _
             | _ => b
             end).
  assert (Hb1 : shape (m, b1) = shape (m, b)).
  { subst b1. repeat case_match; reflexivity. }
  destruct (Overlay.root m) as [r|]; apply Hgoal; exact Hb1.
Qed.

Lemma destroy_detaches mb c :
  Overlay.container (fst (Overlay.destroy mb)) = Some c ->
  Overlay.parentOf (snd (Overlay.destroy mb)) !! c = None.
Proof.
  destruct mb as [m b]. unfold Overlay.destroy.
  set (b1 := match Overlay.animationFrameId m with
             | Some (S h) => _
             | _ => b
             end).
  assert (Hb1 : Overlay.parentOf b1 = Overlay.parentOf b)
    by (subst b1; repeat case_match; reflexivity).
  destruct (Overlay.root m) as [r|];
    cbn [Overlay.container Overlay.set_root Overlay.parentOf Overlay.set_log];
    destruct (Overlay.container m) as [c'|] eqn:Hc;
    try destruct (Overlay.parentOf b1 !! c') as [q|] eqn:Hq;
    cbn [fst snd Overlay.container Overlay.set_root Overlay.set_container
         Overlay.parentOf Overlay.set_log Overlay.set_dom];
    try discriminate; try (rewrite Hc; intros [= <-]; exact Hq);
    rewrite Hc; discriminate.
Qed.

Lemma destroy_cancels_frame m b h :
  Overlay.animationFrameId m = Some (S h) ->
  S h ∉ Overlay.frames (snd (Overlay.destroy (m, b))).
Proof.
  intros Hh. unfold Overlay.destroy. rewrite Hh.
  assert (Hf : S h ∉ List.filter (fun f => negb (f =? S h)) (Overlay.frames b)).
  { intros Hin. apply list_elem_of_In, filter_In in Hin as [_ Hin].
    rewrite Nat.eqb_refl in Hin. discriminate. }
  destruct (Overlay.root m) as [r|];
    cbn [Overlay.container Overlay.set_root];
    destruct (Overlay.container m) as [c|];
    cbn [Overlay.parentOf Overlay.set_log Overlay.set_frames];
    try destruct (Overlay.parentOf b !! c);
    exact Hf.
Qed.

Lemma at_most_one_overlay mb :
  overlay_inv mb -> length (Overlay.overlaysInDocument (snd mb)) <= 1.
Proof.
  destruct mb as [m b]. intros (_ & _ & Hdoc). cbn [fst snd] in *.
  assert (Hnd : NoDup (Overlay.overlaysInDocument b)).
  { unfold Overlay.overlaysInDocument.
    apply NoDup_ListNoDup, List.NoDup_filter, NoDup_ListNoDup,
      NoDup_fst_map_to_list. }
  assert (Hall : forall x, x ∈ Overlay.overlaysInDocument b ->
                           Overlay.container m = Some x).
  { intros x Hx. apply list_elem_of_In, filter_In in Hx as [_ Hx].
    exact (Hdoc x Hx). }
  destruct (Overlay.overlaysInDocument b) as [|x [|y l]]; simpl; try lia.
  exfalso.
  pose proof (Hall x (list_elem_of_here _ _)) as Hx.
  pose proof (Hall y (list_elem_of_further _ _ _ (list_elem_of_here _ _))) as Hy.
  rewrite Hx in Hy. injection Hy as <-.
  apply NoDup_cons in Hnd as [Hnotin _]. apply Hnotin, list_elem_of_here.
Qed.

(** Run without interruption, the two halves of the awaited call are
    [extractSubtitles] itself. *)
Lemma extractSubtitles_in_two_steps `{Platform} s :
  let vid := SubtitleExtractor.getVideoId (page (Reactor.world s)) in
  let outcome := SubtitleExtractor.extractSubtitles_try (Reactor.world s) None vid in
  let '(value, s') :=
    Reactor.extractSubtitles_resume outcome (Reactor.initializeForVideo s) in
  (value, Reactor.extractor s')
  = SubtitleExtractor.extractSubtitles (Reactor.world s) None (Reactor.extractor s).
Proof.
  unfold SubtitleExtractor.extractSubtitles, Reactor.extractSubtitles_resume,
    Reactor.initializeForVideo.
  destruct (SubtitleExtractor.extractSubtitles_try _ _ _); reflexivity.
Qed.

Lemma overlay_set_overlay mb s :
  Reactor.overlay (Reactor.set_overlay mb s) = mb.
Proof. destruct mb; reflexivity. Qed.

Section Session.
Context `{Platform}.

Lemma cleanup_inv s :
  overlay_inv (Reactor.overlay s) -> overlay_inv (Reactor.overlay (Reactor.cleanup s)).
Proof.
  intros Hinv. unfold Reactor.cleanup.
  rewrite overlay_set_overlay. apply destroy_inv. exact Hinv.
Qed.

Lemma checkAndInitialize_inv s :
  overlay_inv (Reactor.overlay s) ->
  overlay_inv (Reactor.overlay (Reactor.checkAndInitialize s)).
Proof.
  intros Hinv. unfold Reactor.checkAndInitialize.
  destruct (negb _); [apply cleanup_inv; exact Hinv|].
  destruct (_ && _); exact Hinv.
Qed.

Lemma initializeForVideo_resume_inv outcome s :
  overlay_inv (Reactor.overlay s) ->
  overlay_inv (Reactor.overlay (Reactor.initializeForVideo_resume outcome s)).
Proof.
  intros Hinv. unfold Reactor.initializeForVideo_resume.
  assert (H1 : Reactor.overlay (snd (Reactor.extractSubtitles_resume outcome s))
               = Reactor.overlay s)
    by (destruct outcome; reflexivity).
  destruct (Reactor.extractSubtitles_resume outcome s) as [subs s1]. cbn [snd] in H1.
  destruct subs as [|seg segs]; [rewrite H1; exact Hinv|].
  pose proof (initialize_inv (Reactor.overlay s1)) as Hinit.
  rewrite H1 in Hinit at 1. specialize (Hinit Hinv).
  destruct (Overlay.initialize (Reactor.overlay s1)) as [ok [m b]].
  cbn [snd] in Hinit.
  destruct ok; cbn [negb]; [|exact Hinit].
  unfold Overlay.setSubtitles.
  destruct (Overlay.render _) as [m3 b3] eqn:Hr.
  eapply overlay_inv_shape; [|exact Hinit].
  pose proof (render_shape (Overlay.set_segments (seg :: segs)
                (fst (Reactor.overlay (Reactor.set_overlay (m, b) s1))),
              snd (Reactor.overlay (Reactor.set_overlay (m, b) s1)))) as Hs.
  rewrite Hr in Hs. symmetry. exact Hs.
Qed.

Lemma step_inv e s s' :
  Reactor.step e s = Some s' ->
  overlay_inv (Reactor.overlay s) -> overlay_inv (Reactor.overlay s').
Proof.
  intros Hstep Hinv.
  pose proof Hinv as (Hnodes & Hplayer & Hdoc).
  unfold Reactor.overlay in Hnodes, Hplayer, Hdoc. cbn [fst snd] in *.
  destruct e; unfold Reactor.step in Hstep.
  - (* Navigate *) apply (inj Some) in Hstep; subst s'. exact Hinv.
  - (* PlayerRebuilt *) apply (inj Some) in Hstep; subst s'.
    unfold overlay_inv, Reactor.overlay. cbn.
    split; [|split].
    + intros c p Hp. apply Hnodes in Hp. lia.
    + intros p [= <-]. lia.
    + intros c Hc. apply inDocument_spec in Hc as (p & Hp & [= <-]).
      cbn in Hp. apply Hnodes in Hp. lia.
  - (* PlayerRemoved *) apply (inj Some) in Hstep; subst s'.
    unfold overlay_inv, Reactor.overlay. cbn.
    split; [exact Hnodes|]. split; [discriminate|].
    intros c Hc. apply inDocument_spec in Hc as (p & _ & Hp). discriminate.
  - (* VideoRebuilt *) apply (inj Some) in Hstep; subst s'.
    unfold overlay_inv, Reactor.overlay. cbn.
    split; [|split].
    + intros c p Hp. apply Hnodes in Hp. lia.
    + intros p Hp. apply Hplayer in Hp. lia.
    + exact Hdoc.
  - (* VideoRemoved *) apply (inj Some) in Hstep; subst s'. exact Hinv.
  - (* Playback *) apply (inj Some) in Hstep; subst s'. exact Hinv.
  - (* Recheck *) apply (inj Some) in Hstep; subst s'. apply checkAndInitialize_inv, Hinv.
  - (* Resume *)
    destruct (Reactor.pending s !! i) as [[|outcome]|]; [| |discriminate].
    + destruct (Reactor.playerReady _); [|discriminate].
      apply (inj Some) in Hstep; subst s'. exact Hinv.
    + apply (inj Some) in Hstep; subst s'. apply initializeForVideo_resume_inv. exact Hinv.
  - (* Frame *)
    destruct (existsb _ _); [|discriminate]. apply (inj Some) in Hstep; subst s'.
    rewrite overlay_set_overlay.
    apply (overlay_inv_shape (Reactor.overlay s)); [|exact Hinv].
    symmetry. etransitivity; [apply syncTime_shape|reflexivity].
  - (* Toggle *) apply (inj Some) in Hstep; subst s'.
    rewrite overlay_set_overlay.
    apply (overlay_inv_shape (Reactor.overlay s)); [|exact Hinv].
    symmetry. etransitivity; [apply render_shape|reflexivity].
  - (* Hover *) apply (inj Some) in Hstep; subst s'.
    rewrite overlay_set_overlay.
    apply (overlay_inv_shape (Reactor.overlay s)); [|exact Hinv].
    symmetry. etransitivity; [apply render_shape|reflexivity].
  - (* Leave *) apply (inj Some) in Hstep; subst s'.
    rewrite overlay_set_overlay.
    apply (overlay_inv_shape (Reactor.overlay s)); [|exact Hinv].
    symmetry. etransitivity; [apply render_shape|reflexivity].
  - (* TranslationArrived *) apply (inj Some) in Hstep; subst s'.
    rewrite overlay_set_overlay.
    apply (overlay_inv_shape (Reactor.overlay s)); [|exact Hinv].
    symmetry. etransitivity; [apply render_shape|reflexivity].
Qed.

Lemma reachable_inv s : Reactor.reachable s -> overlay_inv (Reactor.overlay s).
Proof.
  induction 1 as [w hp hv|s e s' _ IH Hstep].
  - unfold overlay_inv, Reactor.overlay. cbn.
    split; [|split].
    + intros c p Hp. rewrite lookup_empty in Hp. discriminate.
    + destruct hp; [intros p [= <-]; lia|discriminate].
    + intros c Hc. apply inDocument_spec in Hc as (p & Hp & _).
      cbn in Hp. rewrite lookup_empty in Hp. discriminate.
  - exact (step_inv _ _ _ Hstep IH).
Qed.

End Session.

Lemma initialize_reuse m b c :
  Overlay.container m = Some c -> Overlay.inDocument b c = true ->
  Overlay.initialize (m, b) = (true, (m, b)).
Proof.
  intros Hc Hin. unfold Overlay.initialize.
  pose proof Hin as Hin'. apply inDocument_spec in Hin' as (p & _ & Hp).
  rewrite Hp, Hc, Hin. reflexivity.
Qed.

(** Teardown does not precede the next acquisition: after the id has
    changed from [aaa] to [bbb] and [checkAndInitialize] has run, the
    acquisition for [bbb] is under way while the overlay made for [aaa] is
    still in the document, mounted, holding the segments of [aaa], with its
    animation frame pending and nothing unmounted. *)
Lemma old_overlay_survives_id_change :
  match @Reactor.run Sample.platform
          [Reactor.Recheck; Reactor.Resume 0; Reactor.Resume 0;
           Reactor.Navigate Sample.pageB; Reactor.Recheck]
          (Reactor.initial Sample.worldA true true) with
  | Some s =>
      Reactor.currentVideoId (Reactor.reactor s) = Some (lit "bbb") /\
      Reactor.pending s = [Reactor.AwaitPlayer] /\
      Overlay.overlaysInDocument (Reactor.browser s) = [2] /\
      Overlay.container (Reactor.manager s) = Some 2 /\
      Overlay.root (Reactor.manager s) = Some 2 /\
      Overlay.segments (Reactor.manager s) = [Sample.helloSegment] /\
      Overlay.animationFrameId (Reactor.manager s) = Some 1 /\
      Overlay.frames (Reactor.browser s) = [1] /\
      Forall (fun call => snd call <> None) (Overlay.log (Reactor.browser s))
  | None => False
  end.
Proof.
  vm_compute. repeat split; try reflexivity.
  repeat constructor; discriminate.
Qed.

(** C2 as the code has it: when the id on a watch page differs from the
    current one (or nothing is initialised), [checkAndInitialize] records
    the new id and starts waiting for the player, and touches neither
    overlay nor page (no run of [checkAndInitialize] on a watch page
    does); when the acquisition then yields segments and the overlay's
    container is still in the document, that overlay is kept and its
    segment list is replaced by the new one.  The overlay is destroyed
    (container out of the document, root unmounted, pending frame
    cancelled) when the page is not a watch page.  In every reachable state
    at most one overlay container is in the document. *)
Theorem overlay_reused_on_id_change `{Platform} :
  (forall s B,
      SubtitleExtractor.isVideoPage (page (Reactor.world s)) = true ->
      SubtitleExtractor.getVideoId (page (Reactor.world s)) = Some B ->
      Reactor.currentVideoId (Reactor.reactor s) <> Some B \/
      Reactor.isInitialized (Reactor.reactor s) = false ->
      let s' := Reactor.checkAndInitialize s in
      Reactor.manager s' = Reactor.manager s /\
      Reactor.browser s' = Reactor.browser s /\
      Reactor.extractor s' = Reactor.extractor s /\
      Reactor.currentVideoId (Reactor.reactor s') = Some B /\
      Reactor.pending s' = Reactor.pending s ++ [Reactor.AwaitPlayer]) /\
  (forall s,
      SubtitleExtractor.isVideoPage (page (Reactor.world s)) = true ->
      Reactor.manager (Reactor.checkAndInitialize s) = Reactor.manager s /\
      Reactor.browser (Reactor.checkAndInitialize s) = Reactor.browser s) /\
  (forall s c seg segs,
      Overlay.container (Reactor.manager s) = Some c ->
      Overlay.inDocument (Reactor.browser s) c = true ->
      let s' := Reactor.initializeForVideo_resume (Ok (seg :: segs)) s in
      Overlay.segments (Reactor.manager s') = seg :: segs /\
      Overlay.container (Reactor.manager s') = Some c /\
      Overlay.root (Reactor.manager s') = Overlay.root (Reactor.manager s) /\
      Overlay.animationFrameId (Reactor.manager s')
      = Overlay.animationFrameId (Reactor.manager s) /\
      Overlay.overlaysInDocument (Reactor.browser s')
      = Overlay.overlaysInDocument (Reactor.browser s) /\
      Overlay.frames (Reactor.browser s') = Overlay.frames (Reactor.browser s) /\
      Reactor.isInitialized (Reactor.reactor s') = true) /\
  (forall s,
      Reactor.reachable s ->
      SubtitleExtractor.isVideoPage (page (Reactor.world s)) = false ->
      let s' := Reactor.checkAndInitialize s in
      Overlay.overlaysInDocument (Reactor.browser s') = [] /\
      Overlay.root (Reactor.manager s') = None /\
      Reactor.isInitialized (Reactor.reactor s') = false /\
      (forall h, Overlay.animationFrameId (Reactor.manager s) = Some (S h) ->
                 S h ∉ Overlay.frames (Reactor.browser s'))) /\
  (forall s,
      Reactor.reachable s ->
      length (Overlay.overlaysInDocument (Reactor.browser s)) <= 1).
Proof.
  split; [|split; [|split; [|split]]].
  - intros s B Hpage Hid Hnew. cbn zeta.
    unfold Reactor.checkAndInitialize. rewrite Hpage, Hid. cbn [negb].
    assert (Hcond : bool_decide (Some B = Reactor.currentVideoId (Reactor.reactor s))
                    && Reactor.isInitialized (Reactor.reactor s) = false).
    { destruct Hnew as [Hne|Hni]; [|rewrite Hni; apply andb_false_r].
      rewrite bool_decide_eq_false_2; [reflexivity|congruence]. }
    rewrite Hcond. repeat split.
  - intros s Hpage. unfold Reactor.checkAndInitialize. rewrite Hpage. cbn [negb].
    destruct (_ && _); split; reflexivity.
  - intros s c seg segs Hc Hin. cbn zeta.
    unfold Reactor.initializeForVideo_resume, Reactor.extractSubtitles_resume.
    change (Reactor.overlay (Reactor.set_extractor _ s))
      with (Reactor.manager s, Reactor.browser s).
    rewrite (initialize_reuse _ _ c Hc Hin).
    unfold Overlay.setSubtitles, Overlay.render, Reactor.overlay.
    cbn [negb fst snd Reactor.manager Reactor.browser Reactor.set_overlay
         Reactor.set_extractor Overlay.root Overlay.set_segments].
    destruct (Overlay.root (Reactor.manager s)) as [r|] eqn:Hr;
      cbn [negb fst snd Reactor.manager Reactor.browser Reactor.set_overlay
           Reactor.set_reactor Reactor.reactor Reactor.isInitialized
           Overlay.setOnWordSave Overlay.setOnTranslationRequest
           Overlay.set_onWordSave Overlay.set_onTranslationRequest
           Overlay.set_segments Overlay.set_log
           Overlay.segments Overlay.container Overlay.root
           Overlay.animationFrameId Overlay.frames];
      repeat split; first [exact Hc | exact Hr].
  - intros s Hreach Hpage. cbn zeta.
    unfold Reactor.checkAndInitialize. rewrite Hpage. cbn [negb].
    pose proof (cleanup_inv s (reachable_inv s Hreach)) as Hinv.
    unfold Reactor.cleanup in *. rewrite overlay_set_overlay in Hinv.
    set (s1 := Reactor.set_reactor _ s) in *.
    change (Reactor.overlay s1) with (Reactor.manager s, Reactor.browser s) in *.
    pose proof (destroy_detaches (Reactor.manager s, Reactor.browser s)) as Hdet.
    pose proof (destroy_cancels_frame (Reactor.manager s) (Reactor.browser s)) as Hcancel.
    destruct (Overlay.destroy (Reactor.manager s, Reactor.browser s)) as [m' b'] eqn:Hd.
    cbn [fst snd Reactor.manager Reactor.browser Reactor.set_overlay
         Reactor.reactor Reactor.isInitialized] in *.
    split; [|split; [|split]].
    + destruct Hinv as (_ & _ & Hdoc). cbn [fst snd] in Hdoc.
      destruct (Overlay.overlaysInDocument b') as [|x l] eqn:Hl; [reflexivity|].
      exfalso.
      assert (Hx : Overlay.inDocument b' x = true).
      { assert (Hin : x ∈ Overlay.overlaysInDocument b')
          by (rewrite Hl; apply list_elem_of_here).
        apply list_elem_of_In, filter_In in Hin. exact (proj2 Hin). }
      pose proof (Hdet x (Hdoc x Hx)) as Hnone.
      apply inDocument_spec in Hx as (q & Hq & _). congruence.
    + unfold Overlay.destroy in Hd.
      destruct (Overlay.root (Reactor.manager s)) as [r|] eqn:Hr;
        cbn [Overlay.container Overlay.set_root] in Hd;
        repeat case_match; injection Hd as <- <-; cbn; try reflexivity;
        exact Hr.
    + reflexivity.
    + exact Hcancel.
  - intros s Hreach.
    exact (at_most_one_overlay _ (reachable_inv s Hreach)).
Qed.

Lemma overlay_reused_witness :
  let s := sessionThenNavigation in
  SubtitleExtractor.isVideoPage (page (Reactor.world s)) = true /\
  SubtitleExtractor.getVideoId (page (Reactor.world s)) = Some (lit "bbb") /\
  Reactor.currentVideoId (Reactor.reactor s) <> Some (lit "bbb") /\
  Reactor.manager (Reactor.checkAndInitialize s) = Reactor.manager s /\
  Reactor.browser (Reactor.checkAndInitialize s) = Reactor.browser s /\
  Reactor.pending (Reactor.checkAndInitialize s)
  = Reactor.pending s ++ [Reactor.AwaitPlayer].
Proof.
  intros s.
  assert (Hpage : SubtitleExtractor.isVideoPage (page (Reactor.world s)) = true)
    by (vm_compute; reflexivity).
  assert (Hid : SubtitleExtractor.getVideoId (page (Reactor.world s))
                = Some (lit "bbb")) by (vm_compute; reflexivity).
  assert (Hne : Reactor.currentVideoId (Reactor.reactor s) <> Some (lit "bbb"))
    by (vm_compute; discriminate).
  split; [exact Hpage|]. split; [exact Hid|]. split; [exact Hne|].
  destruct (proj1 (@overlay_reused_on_id_change Sample.platform)
              s (lit "bbb") Hpage Hid (or_introl Hne))
    as (Hm & Hb & _ & _ & Hp).
  split; [exact Hm|]. split; [exact Hb|exact Hp].
Defined.

(* ===================================================================== *)
(** * Further properties of the code *)
(* ===================================================================== *)

(** ** Choosing a caption track *)

Lemma selectTrack_listed (language : option jsstring) (first : CaptionTrack)
  (rest : list CaptionTrack) :
  SubtitleExtractor.selectTrack language first rest ∈ first :: rest.
Proof.
  unfold SubtitleExtractor.selectTrack.
  destruct language as [[|c l]|]; cbn [truthy]; try apply list_elem_of_here.
  destruct (List.find _ _) as [t|] eqn:E; [|apply list_elem_of_here].
  apply find_some_split in E as (pre & post & -> & _ & _).
  apply elem_of_app. right. apply list_elem_of_here.
Qed.

(** X1: the track [extractSubtitles] fetches is one of the listed tracks;
    when a non-empty language is asked for and some track has it, it is the
    first track with that language code; in every other case it is the
    first track listed. *)
Theorem selectTrack_prefers_language
  (language : option jsstring) (first : CaptionTrack) (rest : list CaptionTrack) :
  let tracks := first :: rest in
  let chosen := SubtitleExtractor.selectTrack language first rest in
  chosen ∈ tracks /\
  (forall l,
      language = Some l -> l <> [] ->
      (exists t, t ∈ tracks /\ languageCode t = l) ->
      languageCode chosen = l /\
      exists pre post,
        tracks = pre ++ chosen :: post /\
        Forall (fun t => languageCode t <> l) pre) /\
  (language = None \/ language = Some [] \/
   (exists l, language = Some l /\ Forall (fun t => languageCode t <> l) tracks) ->
   chosen = first).
Proof.
  intros tracks chosen. subst tracks chosen.
  unfold SubtitleExtractor.selectTrack.
  split; [|split].
  - destruct language as [[|c l]|]; cbn [truthy]; try apply list_elem_of_here.
    destruct (List.find _ _) as [t|] eqn:E; [|apply list_elem_of_here].
    apply find_some_split in E as (pre & post & -> & _ & _).
    apply elem_of_app. right. apply list_elem_of_here.
  - intros l -> Hl (t & Ht & Hcode).
    destruct l as [|c l]; [congruence|]. cbn [truthy].
    destruct (List.find _ _) as [t'|] eqn:E.
    + apply find_some_split in E as (pre & post & Heq & Hm & Hpre).
      apply bool_decide_eq_true in Hm. split; [exact Hm|].
      exists pre, post. split; [exact Heq|].
      eapply Forall_impl; [exact Hpre|].
      intros x Hx. apply bool_decide_eq_false in Hx. exact Hx.
    + exfalso. apply find_none_all in E. rewrite Forall_forall in E.
      specialize (E t Ht). apply bool_decide_eq_false in E. congruence.
  - intros [->|[->|(l & -> & Hnone)]]; try reflexivity.
    destruct l as [|c l]; [reflexivity|]. cbn [truthy].
    destruct (List.find _ _) as [t'|] eqn:E; [|reflexivity].
    apply find_some_split in E as (pre & post & Heq & Hm & _).
    apply bool_decide_eq_true in Hm. exfalso.
    rewrite Forall_forall in Hnone. apply (Hnone t'); [|exact Hm].
    rewrite Heq. apply elem_of_app. right. apply list_elem_of_here.
Qed.

Lemma selectTrack_witness :
  let en := Sample.track "https://t/en" in
  let fr := {| baseUrl := lit "https://t/fr"; languageCode := lit "fr";
               track_name := None; vssId := None |} in
  (exists t, t ∈ [en; fr] /\ languageCode t = lit "fr") /\
  languageCode (SubtitleExtractor.selectTrack (Some (lit "fr")) en [fr]) = lit "fr".
Proof.
  intros en fr.
  assert (Hex : exists t, t ∈ [en; fr] /\ languageCode t = lit "fr").
  { exists fr. split; [|reflexivity].
    apply list_elem_of_further, list_elem_of_here. }
  split; [exact Hex|].
  destruct (selectTrack_prefers_language (Some (lit "fr")) en [fr])
    as (_ & Hlang & _).
  refine (proj1 (Hlang (lit "fr") eq_refl _ Hex)). discriminate.
Defined.

(** X2: [getAvailableLanguages] lists the language codes of the tracks of
    the response found inside the page, in their order, and nothing when
    the page yields no response or no track list; whenever
    [extractSubtitles] works from the page alone (no fetch of the watch
    page), the language of the track it picks is among them. *)
Theorem getAvailableLanguages_of_page `{Platform}
  (w : World) (videoId : jsstring) (language : option jsstring) :
  let inPage := snd (SubtitleExtractor.getPlayerResponse (page w)) in
  let languages := SubtitleExtractor.getAvailableLanguages (page w) in
  (inPage = None -> languages = []) /\
  (forall r, inPage = Some r -> SubtitleExtractor.getCaptionTracks r = None ->
             languages = []) /\
  (forall r ts, inPage = Some r -> SubtitleExtractor.getCaptionTracks r = Some ts ->
                languages = map languageCode ts) /\
  (forall r t ts,
      SubtitleExtractor.BackgroundFetch
        ∉ fst (SubtitleExtractor.locatePlayerResponse w videoId) ->
      snd (SubtitleExtractor.locatePlayerResponse w videoId) = Some r ->
      SubtitleExtractor.getCaptionTracks r = Some (t :: ts) ->
      languageCode (SubtitleExtractor.selectTrack language t ts) ∈ languages).
Proof.
  intros inPage languages. subst inPage languages.
  unfold SubtitleExtractor.getAvailableLanguages.
  split; [intros ->; reflexivity|].
  split; [intros r -> ->; reflexivity|].
  split; [intros r ts -> ->; reflexivity|].
  intros r t ts Hnofetch Hloc Htracks.
  unfold SubtitleExtractor.locatePlayerResponse in Hnofetch, Hloc.
  destruct (SubtitleExtractor.getPlayerResponse (page w)) as [tried [r0|]];
    cbn [fst snd] in *.
  - destruct (SubtitleExtractor.hasCaptions r0); cbn [fst snd] in *.
    + injection Hloc as ->. rewrite Htracks.
      apply list_elem_of_In, in_map, list_elem_of_In.
      apply selectTrack_listed.
    + exfalso. apply Hnofetch, elem_of_app. right. apply list_elem_of_here.
  - exfalso. apply Hnofetch, elem_of_app. right. apply list_elem_of_here.
Qed.

Lemma getAvailableLanguages_witness :
  let w := {| page := Sample.pageA; fetch := fun _ => NetworkError |} in
  (SubtitleExtractor.BackgroundFetch
     ∉ fst (@SubtitleExtractor.locatePlayerResponse Sample.platform w (lit "aaa"))) /\
  lit "en" ∈ @SubtitleExtractor.getAvailableLanguages Sample.platform (page w).
Proof.
  intros w.
  assert (Hno : SubtitleExtractor.BackgroundFetch
                ∉ fst (@SubtitleExtractor.locatePlayerResponse
                         Sample.platform w (lit "aaa"))).
  { vm_compute. intros Hin. inversion Hin as [|? ? ? Hin']. inversion Hin'. }
  split; [exact Hno|].
  destruct (@getAvailableLanguages_of_page Sample.platform w (lit "aaa") None)
    as (_ & _ & _ & Hpick).
  exact (Hpick (Sample.withTracks [Sample.track "https://t/a"])
               (Sample.track "https://t/a") [] Hno eq_refl eq_refl).
Defined.

(** ** Words and their ids *)

Lemma substring_length text i j :
  i <= j -> j <= length text -> length (substring text i j) = j - i.
Proof.
  intros Hij Hj. unfold substring. rewrite length_take, length_drop. lia.
Qed.

Lemma all_white_no_words text segmentId :
  splitIntoWords text segmentId = [] <->
  Forall (fun c => isWhiteSpace c = true) text.
Proof.
  destruct (splitIntoWords_facts text segmentId) as [Hc Hb _ _].
  rewrite drop_0 in Hc. split.
  - intros Hnil. rewrite Hnil in Hc. simpl in Hc.
    apply Forall_forall. intros c Hin.
    destruct (isWhiteSpace c) eqn:E; [reflexivity|exfalso].
    assert (Hf : c ∈ List.filter isNonWhiteSpace text).
    { apply list_elem_of_In, filter_In. split; [apply list_elem_of_In, Hin|].
      unfold isNonWhiteSpace. rewrite E. reflexivity. }
    rewrite <- Hc in Hf. inversion Hf.
  - intros Hall.
    destruct (splitIntoWords text segmentId) as [|w ws]; [reflexivity|exfalso].
    rewrite filter_none in Hc.
    2:{ eapply Forall_impl; [exact Hall|]. intros c Hc'.
        unfold isNonWhiteSpace. rewrite Hc'. reflexivity. }
    apply Forall_cons in Hb as [(_ & Hlt & Hlen) _].
    simpl in Hc. apply app_eq_nil in Hc as [Hw _].
    apply (f_equal length) in Hw. unfold wordSubstring in Hw.
    rewrite substring_length in Hw by lia. simpl in Hw. lia.
Qed.

(** X3: a text node whose decoded text is empty or all white space still
    becomes a segment, with no words; any other text gives at least one
    word. *)
Theorem whitespace_only_segment_has_no_words `{Platform}
  (xml : jsstring) (i : nat) (element : XmlNode) :
  querySelectorAll (lit "text") (parseFromString xml) !! i = Some element ->
  exists seg,
    SubtitleExtractor.parseXml xml !! i = Some seg /\
    seg_text seg = SubtitleExtractor.decodeHtmlEntities (textContent element) /\
    (words seg = [] <-> Forall (fun c => isWhiteSpace c = true) (seg_text seg)).
Proof.
  intros Hi. exists (SubtitleExtractor.parseElement i element).
  split.
  - unfold SubtitleExtractor.parseXml. rewrite list_lookup_imap, Hi. reflexivity.
  - split; [reflexivity|]. apply all_white_no_words.
Qed.

Lemma whitespace_only_segment_witness :
  let xml := lit "<t><text start='1'>a</text><text start='2'>   </text></t>" in
  exists seg,
    @SubtitleExtractor.parseXml Sample.platform xml !! 1 = Some seg /\
    seg_text seg = lit "   " /\ words seg = [].
Proof.
  intros xml.
  destruct (@whitespace_only_segment_has_no_words Sample.platform xml 1
              (XElement (lit "text") [(lit "start", lit "2")] [XText (lit "   ")]))
    as (seg & Hseg & Htext & Hwords).
  { vm_compute. reflexivity. }
  exists seg. split; [exact Hseg|]. split; [exact Htext|].
  apply Hwords. rewrite Htext. vm_compute. repeat constructor.
Defined.

Lemma lit_inj a b : lit a = lit b -> a = b.
Proof.
  unfold lit. intros Heq.
  rewrite <- (string_of_list_ascii_of_string a), <- (string_of_list_ascii_of_string b).
  f_equal.
  revert Heq. generalize (list_ascii_of_string a) (list_ascii_of_string b).
  induction l as [|x l IH]; intros [|y l']; simpl; try discriminate; [reflexivity|].
  intros [= Hxy Hl]. f_equal; [|exact (IH _ Hl)].
  rewrite <- (ascii_N_embedding x), <- (ascii_N_embedding y), Hxy. reflexivity.
Qed.

Lemma ofNat_inj n m : ofNat n = ofNat m -> n = m.
Proof.
  unfold ofNat. intros Heq. apply lit_inj in Heq.
  apply (f_equal NilEmpty.uint_of_string) in Heq.
  rewrite !NilEmpty.usu in Heq. injection Heq as Heq.
  apply (f_equal Nat.of_uint) in Heq.
  rewrite !DecimalNat.Unsigned.of_to in Heq. exact Heq.
Qed.

Lemma exec_loop_ids text segmentId lastIndex wordIndex i w :
  exec_loop text segmentId lastIndex wordIndex !! i = Some w ->
  word_id w = segmentId ++ lit "-word-" ++ ofNat (wordIndex + i).
Proof.
  revert i.
  funelim (exec_loop text segmentId lastIndex wordIndex); clear Heqcall;
    intros i Hi.
  - destruct i as [|i].
    + injection Hi as <-. rewrite Nat.add_0_r. reflexivity.
    + simpl in Hi. rewrite (H _ _ Hi). do 3 f_equal. lia.
  - rewrite lookup_nil in Hi. discriminate.
Qed.

(** X4: the segments of one caption file have pairwise distinct ids, and
    within a segment the word at position [i] has the id
    [<segment id>-word-<i>], so the words of a segment have pairwise
    distinct ids too. *)
Theorem segment_and_word_ids_distinct `{Platform} (xml : jsstring) :
  let segs := SubtitleExtractor.parseXml xml in
  (forall i j s1 s2,
      segs !! i = Some s1 -> segs !! j = Some s2 -> seg_id s1 = seg_id s2 -> i = j) /\
  (forall seg, seg ∈ segs ->
     (forall i w, words seg !! i = Some w ->
                  word_id w = seg_id seg ++ lit "-word-" ++ ofNat i) /\
     (forall i j w1 w2,
         words seg !! i = Some w1 -> words seg !! j = Some w2 ->
         word_id w1 = word_id w2 -> i = j)).
Proof.
  intros segs. subst segs. split.
  - unfold SubtitleExtractor.parseXml. intros i j s1 s2 Hi Hj Heq.
    rewrite list_lookup_imap in Hi, Hj.
    destruct (querySelectorAll _ _ !! i) as [e1|]; [|discriminate].
    destruct (querySelectorAll _ _ !! j) as [e2|]; [|discriminate].
    injection Hi as <-. injection Hj as <-. simpl in Heq.
    unfold SubtitleExtractor.segmentId in Heq.
    apply app_inv_head in Heq. exact (ofNat_inj _ _ Heq).
  - intros seg Hin. rewrite (parseXml_words _ _ Hin).
    assert (Hid : forall i w,
      splitIntoWords (seg_text seg) (seg_id seg) !! i = Some w ->
      word_id w = seg_id seg ++ lit "-word-" ++ ofNat i).
    { intros i w Hi. exact (exec_loop_ids _ _ _ _ _ _ Hi). }
    split; [exact Hid|].
    intros i j w1 w2 Hi Hj Heq.
    rewrite (Hid _ _ Hi), (Hid _ _ Hj) in Heq.
    apply app_inv_head, app_inv_head in Heq. exact (ofNat_inj _ _ Heq).
Qed.

Lemma segment_and_word_ids_witness :
  Sample.helloSegment ∈ @SubtitleExtractor.parseXml Sample.platform Sample.helloXml /\
  forall i w, words Sample.helloSegment !! i = Some w ->
              word_id w = seg_id Sample.helloSegment ++ lit "-word-" ++ ofNat i.
Proof.
  assert (Hin : Sample.helloSegment
                ∈ @SubtitleExtractor.parseXml Sample.platform Sample.helloXml)
    by (vm_compute; apply list_elem_of_here).
  split; [exact Hin|].
  exact (proj1 (proj2 (@segment_and_word_ids_distinct Sample.platform
                         Sample.helloXml) _ Hin)).
Defined.

(** ** The vocabulary in storage *)

Lemma filter_sublist {A} (p : A -> bool) (l : list A) :
  List.filter p l `sublist_of` l.
Proof.
  induction l as [|x l IH]; simpl; [constructor|].
  destruct (p x); [apply sublist_skip|apply sublist_cons]; exact IH.
Qed.

Lemma filter_keeps_all {A} (p : A -> bool) (l : list A) :
  Forall (fun x => p x = true) l -> List.filter p l = l.
Proof.
  induction 1 as [|x l Hx Hl IH]; simpl; [reflexivity|].
  rewrite Hx, IH. reflexivity.
Qed.

(** X5: deleting by id answers true whenever the storage can be written,
    also when no item has the id; it removes every item with that id and
    keeps the others in their order, and touches neither settings nor
    cache.  When the storage rejects, it answers false and changes
    nothing. *)
Theorem deleteVocabularyItem_removes_id (id : Z) (st : Storage.t) :
  let out := Storage.deleteVocabularyItem id st in
  let before := Storage.getVocabulary st in
  let after := Storage.getVocabulary (snd out) in
  fst out = Storage.available st /\
  (Storage.available st = false -> snd out = st) /\
  (forall v, v ∈ after <-> v ∈ before /\ item_id v <> id) /\
  after `sublist_of` before /\
  ((forall v, v ∈ before -> item_id v <> id) -> after = before) /\
  Storage.settings (snd out) = Storage.settings st /\
  Storage.translationCache (snd out) = Storage.translationCache st.
Proof.
  intros out before after. subst out before after.
  unfold Storage.deleteVocabularyItem, Storage.set_vocabulary, Storage.getVocabulary.
  destruct (Storage.available st) eqn:Hav; cbn [catch fst snd].
  - cbn.
    split; [reflexivity|]. split; [discriminate|].
    split.
    { intros v. rewrite !list_elem_of_In, filter_In, negb_true_iff, Z.eqb_neq.
      reflexivity. }
    split; [apply filter_sublist|].
    split; [|split; reflexivity].
    intros Hno. apply filter_keeps_all, Forall_forall.
    intros v Hv. apply negb_true_iff, Z.eqb_neq, Hno, Hv.
  - rewrite Hav. cbn [catch].
    split; [reflexivity|]. split; [reflexivity|].
    split. { intros v. split; [intros Hv; inversion Hv|intros [Hv _]; inversion Hv]. }
    split; [constructor|]. repeat split.
Qed.

Lemma deleteVocabularyItem_witness :
  let one := {| item_id := 7; originalWord := lit "Hello";
                item_translation := lit "xin chao"; contextSentence := lit "Hello world";
                item_videoId := lit "aaa"; videoTitle := None;
                timestamp := lit "2024-01-01T00:00:00.000Z";
                item_language := None; mastery := None |} in
  let st := {| Storage.available := true; Storage.vocabulary := Some [one];
               Storage.settings := None; Storage.translationCache := None |} in
  (forall v, v ∈ Storage.getVocabulary st -> item_id v <> 8%Z) /\
  fst (Storage.deleteVocabularyItem 8 st) = true /\
  Storage.getVocabulary (snd (Storage.deleteVocabularyItem 8 st)) = [one].
Proof.
  intros one st.
  assert (Hno : forall v, v ∈ Storage.getVocabulary st -> item_id v <> 8%Z).
  { intros v Hv. apply list_elem_of_singleton in Hv. subst v. discriminate. }
  split; [exact Hno|].
  destruct (deleteVocabularyItem_removes_id 8 st) as (Hok & _ & _ & _ & Hsame & _).
  split; [exact Hok|exact (Hsame Hno)].
Defined.

(** X6: saving a word that no stored item matches and then deleting the
    returned id gives back the vocabulary there was, provided no stored
    item already has the current time as its id. *)
Theorem save_then_delete_round_trip `{Platform}
  (item : VocabularyDraft) (now : Z) (iso : jsstring) (st : Storage.t) :
  Storage.available st = true ->
  (forall v, v ∈ Storage.getVocabulary st ->
             toLowerCase (originalWord v) <> toLowerCase (d_originalWord item)) ->
  (forall v, v ∈ Storage.getVocabulary st -> item_id v <> now) ->
  exists newItem st1,
    Storage.saveVocabularyItem item now iso st = Ok (newItem, st1) /\
    Storage.getVocabulary st1 = Storage.getVocabulary st ++ [newItem] /\
    fst (Storage.deleteVocabularyItem (item_id newItem) st1) = true /\
    Storage.getVocabulary (snd (Storage.deleteVocabularyItem (item_id newItem) st1))
    = Storage.getVocabulary st.
Proof.
  intros Hav Hword Hid.
  unfold Storage.saveVocabularyItem, Storage.set_vocabulary.
  rewrite Hav. cbn [bind].
  destruct (Storage.findIndex (Storage.sameWord item) (Storage.getVocabulary st))
    as [i|] eqn:Hfind.
  { exfalso. destruct (findIndex_Some _ _ _ Hfind) as (v & Hi & Hv & _).
    apply (Hword v); [eapply list_elem_of_lookup_2; exact Hi|].
    unfold Storage.sameWord in Hv. apply bool_decide_eq_true in Hv. exact Hv. }
  eexists _, _. split; [reflexivity|].
  unfold Storage.deleteVocabularyItem, Storage.set_vocabulary, Storage.getVocabulary.
  cbn [Storage.available Storage.vocabulary catch default fst snd Storage.withId item_id].
  split; [reflexivity|]. split; [reflexivity|].
  unfold id. fold (Storage.getVocabulary st).
  rewrite List.filter_app. simpl. rewrite Z.eqb_refl. simpl.
  rewrite app_nil_r. apply filter_keeps_all, Forall_forall.
  intros v Hv. apply negb_true_iff, Z.eqb_neq, Hid, Hv.
Qed.

Lemma save_then_delete_witness :
  let st := {| Storage.available := true; Storage.vocabulary := None;
               Storage.settings := None; Storage.translationCache := None |} in
  let item := {| d_originalWord := lit "Hello"; d_translation := lit "chao";
                 d_contextSentence := lit "Hello there"; d_videoId := lit "aaa";
                 d_videoTitle := None; d_timestamp := lit "";
                 d_language := None; d_mastery := None |} in
  exists newItem st1,
    @Storage.saveVocabularyItem Sample.platform item 99 (lit "t") st = Ok (newItem, st1) /\
    Storage.getVocabulary (snd (Storage.deleteVocabularyItem (item_id newItem) st1)) = [].
Proof.
  intros st item.
  destruct (@save_then_delete_round_trip Sample.platform item 99 (lit "t") st)
    as (newItem & st1 & Hsave & _ & _ & Hback).
  - reflexivity.
  - intros v Hv. inversion Hv.
  - intros v Hv. inversion Hv.
  - exists newItem, st1. split; [exact Hsave|exact Hback].
Defined.

Lemma call_keeps_words_apart `{Platform} (c : VocabularyCall) (st : Storage.t) :
  NoDup (wordKey <$> default [] (Storage.vocabulary st)) ->
  NoDup (wordKey <$> default [] (Storage.vocabulary (call c st))).
Proof.
  intros Hnd. destruct c as [item now iso|id|]; unfold call.
  - unfold Storage.saveVocabularyItem, Storage.set_vocabulary, Storage.getVocabulary.
    set (stored := default [] (Storage.vocabulary st)) in *.
    destruct (Storage.available st) eqn:Hav; cbn [catch bind]; [|exact Hnd].
    cbn [Storage.vocabulary default]; unfold Datatypes.id.
    destruct (Storage.findIndex (Storage.sameWord item) stored) as [i|] eqn:Hfind.
    + destruct (findIndex_Some _ _ _ Hfind) as (v & Hi & Hv & _).
      rewrite Hi, list_fmap_insert.
      unfold Storage.sameWord in Hv. apply bool_decide_eq_true in Hv.
      rewrite list_insert_id; [exact Hnd|].
      rewrite list_lookup_fmap, Hi. simpl. f_equal. exact Hv.
    + rewrite fmap_app. apply NoDup_app. split; [exact Hnd|].
      split; [|apply NoDup_singleton].
      intros k Hk Hk'. apply list_elem_of_singleton in Hk'. subst k.
      apply list_elem_of_fmap in Hk as (v & Hkey & Hv).
      pose proof (findIndex_None _ _ Hfind v Hv) as Hno.
      unfold Storage.sameWord in Hno. apply bool_decide_eq_false in Hno.
      apply Hno. symmetry. exact Hkey.
  - unfold Storage.deleteVocabularyItem, Storage.set_vocabulary, Storage.getVocabulary.
    destruct (Storage.available st) eqn:Hav; cbn [catch snd]; [|exact Hnd].
    cbn [Storage.vocabulary default]; unfold Datatypes.id.
    eapply sublist_NoDup; [exact Hnd|apply fmap_sublist, filter_sublist].
  - unfold Storage.clearVocabulary, Storage.set_vocabulary.
    destruct (Storage.available st); [|exact Hnd].
    cbn [Storage.vocabulary default]; unfold Datatypes.id. constructor.
Qed.

(** X7: the vocabulary holds at most one item per lower-cased word: if it
    does before a run of saves, deletions and clearings, it does after
    it. *)
Theorem vocabulary_words_stay_apart `{Platform}
  (calls : list VocabularyCall) (st : Storage.t) :
  NoDup (wordKey <$> default [] (Storage.vocabulary st)) ->
  NoDup (wordKey <$> default [] (Storage.vocabulary (foldl (fun s c => call c s) st calls))).
Proof.
  revert st. induction calls as [|c calls IH]; intros st Hnd; [exact Hnd|].
  simpl. apply IH, call_keeps_words_apart, Hnd.
Qed.

Lemma vocabulary_words_witness :
  let st := {| Storage.available := true; Storage.vocabulary := None;
               Storage.settings := None; Storage.translationCache := None |} in
  let item w := {| d_originalWord := w; d_translation := lit "chao";
                   d_contextSentence := lit "Hello there"; d_videoId := lit "aaa";
                   d_videoTitle := None; d_timestamp := lit "";
                   d_language := None; d_mastery := None |} in
  let calls := [CallSave (item (lit "Hello")) 1 (lit "t1");
                CallSave (item (lit "HELLO")) 2 (lit "t2");
                CallSave (item (lit "world")) 3 (lit "t3")] in
  NoDup (@wordKey Sample.platform
           <$> default [] (Storage.vocabulary
                             (foldl (fun s c => @call Sample.platform c s) st calls))) /\
  length (default [] (Storage.vocabulary
                        (foldl (fun s c => @call Sample.platform c s) st calls))) = 2.
Proof.
  intros st item calls. split.
  - apply (@vocabulary_words_stay_apart Sample.platform calls st). constructor.
  - vm_compute. reflexivity.
Defined.

(** ** Settings and the translation cache *)






(** ** The service worker's handlers *)






(** X11: while the storage rejects every call, a save is answered with a
    failure that carries the error, a deletion with a failure that carries
    none, the vocabulary is answered as empty with success, and a
    translation request is answered with success from the API, asked with
    the default languages; none of them changes the storage. *)
Theorem answers_when_storage_rejects `{Platform}
  (backend : Api.Backend) (request : TranslationRequest)
  (item : VocabularyDraft) (now : Z) (iso : jsstring) (id : Z) (st : Storage.t) :
  Storage.available st = false ->
  ServiceWorker.respond (ServiceWorker.handleSaveVocabulary item now iso st) st
  = ({| ServiceWorker.success := false; ServiceWorker.data := None;
        ServiceWorker.error := Some StorageFailure |}, st) /\
  ServiceWorker.respond (ServiceWorker.handleDeleteVocabulary id st) st
  = ({| ServiceWorker.success := false; ServiceWorker.data := None;
        ServiceWorker.error := None |}, st) /\
  ServiceWorker.respond (ServiceWorker.handleGetVocabulary st) st
  = ({| ServiceWorker.success := true; ServiceWorker.data := Some [];
        ServiceWorker.error := None |}, st) /\
  ServiceWorker.onGetTranslation backend request st
  = ({| ServiceWorker.success := true;
        ServiceWorker.data :=
          Some (Api.translateWord backend
                  {| req_word := ServiceWorker.cleanWord (req_word request);
                     req_contextSentence := req_contextSentence request;
                     req_sourceLanguage := Some (lit "en");
                     req_targetLanguage := lit "vi" |});
        ServiceWorker.error := None |}, st).
Proof.
  intros Hav.
  unfold ServiceWorker.handleSaveVocabulary, ServiceWorker.handleDeleteVocabulary,
    ServiceWorker.handleGetVocabulary, ServiceWorker.onGetTranslation,
    ServiceWorker.handleGetTranslation,
    Storage.saveVocabularyItem, Storage.deleteVocabularyItem,
    Storage.set_vocabulary, Storage.getVocabulary, Storage.getSettings,
    Storage.getCachedTranslation, Storage.cacheTranslation.
  rewrite Hav. cbn [catch bind ServiceWorker.respond].
  split; [reflexivity|]. split; [reflexivity|]. split; [reflexivity|].
  destruct (_ && _); reflexivity.
Qed.

Lemma storage_rejects_witness :
  let st := {| Storage.available := false; Storage.vocabulary := None;
               Storage.settings := None; Storage.translationCache := None |} in
  ServiceWorker.respond (ServiceWorker.handleDeleteVocabulary 7 st) st
  = ({| ServiceWorker.success := false; ServiceWorker.data := None;
        ServiceWorker.error := None |}, st).
Proof.
  intros st.
  exact (proj1 (proj2 (@answers_when_storage_rejects Sample.platform
                         (fun _ => Api.Unreachable)
                         {| req_word := lit "a"; req_contextSentence := None;
                            req_sourceLanguage := None; req_targetLanguage := [] |}
                         {| d_originalWord := lit "a"; d_translation := [];
                            d_contextSentence := []; d_videoId := [];
                            d_videoTitle := None; d_timestamp := [];
                            d_language := None; d_mastery := None |}
                         1 (lit "t") 7 st eq_refl))).
Defined.

(** ** The content script's callbacks *)








(** ** What the overlay shows *)

Lemma onScreen_render m b r :
  Overlay.root m = Some r ->
  Overlay.onScreen (snd (Overlay.render (m, b))) r
  = Overlay.SubtitleOverlay (Overlay.propsOf m).
Proof.
  intros Hr. unfold Overlay.render, Overlay.onScreen. rewrite Hr.
  cbn [snd Overlay.log Overlay.set_log List.find fst].
  rewrite Nat.eqb_refl. reflexivity.
Qed.

Lemma parseXml_word_ids `{Platform} xml seg i w :
  seg ∈ SubtitleExtractor.parseXml xml ->
  words seg !! i = Some w ->
  word_id w = seg_id seg ++ lit "-word-" ++ ofNat i.
Proof.
  intros Hin Hi. rewrite (parseXml_words _ _ Hin) in Hi.
  exact (exec_loop_ids _ _ _ _ _ _ Hi).
Qed.

(** X14: the component shows nothing exactly when the overlay is disabled
    or no segment covers the current time; otherwise it shows the first
    covering segment, one span per word in order, a span highlighted
    exactly when its word has the id of the hovered word, and the tooltip
    exactly when a word is hovered and a translation is there.  For a
    segment that [parseXml] made, at most one span is highlighted. *)
Theorem SubtitleOverlay_view `{Platform} (p : Overlay.Props) :
  (Overlay.SubtitleOverlay p = None <->
   Overlay.p_isEnabled p = false \/
   forall seg, seg ∈ Overlay.p_segments p ->
               SubtitleExtractor.covers (Overlay.p_currentTime p) seg = false) /\
  forall v, Overlay.SubtitleOverlay p = Some v ->
    Overlay.currentSegment (Overlay.p_segments p) (Overlay.p_currentTime p)
    = Some (Overlay.view_segment v) /\
    map Overlay.span_word (Overlay.view_line v) = words (Overlay.view_segment v) /\
    (forall i s, Overlay.view_line v !! i = Some s ->
       (Overlay.span_hovered s = true <->
        exists h, Overlay.p_hoveredWord p = Some h /\
                  word_id h = word_id (Overlay.span_word s))) /\
    (forall t, Overlay.view_tooltip v = Some t <->
               Overlay.p_translation p = Some t /\ Overlay.p_hoveredWord p <> None) /\
    (forall xml i j s1 s2,
       Overlay.view_segment v ∈ SubtitleExtractor.parseXml xml ->
       Overlay.view_line v !! i = Some s1 -> Overlay.view_line v !! j = Some s2 ->
       Overlay.span_hovered s1 = true -> Overlay.span_hovered s2 = true -> i = j).
Proof.
  unfold Overlay.SubtitleOverlay, Overlay.currentSegment.
  destruct (List.find _ (Overlay.p_segments p)) as [seg|] eqn:Hfind.
  - split.
    + destruct (Overlay.p_isEnabled p); cbn [negb].
      * split; [discriminate|]. intros [Hoff|Hnone]; [discriminate|].
        apply find_some in Hfind as [Hin Hc]. apply list_elem_of_In in Hin.
        rewrite (Hnone seg Hin) in Hc. discriminate.
      * split; [left; reflexivity|reflexivity].
    + intros v Hv. destruct (Overlay.p_isEnabled p); [|discriminate].
      cbn [negb] in Hv. apply (inj Some) in Hv. subst v.
      cbn [Overlay.view_segment Overlay.view_line Overlay.view_tooltip].
      assert (Hspan : forall i s,
        map (fun w => {| Overlay.span_word := w;
                         Overlay.span_hovered :=
                           Overlay.isHovered (Overlay.p_hoveredWord p) w |})
            (words seg) !! i = Some s ->
        words seg !! i = Some (Overlay.span_word s) /\
        Overlay.span_hovered s
        = Overlay.isHovered (Overlay.p_hoveredWord p) (Overlay.span_word s)).
      { intros i s Hs. change (map ?f ?l) with (f <$> l) in Hs.
        rewrite list_lookup_fmap in Hs.
        destruct (words seg !! i) as [w|]; [|discriminate].
        injection Hs as <-. split; reflexivity. }
      assert (Hhov : forall i s,
        map (fun w => {| Overlay.span_word := w;
                         Overlay.span_hovered :=
                           Overlay.isHovered (Overlay.p_hoveredWord p) w |})
            (words seg) !! i = Some s ->
        (Overlay.span_hovered s = true <->
         exists h, Overlay.p_hoveredWord p = Some h /\
                   word_id h = word_id (Overlay.span_word s))).
      { intros i s Hs. destruct (Hspan i s Hs) as [_ ->].
        unfold Overlay.isHovered.
        destruct (Overlay.p_hoveredWord p) as [h|].
        - rewrite bool_decide_eq_true. split.
          + intros Hid. exists h. split; [reflexivity|exact Hid].
          + intros (h' & [= <-] & Hid). exact Hid.
        - split; [discriminate|]. intros (h & Hh & _). discriminate. }
      split; [reflexivity|]. split.
      { rewrite map_map. apply map_id. }
      split; [exact Hhov|]. split.
      { intros t. destruct (Overlay.p_hoveredWord p) as [h|].
        - split; [intros Ht; split; [exact Ht|discriminate]|intros [Ht _]; exact Ht].
        - split; [discriminate|]. intros [_ Hh]. contradiction. }
      intros xml i j s1 s2 Hin H1 H2 Hh1 Hh2.
      apply (Hhov i s1 H1) in Hh1 as (h1 & Hp1 & Hid1).
      apply (Hhov j s2 H2) in Hh2 as (h2 & Hp2 & Hid2).
      rewrite Hp1 in Hp2. injection Hp2 as <-.
      destruct (Hspan i s1 H1) as [Hw1 _], (Hspan j s2 H2) as [Hw2 _].
      rewrite (parseXml_word_ids _ _ _ _ Hin Hw1) in Hid1.
      rewrite (parseXml_word_ids _ _ _ _ Hin Hw2) in Hid2.
      rewrite Hid1 in Hid2.
      apply app_inv_head, app_inv_head in Hid2. exact (ofNat_inj _ _ Hid2).
  - split; [|discriminate].
    split; [|reflexivity]. intros _. right.
    intros seg Hin. apply list_elem_of_In in Hin.
    exact (find_none _ _ Hfind seg Hin).
Qed.

Lemma overlay_view_witness :
  let p := {| Overlay.p_segments := [Sample.helloSegment];
              Overlay.p_currentTime := Num.ofDecimal false 2 0;
              Overlay.p_translation := None;
              Overlay.p_hoveredWord :=
                Some {| word_id := lit "segment-0-word-1"; word_text := lit "world";
                        startIndex := 6; endIndex := 11 |};
              Overlay.p_isEnabled := true |} in
  exists v, Overlay.SubtitleOverlay p = Some v /\
            map Overlay.span_hovered (Overlay.view_line v) = [false; true] /\
            map Overlay.span_word (Overlay.view_line v) = words Sample.helloSegment.
Proof.
  intros p.
  destruct (Overlay.SubtitleOverlay p) as [v|] eqn:Hv; [|vm_compute in Hv; discriminate].
  exists v. split; [reflexivity|].
  destruct (proj2 (@SubtitleOverlay_view Sample.platform p) v Hv)
    as (Hseg & Hwords & _).
  assert (Hview : Overlay.view_segment v = Sample.helloSegment).
  { apply (inj Some). rewrite <- Hseg. vm_compute. reflexivity. }
  split; [|rewrite Hwords, Hview; reflexivity].
  vm_compute in Hv. apply (inj Some) in Hv. subst v. vm_compute. reflexivity.
Defined.

(** X15: a translation that arrives after the pointer has left the word is
    kept by the manager without a tooltip, and is the tooltip of whatever
    word is hovered next, until the answer for that word arrives. *)
Theorem late_translation_shown_with_next_word
  (mb : Overlay.Manager * Overlay.Browser) (r : nat)
  (t : TranslationResponse) (w : SubtitleWord) :
  Overlay.root (fst mb) = Some r ->
  let left := Overlay.handleWordLeave mb in
  let late := Overlay.setTranslation (Some t) left in
  let next := Overlay.handleWordHover w late in
  (forall v, Overlay.onScreen (snd left) r = Some v -> Overlay.view_tooltip v = None) /\
  (forall v, Overlay.onScreen (snd late) r = Some v -> Overlay.view_tooltip v = None) /\
  Overlay.translation (fst late) = Some t /\
  (forall v, Overlay.onScreen (snd next) r = Some v -> Overlay.view_tooltip v = Some t) /\
  (Overlay.onScreen (snd next) r = None <->
   Overlay.isEnabled (fst mb) = false \/
   Overlay.currentSegment (Overlay.segments (fst mb)) (Overlay.currentTime (fst mb))
   = None).
Proof.
  destruct mb as [m b]. intros Hr left late next.
  subst next late left. cbn [fst] in Hr |- *.
  unfold Overlay.handleWordHover, Overlay.setTranslation, Overlay.handleWordLeave.
  assert (Hkeep : forall m' b', snd (Overlay.render (m', b')) = snd (Overlay.render (m', b'))
                                /\ fst (Overlay.render (m', b')) = m').
  { intros m' b'. split; [reflexivity|]. unfold Overlay.render.
    destruct (Overlay.root m'); reflexivity. }
  rewrite !(proj2 (Hkeep _ _)).
  rewrite !onScreen_render by exact Hr.
  unfold Overlay.SubtitleOverlay, Overlay.propsOf.
  cbn [fst snd Overlay.p_segments Overlay.p_currentTime Overlay.p_isEnabled
       Overlay.p_hoveredWord Overlay.p_translation
       Overlay.segments Overlay.currentTime Overlay.isEnabled Overlay.hoveredWord
       Overlay.translation Overlay.set_translation Overlay.set_hoveredWord].
  destruct (Overlay.currentSegment (Overlay.segments m) (Overlay.currentTime m))
    as [seg|].
  - destruct (Overlay.isEnabled m); cbn [negb].
    + split; [intros v [= <-]; reflexivity|].
      split; [intros v [= <-]; reflexivity|].
      split; [reflexivity|].
      split; [intros v [= <-]; reflexivity|].
      split; [discriminate|]. intros [Ho|Hn]; discriminate.
    + split; [discriminate|]. split; [discriminate|]. split; [reflexivity|].
      split; [discriminate|]. split; [left|]; reflexivity.
  - split; [discriminate|]. split; [discriminate|]. split; [reflexivity|].
    split; [discriminate|]. split; [right|]; reflexivity.
Qed.

Lemma late_translation_witness :
  let m := Overlay.set_currentTime (Num.ofDecimal false 2 0)
             (Overlay.set_segments [Sample.helloSegment]
                (Overlay.set_root (Some 2) Overlay.new)) in
  let b := Reactor.browser (Reactor.initial Sample.worldA true true) in
  let t := {| tr_word := lit "hello"; tr_translation := lit "xin chao";
              tr_language := lit "vi"; pronunciation := None;
              partOfSpeech := None; definitions := None |} in
  let w := {| word_id := lit "segment-0-word-1"; word_text := lit "world";
              startIndex := 6; endIndex := 11 |} in
  let next := Overlay.handleWordHover w
                (Overlay.setTranslation (Some t) (Overlay.handleWordLeave (m, b))) in
  exists v, Overlay.onScreen (snd next) 2 = Some v /\
            option_map tr_word (Overlay.view_tooltip v) = Some (lit "hello").
Proof.
  intros m b t w next.
  destruct (Overlay.onScreen (snd next) 2) as [v|] eqn:Hv;
    [|vm_compute in Hv; discriminate].
  exists v. split; [reflexivity|].
  destruct (late_translation_shown_with_next_word (m, b) 2 t w eq_refl)
    as (_ & _ & _ & Hnext & _).
  rewrite (Hnext v Hv). reflexivity.
Defined.

(** ** Making and removing the overlay *)

Lemma overlayCall_without_root c mb :
  Overlay.root (fst mb) = None ->
  Overlay.root (fst (overlayCall c mb)) = None /\
  Overlay.log (snd (overlayCall c mb)) = Overlay.log (snd mb) /\
  Overlay.parentOf (snd (overlayCall c mb)) = Overlay.parentOf (snd mb).
Proof.
  destruct mb as [m b]. cbn [fst snd]. intros Hr.
  destruct c; unfold overlayCall, Overlay.setSubtitles, Overlay.setTranslation,
    Overlay.setEnabled, Overlay.handleWordHover, Overlay.handleWordLeave,
    Overlay.syncTime, Overlay.render; cbn [fst snd];
    try (cbn [Overlay.root Overlay.set_segments Overlay.set_translation
              Overlay.set_isEnabled Overlay.set_hoveredWord];
         rewrite Hr; cbn [fst snd]; repeat split; exact Hr).
  destruct (Overlay.videoElement m) as [v|].
  - destruct (Overlay.timeMoved _ _).
    + cbn [Overlay.root Overlay.set_currentTime]. rewrite Hr.
      repeat split. exact Hr.
    + repeat split. exact Hr.
  - repeat split. exact Hr.
Qed.

Lemma destroy_unmounts mb :
  Overlay.root (fst (Overlay.destroy mb)) = None /\
  Overlay.log (snd (Overlay.destroy mb))
  = match Overlay.root (fst mb) with
    | Some r => (r, None) :: Overlay.log (snd mb)
    | None => Overlay.log (snd mb)
    end.
Proof.
  destruct mb as [m b]. unfold Overlay.destroy. cbn [fst snd].
  set (b1 := match Overlay.animationFrameId m with
             | Some (S h) => _
             | _ => b
             end).
  assert (Hb1 : Overlay.log b1 = Overlay.log b)
    by (subst b1; repeat case_match; reflexivity).
  destruct (Overlay.root m) as [r|] eqn:Hr;
    cbn [Overlay.container Overlay.set_root];
    destruct (Overlay.container m) as [c|];
    cbn [Overlay.parentOf Overlay.set_log];
    try destruct (Overlay.parentOf b1 !! c);
    cbn [fst snd Overlay.root Overlay.set_container Overlay.set_root
         Overlay.log Overlay.set_dom Overlay.set_log];
    rewrite ?Hb1; split; try reflexivity; exact Hr.
Qed.

(** X16: after [destroy] the manager has no root, so whatever it is told
    and however many frames of the time sync still run, nothing is
    rendered, nothing is attached to the page, and what the old root shows
    stays nothing. *)
Theorem nothing_rendered_after_destroy
  (mb : Overlay.Manager * Overlay.Browser) (calls : list OverlayCall) :
  let gone := Overlay.destroy mb in
  let mb' := foldl (fun s c => overlayCall c s) gone calls in
  Overlay.root (fst mb') = None /\
  Overlay.log (snd mb') = Overlay.log (snd gone) /\
  Overlay.parentOf (snd mb') = Overlay.parentOf (snd gone) /\
  (forall r, Overlay.root (fst mb) = Some r -> Overlay.onScreen (snd mb') r = None).
Proof.
  intros gone mb'.
  destruct (destroy_unmounts mb) as [Hroot Hlog]. fold gone in Hroot, Hlog.
  assert (Hrun : forall start,
    Overlay.root (fst start) = None ->
    let stop := foldl (fun s c => overlayCall c s) start calls in
    Overlay.root (fst stop) = None /\
    Overlay.log (snd stop) = Overlay.log (snd start) /\
    Overlay.parentOf (snd stop) = Overlay.parentOf (snd start)).
  { induction calls as [|c calls IH]; intros start Hstart; [repeat split; exact Hstart|].
    destruct (overlayCall_without_root c start Hstart) as (H1 & H2 & H3).
    destruct (IH (overlayCall c start) H1) as (H4 & H5 & H6).
    cbn [foldl]. split; [exact H4|].
    split; [rewrite H5; exact H2|rewrite H6; exact H3]. }
  destruct (Hrun gone Hroot) as (H1 & H2 & H3). fold mb' in H1, H2, H3.
  split; [exact H1|]. split; [exact H2|]. split; [exact H3|].
  intros r Hr. unfold Overlay.onScreen. rewrite H2, Hlog, Hr.
  cbn [List.find fst]. rewrite Nat.eqb_refl. reflexivity.
Qed.

Lemma nothing_rendered_witness :
  let m := Overlay.set_currentTime (Num.ofDecimal false 2 0)
             (Overlay.set_segments [Sample.helloSegment]
                (Overlay.set_root (Some 2) Overlay.new)) in
  let b := Reactor.browser (Reactor.initial Sample.worldA true true) in
  Overlay.onScreen (snd (Overlay.render (m, b))) 2 <> None /\
  Overlay.onScreen
    (snd (foldl (fun s c => overlayCall c s) (Overlay.destroy (Overlay.render (m, b)))
            [CallSetEnabled true; CallSetSubtitles [Sample.helloSegment]; CallFrame]))
    2 = None.
Proof.
  intros m b. split; [vm_compute; discriminate|].
  apply (nothing_rendered_after_destroy (Overlay.render (m, b))). reflexivity.
Defined.

(** X17: [initialize] is idempotent: called again on what it left, it
    answers the same and changes nothing, so no second container, root or
    sync loop is made while the first container is in the document. *)
Theorem initialize_idempotent (mb : Overlay.Manager * Overlay.Browser) :
  Overlay.initialize (snd (Overlay.initialize mb)) = Overlay.initialize mb.
Proof.
  destruct mb as [m b].
  destruct (Overlay.initialize (m, b)) as [ok mb1] eqn:Hinit. cbn [snd].
  unfold Overlay.initialize in Hinit.
  destruct (Overlay.player b) as [p|] eqn:Hp.
  - destruct (match Overlay.container m with
              | Some c => Overlay.inDocument b c
              | None => false
              end) eqn:Hin.
    + apply pair_equal_spec in Hinit as [Hok Hmb]. subst ok mb1.
      destruct (Overlay.container m) as [c|] eqn:Hc; [|discriminate].
      exact (initialize_reuse m b c Hc Hin).
    + apply pair_equal_spec in Hinit as [Hok Hmb]. subst ok mb1.
      set (c := Overlay.freshNode b).
      match goal with |- Overlay.initialize ?x = _ => set (mb1 := x) end.
      assert (Hshape : shape mb1
                       = (Some c, Some p, <[c := p]> (Overlay.parentOf b), S c)).
      { subst mb1. rewrite render_shape.
        cbn [Overlay.videoElement Overlay.set_videoElement Overlay.set_root
             Overlay.set_container Overlay.video Overlay.set_dom].
        destruct (Overlay.video b);
          [unfold Overlay.startTimeSync; rewrite syncTime_shape|];
          unfold shape; cbn; rewrite ?Hp; reflexivity. }
      destruct mb1 as [m1 b1]. unfold shape in Hshape. cbn [fst snd] in Hshape.
      injection Hshape as Hc1 Hp1 Hpo1 _.
      apply (initialize_reuse m1 b1 c Hc1).
      apply inDocument_spec. exists p. rewrite Hpo1, lookup_insert_eq.
      split; [reflexivity|exact Hp1].
  - apply pair_equal_spec in Hinit as [Hok Hmb]. subst ok mb1.
    unfold Overlay.initialize. rewrite Hp. reflexivity.
Qed.

(** ** The session's flag and the overlay *)

Lemma frameOf_inv mb mb' :
  frameOf mb = frameOf mb' ->
  (mounted mb -> mounted mb') /\ (ready (fst mb) -> ready (fst mb')).
Proof.
  destruct mb as [m b], mb' as [m' b']. unfold frameOf, mounted, ready.
  cbn [fst snd]. intros [= Hr Hc Hp Hs Ht Hw].
  rewrite <- Hr, <- Hc, <- Hp, <- Hs, <- Ht, <- Hw. tauto.
Qed.

Lemma render_frameOf mb : frameOf (Overlay.render mb) = frameOf mb.
Proof.
  destruct mb as [m b]. unfold Overlay.render.
  destruct (Overlay.root m); reflexivity.
Qed.

Lemma syncTime_frameOf mb : frameOf (Overlay.syncTime mb) = frameOf mb.
Proof.
  destruct mb as [m b]. unfold Overlay.syncTime, Overlay.render.
  destruct (Overlay.videoElement m) as [v|]; [|reflexivity].
  destruct (Overlay.timeMoved _ _); [|reflexivity].
  cbn [Overlay.root Overlay.set_currentTime].
  destruct (Overlay.root m); reflexivity.
Qed.

Lemma initialize_frameOf mb :
  mounted mb ->
  let out := Overlay.initialize mb in
  mounted (snd out) /\
  (fst out = true -> Overlay.root (fst (snd out)) <> None) /\
  (fst out = false -> snd out = mb) /\
  Overlay.segments (fst (snd out)) = Overlay.segments (fst mb) /\
  Overlay.onTranslationRequest (fst (snd out)) = Overlay.onTranslationRequest (fst mb) /\
  Overlay.onWordSave (fst (snd out)) = Overlay.onWordSave (fst mb).
Proof.
  destruct mb as [m b]. intros Hm out. subst out.
  pose proof Hm as [Hrc Hatt]. cbn [fst snd] in Hrc, Hatt.
  unfold Overlay.initialize.
  destruct (Overlay.player b) as [p|] eqn:Hp.
  2:{ cbn [fst snd]. split; [exact Hm|]. split; [discriminate|]. repeat split. }
  destruct (match Overlay.container m with
            | Some c => Overlay.inDocument b c
            | None => false
            end) eqn:Hin.
  { cbn [fst snd]. split; [exact Hm|]. split.
    - intros _. rewrite Hrc. destruct (Overlay.container m); discriminate.
    - split; [discriminate|]. repeat split. }
  cbn [fst snd].
  set (c := Overlay.freshNode b).
  match goal with |- mounted ?x /\ _ => set (mb1 := x) end.
  assert (Hframe : frameOf mb1
                   = (Some c, Some c, <[c := p]> (Overlay.parentOf b),
                      Overlay.segments m, Overlay.onTranslationRequest m,
                      Overlay.onWordSave m)).
  { subst mb1. rewrite render_frameOf.
    cbn [Overlay.videoElement Overlay.set_videoElement Overlay.set_root
         Overlay.set_container Overlay.video Overlay.set_dom].
    destruct (Overlay.video b);
      [unfold Overlay.startTimeSync; rewrite syncTime_frameOf|];
      unfold frameOf; cbn; reflexivity. }
  destruct mb1 as [m1 b1]. unfold frameOf in Hframe. cbn [fst snd] in Hframe |- *.
  injection Hframe as Hr1 Hc1 Hp1 Hs1 Ht1 Hw1.
  split.
  { unfold mounted. cbn [fst snd]. rewrite Hr1, Hc1, Hp1. split; [reflexivity|].
    intros c' [= <-]. rewrite lookup_insert_eq. eexists. reflexivity. }
  split; [intros _; rewrite Hr1; discriminate|].
  split; [discriminate|]. repeat split; assumption.
Qed.

Lemma destroy_mounted mb :
  mounted mb ->
  mounted (Overlay.destroy mb) /\
  Overlay.root (fst (Overlay.destroy mb)) = None /\
  Overlay.container (fst (Overlay.destroy mb)) = None.
Proof.
  destruct mb as [m b]. intros [Hrc Hatt]. cbn [fst snd] in Hrc, Hatt.
  unfold Overlay.destroy, mounted.
  set (b1 := match Overlay.animationFrameId m with
             | Some (S h) => _
             | _ => b
             end).
  assert (Hb1 : Overlay.parentOf b1 = Overlay.parentOf b)
    by (subst b1; repeat case_match; reflexivity).
  destruct (Overlay.root m) as [r|] eqn:Hr;
    cbn [Overlay.container Overlay.set_root];
    destruct (Overlay.container m) as [c|] eqn:Hc; try discriminate.
  - cbn [Overlay.parentOf Overlay.set_log]. rewrite Hb1.
    destruct (Hatt c eq_refl) as [q Hq]. rewrite Hq.
    cbn [fst snd Overlay.root Overlay.container Overlay.set_container
         Overlay.set_root]. repeat split. discriminate.
  - cbn [fst snd]. rewrite Hr, Hc. repeat split. discriminate.
Qed.

Section Flag.
Context `{Platform}.

Lemma cleanup_flag s :
  mounted (Reactor.overlay s) ->
  mounted (Reactor.overlay (Reactor.cleanup s)) /\
  Reactor.isInitialized (Reactor.reactor (Reactor.cleanup s)) = false /\
  Overlay.root (Reactor.manager (Reactor.cleanup s)) = None /\
  Overlay.container (Reactor.manager (Reactor.cleanup s)) = None.
Proof.
  intros Hm. unfold Reactor.cleanup.
  match goal with |- context [Overlay.destroy ?x] =>
    destruct (destroy_mounted x Hm) as (H1 & H2 & H3) end.
  destruct (Overlay.destroy _) as [m' b'].
  split; [exact H1|]. split; [reflexivity|]. split; [exact H2|exact H3].
Qed.

Lemma initializeForVideo_resume_flag outcome s :
  mounted (Reactor.overlay s) ->
  (Reactor.isInitialized (Reactor.reactor s) = true -> ready (Reactor.manager s)) ->
  let s' := Reactor.initializeForVideo_resume outcome s in
  mounted (Reactor.overlay s') /\
  (Reactor.isInitialized (Reactor.reactor s') = true -> ready (Reactor.manager s')).
Proof.
  intros Hm Hready s'. subst s'. unfold Reactor.initializeForVideo_resume.
  assert (H1 : Reactor.overlay (snd (Reactor.extractSubtitles_resume outcome s))
               = Reactor.overlay s /\
               Reactor.reactor (snd (Reactor.extractSubtitles_resume outcome s))
               = Reactor.reactor s)
    by (destruct outcome; split; reflexivity).
  destruct (Reactor.extractSubtitles_resume outcome s) as [subs s1].
  cbn [snd] in H1. destruct H1 as [Hov Hre].
  assert (Hman : Reactor.manager s1 = Reactor.manager s)
    by exact (f_equal fst Hov).
  destruct subs as [|seg segs].
  { rewrite Hov, Hre, Hman. split; assumption. }
  rewrite <- Hov in Hm.
  destruct (initialize_frameOf (Reactor.overlay s1) Hm)
    as (Hm1 & Hroot & Hsame & Hsegs & Htr & Hws).
  destruct (Overlay.initialize (Reactor.overlay s1)) as [ok [m b]].
  cbn [fst snd] in Hm1, Hroot, Hsame, Hsegs, Htr, Hws.
  destruct ok; cbn [negb].
  - unfold Overlay.setSubtitles.
    pose proof (render_frameOf
                  (Overlay.set_segments (seg :: segs)
                     (fst (Reactor.overlay (Reactor.set_overlay (m, b) s1))),
                   snd (Reactor.overlay (Reactor.set_overlay (m, b) s1)))) as Hf.
    destruct (Overlay.render _) as [m3 b3].
    unfold frameOf in Hf. cbn in Hf. injection Hf as Hr3 Hc3 Hp3 Hs3 _ _.
    destruct Hm1 as [Hrc Hatt]. cbn [fst snd] in Hrc, Hatt.
    split.
    + unfold mounted, Reactor.overlay. cbn. rewrite Hr3, Hc3, Hp3.
      split; assumption.
    + intros _. unfold ready. cbn. rewrite Hr3, Hs3.
      split; [exact (Hroot eq_refl)|]. repeat split. discriminate.
  - rewrite (Hsame eq_refl). rewrite (Hsame eq_refl) in Hm1.
    split.
    + exact Hm1.
    + cbn. rewrite Hre, Hman in *. exact Hready.
Qed.

Lemma step_flag e s s' :
  Reactor.step e s = Some s' ->
  mounted (Reactor.overlay s) ->
  (Reactor.isInitialized (Reactor.reactor s) = true -> ready (Reactor.manager s)) ->
  mounted (Reactor.overlay s') /\
  (Reactor.isInitialized (Reactor.reactor s') = true -> ready (Reactor.manager s')).
Proof.
  intros Hstep Hm Hready.
  assert (Hkeep : forall mb,
    frameOf mb = frameOf (Reactor.overlay s) ->
    mounted (Reactor.overlay (Reactor.set_overlay mb s)) /\
    (Reactor.isInitialized (Reactor.reactor (Reactor.set_overlay mb s)) = true ->
     ready (Reactor.manager (Reactor.set_overlay mb s)))).
  { intros mb Hf. rewrite overlay_set_overlay.
    destruct (frameOf_inv _ _ (eq_sym Hf)) as [Hm' Hr'].
    split; [exact (Hm' Hm)|]. intros Hi. exact (Hr' (Hready Hi)). }
  destruct e; unfold Reactor.step in Hstep.
  - apply (inj Some) in Hstep; subst s'. split; assumption.
  - apply (inj Some) in Hstep; subst s'. split; assumption.
  - apply (inj Some) in Hstep; subst s'. split; assumption.
  - apply (inj Some) in Hstep; subst s'. split; assumption.
  - apply (inj Some) in Hstep; subst s'. split; assumption.
  - apply (inj Some) in Hstep; subst s'. split; assumption.
  - (* Recheck *) apply (inj Some) in Hstep; subst s'.
    unfold Reactor.checkAndInitialize.
    destruct (negb _).
    + destruct (cleanup_flag s Hm) as (Hm' & Hflag & _).
      split; [exact Hm'|]. rewrite Hflag. discriminate.
    + destruct (_ && _); split; assumption.
  - (* Resume *)
    destruct (Reactor.pending s !! i) as [[|outcome]|]; [| |discriminate].
    + destruct (Reactor.playerReady _); [|discriminate].
      apply (inj Some) in Hstep; subst s'. split; assumption.
    + apply (inj Some) in Hstep; subst s'.
      apply initializeForVideo_resume_flag; assumption.
  - (* Frame *)
    destruct (existsb _ _); [|discriminate]. apply (inj Some) in Hstep; subst s'.
    apply Hkeep. rewrite syncTime_frameOf. reflexivity.
  - apply (inj Some) in Hstep; subst s'.
    apply Hkeep. unfold Overlay.setEnabled. rewrite render_frameOf. reflexivity.
  - apply (inj Some) in Hstep; subst s'.
    apply Hkeep. unfold Overlay.handleWordHover. rewrite render_frameOf. reflexivity.
  - apply (inj Some) in Hstep; subst s'.
    apply Hkeep. unfold Overlay.handleWordLeave. rewrite render_frameOf. reflexivity.
  - apply (inj Some) in Hstep; subst s'.
    apply Hkeep. unfold Overlay.setTranslation. rewrite render_frameOf. reflexivity.
Qed.

Lemma reachable_flag s :
  Reactor.reachable s ->
  mounted (Reactor.overlay s) /\
  (Reactor.isInitialized (Reactor.reactor s) = true -> ready (Reactor.manager s)).
Proof.
  induction 1 as [w hp hv|s e s' _ [IHm IHr] Hstep].
  - split; [|discriminate]. split; [reflexivity|discriminate].
  - exact (step_flag _ _ _ Hstep IHm IHr).
Qed.

Lemma run_reachable es s s' :
  Reactor.reachable s -> Reactor.run es s = Some s' -> Reactor.reachable s'.
Proof.
  revert s. induction es as [|e es IH]; intros s Hs Hrun; simpl in Hrun.
  - injection Hrun as <-. exact Hs.
  - destruct (Reactor.step e s) as [s1|] eqn:Hstep; [|discriminate].
    apply (IH s1); [|exact Hrun].
    exact (Reactor.reachable_step s e s1 Hs Hstep).
Qed.

End Flag.

(** X18: in every state the content script can reach, the manager has a
    root exactly when it holds a container, that container is attached to
    a node, and while [isInitialized] is set the overlay has a root, a
    non-empty list of segments and both callbacks. *)
Theorem initialized_means_ready `{Platform} (s : Reactor.State) :
  Reactor.reachable s ->
  Overlay.root (Reactor.manager s) = Overlay.container (Reactor.manager s) /\
  (forall c, Overlay.container (Reactor.manager s) = Some c ->
             is_Some (Overlay.parentOf (Reactor.browser s) !! c)) /\
  (Reactor.isInitialized (Reactor.reactor s) = true ->
   Overlay.root (Reactor.manager s) <> None /\
   Overlay.segments (Reactor.manager s) <> [] /\
   Overlay.onTranslationRequest (Reactor.manager s)
   = Some Overlay.HandleTranslationRequest /\
   Overlay.onWordSave (Reactor.manager s) = Some Overlay.HandleWordSave).
Proof.
  intros Hreach. destruct (reachable_flag s Hreach) as [[Hrc Hatt] Hready].
  split; [exact Hrc|]. split; [exact Hatt|exact Hready].
Qed.

Lemma initialized_ready_witness :
  let s := default (Reactor.initial Sample.worldA true true)
             (@Reactor.run Sample.platform
                [Reactor.Recheck; Reactor.Resume 0; Reactor.Resume 0]
                (Reactor.initial Sample.worldA true true)) in
  Reactor.isInitialized (Reactor.reactor s) = true /\
  Overlay.root (Reactor.manager s) <> None /\
  Overlay.segments (Reactor.manager s) <> [].
Proof.
  intros s.
  assert (Hflag : Reactor.isInitialized (Reactor.reactor s) = true)
    by (vm_compute; reflexivity).
  split; [exact Hflag|].
  assert (Hreach : @Reactor.reachable Sample.platform s).
  { apply (@run_reachable Sample.platform
             [Reactor.Recheck; Reactor.Resume 0; Reactor.Resume 0]
             (Reactor.initial Sample.worldA true true)).
    - apply Reactor.reachable_initial.
    - vm_compute. reflexivity. }
  destruct (@initialized_means_ready Sample.platform s Hreach)
    as (_ & _ & Hready).
  destruct (Hready Hflag) as (Hroot & Hsegs & _).
  split; assumption.
Defined.

(** ** The regular expression for the player response *)

Lemma startsWith_split (p s : jsstring) :
  startsWith p s = true -> s = p ++ drop (length p) s.
Proof.
  revert s. induction p as [|a p IH]; intros [|b s]; simpl; try discriminate;
    [reflexivity|reflexivity|].
  intros Hs. apply andb_true_iff in Hs as [Hab Hs].
  apply N.eqb_eq in Hab. subst b. f_equal. exact (IH s Hs).
Qed.

Lemma lazyUntilClose_spec (s x : jsstring) :
  SubtitleExtractor.lazyUntilClose s = Some x ->
  exists body rest,
    x = body ++ [125%N] /\ s = body ++ lit "};" ++ rest /\
    forall k, k < length body -> startsWith (lit "};") (drop k s) = false.
Proof.
  revert x. induction s as [|c s IH]; intros x Hx.
  - vm_compute in Hx. discriminate.
  - change (SubtitleExtractor.lazyUntilClose (c :: s))
      with (if startsWith (lit "};") (c :: s) then Some (lit "}")
            else option_map (cons c) (SubtitleExtractor.lazyUntilClose s)) in Hx.
    destruct (startsWith (lit "};") (c :: s)) eqn:Hst.
    + injection Hx as <-. exists [], (drop 2 (c :: s)).
      split; [reflexivity|]. split.
      * exact (startsWith_split _ _ Hst).
      * intros k Hk. simpl in Hk. lia.
    + destruct (SubtitleExtractor.lazyUntilClose s) as [y|]; [|discriminate].
      injection Hx as <-.
      destruct (IH y eq_refl) as (body & rest & -> & -> & Hmin).
      exists (c :: body), rest.
      split; [reflexivity|]. split; [reflexivity|].
      intros [|k] Hk; [exact Hst|]. simpl in Hk. apply Hmin. lia.
Qed.

Lemma matchHere_spec (s g : jsstring) :
  SubtitleExtractor.matchHere s = Some g ->
  exists ws1 ws2 c body rest,
    s = lit "ytInitialPlayerResponse" ++ ws1 ++ [61%N] ++ ws2 ++ g ++ [59%N] ++ rest /\
    Forall (fun x => isWhiteSpace x = true) ws1 /\
    Forall (fun x => isWhiteSpace x = true) ws2 /\
    g = [123%N; c] ++ body ++ [125%N] /\
    forall k, k < length body ->
              startsWith (lit "};") (drop k (body ++ lit "};" ++ rest)) = false.
Proof.
  unfold SubtitleExtractor.matchHere.
  destruct (startsWith (lit "ytInitialPlayerResponse") s) eqn:Hkey; [|discriminate].
  apply startsWith_split in Hkey.
  change (length (lit "ytInitialPlayerResponse")) with 23 in Hkey.
  set (r0 := drop 23 s) in *.
  pose proof (take_drop_while isWhiteSpace r0) as H0.
  pose proof (take_while_all isWhiteSpace r0) as Hw1.
  destruct (drop_while isWhiteSpace r0) as [|e r] eqn:Hd0; [discriminate|].
  destruct e as [|e]; [discriminate|].
  repeat (destruct e as [e|e|]; try discriminate).
  pose proof (take_drop_while isWhiteSpace r) as H1.
  pose proof (take_while_all isWhiteSpace r) as Hw2.
  destruct (drop_while isWhiteSpace r) as [|o r1] eqn:Hd1; [discriminate|].
  destruct o as [|o]; [discriminate|].
  repeat (destruct o as [o|o|]; try discriminate).
  destruct r1 as [|c r']; [discriminate|].
  destruct (SubtitleExtractor.lazyUntilClose r') as [x|] eqn:Hlazy; [|discriminate].
  intros [= <-].
  destruct (lazyUntilClose_spec _ _ Hlazy) as (body & rest & -> & -> & Hmin).
  exists (take_while isWhiteSpace r0), (take_while isWhiteSpace r), c, body, rest.
  split.
  { rewrite Hkey at 1. f_equal. rewrite <- H0 at 1. f_equal.
    simpl. f_equal. rewrite <- H1 at 1. f_equal.
    simpl. do 2 f_equal. rewrite <- app_assoc. reflexivity. }
  split; [exact Hw1|]. split; [exact Hw2|]. split; [reflexivity|exact Hmin].
Qed.

Lemma matchPlayerResponse_spec (s g : jsstring) :
  SubtitleExtractor.matchPlayerResponse s = Some g ->
  exists pre,
    SubtitleExtractor.matchHere (drop (length pre) s) = Some g /\
    pre = take (length pre) s /\
    forall k, k < length pre -> SubtitleExtractor.matchHere (drop k s) = None.
Proof.
  induction s as [|c s IH].
  - intros Hm. vm_compute in Hm. discriminate.
  - change (SubtitleExtractor.matchPlayerResponse (c :: s))
      with (match SubtitleExtractor.matchHere (c :: s) with
            | Some g => Some g
            | None => SubtitleExtractor.matchPlayerResponse s
            end).
    destruct (SubtitleExtractor.matchHere (c :: s)) as [g'|] eqn:Hm.
    + intros [= <-]. exists []. split; [exact Hm|]. split; [reflexivity|].
      intros k Hk. simpl in Hk. lia.
    + intros Hrec. destruct (IH Hrec) as (pre & Hhere & Hpre & Hleft).
      exists (c :: pre). split; [exact Hhere|]. split.
      * simpl. f_equal. exact Hpre.
      * intros [|k] Hk; [exact Hm|]. simpl in Hk. apply Hleft. lia.
Qed.

(** X19: what the regular expression for the player response captures:
    the match is the leftmost place where the variable's name, optional
    white space, an equals sign and optional white space are followed by
    an opening brace; the capture runs from that brace over at least one
    more code unit to the first closing brace that a semicolon follows, and
    no further. *)
Theorem matchPlayerResponse_shape (s g : jsstring) :
  SubtitleExtractor.matchPlayerResponse s = Some g ->
  exists pre ws1 ws2 c body rest,
    s = pre ++ lit "ytInitialPlayerResponse" ++ ws1 ++ [61%N] ++ ws2
            ++ g ++ [59%N] ++ rest /\
    Forall (fun x => isWhiteSpace x = true) ws1 /\
    Forall (fun x => isWhiteSpace x = true) ws2 /\
    g = [123%N; c] ++ body ++ [125%N] /\
    (forall k, k < length body ->
               startsWith (lit "};") (drop k (body ++ lit "};" ++ rest)) = false) /\
    (forall k, k < length pre -> SubtitleExtractor.matchHere (drop k s) = None).
Proof.
  intros Hmatch.
  destruct (matchPlayerResponse_spec _ _ Hmatch) as (pre & Hhere & Hpre & Hleft).
  destruct (matchHere_spec _ _ Hhere) as (ws1 & ws2 & c & body & rest & Hs & H1 & H2 & Hg & Hmin).
  exists pre, ws1, ws2, c, body, rest.
  split.
  { rewrite <- (take_drop (length pre) s) at 1. rewrite <- Hpre, Hs. reflexivity. }
  repeat split; assumption.
Qed.

Lemma matchPlayerResponse_witness :
  let s := lit "var a = 1; var ytInitialPlayerResponse = {x:{}};var b = {};" in
  let g := lit "{x:{}}" in
  SubtitleExtractor.matchPlayerResponse s = Some g /\
  exists pre ws1 ws2 c body rest,
    s = pre ++ lit "ytInitialPlayerResponse" ++ ws1 ++ [61%N] ++ ws2
            ++ g ++ [59%N] ++ rest /\
    Forall (fun x => isWhiteSpace x = true) ws1 /\
    Forall (fun x => isWhiteSpace x = true) ws2 /\
    g = [123%N; c] ++ body ++ [125%N] /\
    (forall k, k < length body ->
               startsWith (lit "};") (drop k (body ++ lit "};" ++ rest)) = false) /\
    (forall k, k < length pre -> SubtitleExtractor.matchHere (drop k s) = None).
Proof.
  intros s g.
  assert (Hm : SubtitleExtractor.matchPlayerResponse s = Some g)
    by (vm_compute; reflexivity).
  exact (conj Hm (matchPlayerResponse_shape s g Hm)).
Defined.

Lemma no_name_no_match (s : jsstring) :
  includes (lit "ytInitialPlayerResponse") s = false ->
  SubtitleExtractor.matchPlayerResponse s = None.
Proof.
  induction s as [|c s IH]; intros Hinc.
  - vm_compute. reflexivity.
  - change (includes (lit "ytInitialPlayerResponse") (c :: s))
      with (startsWith (lit "ytInitialPlayerResponse") (c :: s)
            || includes (lit "ytInitialPlayerResponse") s) in Hinc.
    apply orb_false_iff in Hinc as [Hst Hinc].
    change (SubtitleExtractor.matchPlayerResponse (c :: s))
      with (match SubtitleExtractor.matchHere (c :: s) with
            | Some g => Some g
            | None => SubtitleExtractor.matchPlayerResponse s
            end).
    unfold SubtitleExtractor.matchHere. rewrite Hst. exact (IH Hinc).
Qed.

(** X20: the two tests around the regular expression in the scan of the
    inline scripts decide nothing: a script without the variable's name has
    no match, and a capture is never empty; so a script yields a player
    response exactly when the regular expression matches it, the capture
    parses as JSON and the parsed object has a [captions] member. *)
Theorem scanScript_tests_are_implied `{Platform} (content : jsstring) :
  SubtitleExtractor.scanScript content
  = match SubtitleExtractor.matchPlayerResponse content with
    | Some g =>
        match JSON_parse g with
        | Some json =>
            match captions json with
            | Some _ => Some json
            | None => None
            end
        | None => None
        end
    | None => None
    end.
Proof.
  unfold SubtitleExtractor.scanScript.
  destruct (includes (lit "ytInitialPlayerResponse") content) eqn:Hinc.
  - destruct (SubtitleExtractor.matchPlayerResponse content) as [g|] eqn:Hm;
      [|reflexivity].
    destruct (matchPlayerResponse_spec _ _ Hm) as (pre & Hhere & _).
    destruct (matchHere_spec _ _ Hhere) as (_ & _ & c & body & _ & _ & _ & _ & -> & _).
    reflexivity.
  - rewrite (no_name_no_match _ Hinc). reflexivity.
Qed.

(** ** The extractor's errors and state *)

(** X21: the error for an empty list of caption tracks is never thrown:
    a player response gets past the search only with at least one track,
    so an extraction fails for want of a video id, for want of a player
    response, or at the fetch of the caption file. *)
Theorem no_caption_tracks_is_never_thrown `{Platform}
  (w : World) (language : option jsstring) (vid : option jsstring) (e : Error) :
  SubtitleExtractor.extractSubtitles_try w language vid = Throw e ->
  e = NoVideoId \/ e = NoPlayerResponse \/ e = FetchRejected \/
  exists status, e = FetchStatus status.
Proof.
  unfold SubtitleExtractor.extractSubtitles_try.
  destruct vid as [v|]; [|intros [= <-]; left; reflexivity].
  destruct (truthy v); [|intros [= <-]; left; reflexivity].
  cbn [bind].
  destruct (snd (SubtitleExtractor.locatePlayerResponse w v)) as [r|] eqn:Hloc;
    [|intros [= <-]; right; left; reflexivity].
  cbn [bind].
  pose proof (locate_has_captions _ _ _ Hloc) as Hcap.
  unfold SubtitleExtractor.hasCaptions in Hcap.
  destruct (SubtitleExtractor.getCaptionTracks r) as [[|t ts]|]; try discriminate.
  cbn [bind]. unfold SubtitleExtractor.fetchSubtitles.
  destruct (fetch w _) as [|[|] status [text|]]; cbn [bind]; try discriminate.
  - intros [= <-]. right; right; left; reflexivity.
  - intros [= <-]. right; right; left; reflexivity.
  - intros [= <-]. right; right; right. exists status. reflexivity.
  - intros [= <-]. right; right; right. exists status. reflexivity.
Qed.

Lemma no_caption_tracks_witness :
  let w := {| page := Sample.pageB; fetch := fun _ => NetworkError |} in
  let e := NoPlayerResponse in
  @SubtitleExtractor.extractSubtitles_try Sample.platform w None (Some (lit "bbb"))
  = Throw e /\
  (e = NoVideoId \/ e = NoPlayerResponse \/ e = FetchRejected \/
   exists status, e = FetchStatus status).
Proof.
  intros w e.
  assert (Htry : @SubtitleExtractor.extractSubtitles_try Sample.platform w None
                   (Some (lit "bbb")) = Throw e) by (vm_compute; reflexivity).
  exact (conj Htry (@no_caption_tracks_is_never_thrown Sample.platform _ _ _ _ Htry)).
Defined.

(** X22: [extractSubtitles] records the video id of the URL whether it
    fails or not; what it resolves to is what the extractor then holds,
    unless the extraction failed: then it resolves to the empty list while
    the extractor keeps the segments it had, and [getCurrentSegment] goes
    on answering from them.  This is so in particular when the URL has no
    video id. *)
Theorem failed_extraction_keeps_old_subtitles `{Platform}
  (w : World) (language : option jsstring) (ex : SubtitleExtractor.t)
  (time : Num.number) :
  let out := SubtitleExtractor.extractSubtitles w language ex in
  let attempt :=
    SubtitleExtractor.extractSubtitles_try w language
      (SubtitleExtractor.getVideoId (page w)) in
  SubtitleExtractor.videoId (snd out) = SubtitleExtractor.getVideoId (page w) /\
  (forall segs, attempt = Ok segs ->
     SubtitleExtractor.getSubtitles (snd out) = fst out /\ fst out = segs) /\
  (forall e, attempt = Throw e ->
     fst out = [] /\
     SubtitleExtractor.getSubtitles (snd out) = SubtitleExtractor.getSubtitles ex /\
     fst (SubtitleExtractor.getCurrentSegment time (snd out))
     = fst (SubtitleExtractor.getCurrentSegment time ex)) /\
  (orElse (SubtitleExtractor.getVideoId (page w)) [] = [] ->
   attempt = Throw NoVideoId).
Proof.
  intros out attempt. subst out attempt.
  unfold SubtitleExtractor.extractSubtitles.
  split.
  { destruct (SubtitleExtractor.extractSubtitles_try _ _ _); reflexivity. }
  split.
  { intros segs ->. split; reflexivity. }
  split.
  { intros e ->. repeat split. }
  unfold SubtitleExtractor.extractSubtitles_try, orElse.
  destruct (SubtitleExtractor.getVideoId (page w)) as [[|c v]|]; cbn [truthy bind];
    try reflexivity. discriminate.
Qed.

Lemma failed_extraction_witness :
  let ex := {| SubtitleExtractor.videoId := Some (lit "aaa");
               SubtitleExtractor.subtitles := [Sample.helloSegment] |} in
  let w := {| page := Sample.pageHome; fetch := fun _ => NetworkError |} in
  let out := @SubtitleExtractor.extractSubtitles Sample.platform w None ex in
  fst out = [] /\
  SubtitleExtractor.videoId (snd out) = None /\
  fst (SubtitleExtractor.getCurrentSegment (Num.ofDecimal false 2 0) (snd out))
  = Some Sample.helloSegment.
Proof.
  intros ex w out.
  destruct (@failed_extraction_keeps_old_subtitles Sample.platform w None ex
              (Num.ofDecimal false 2 0)) as (Hid & _ & Hfail & Hnoid).
  destruct (Hfail NoVideoId (Hnoid eq_refl)) as (Hempty & _ & Hseg).
  split; [exact Hempty|]. split; [exact Hid|].
  etransitivity; [exact Hseg|]. vm_compute. reflexivity.
Defined.

(** ** Tearing down twice, and the enabled flag *)

Lemma filter_twice {A} (p : A -> bool) (l : list A) :
  List.filter p (List.filter p l) = List.filter p l.
Proof.
  induction l as [|x l IH]; simpl; [reflexivity|].
  destruct (p x) eqn:E; simpl; rewrite ?E, IH; reflexivity.
Qed.

Lemma destroy_twice mb : Overlay.destroy (Overlay.destroy mb) = Overlay.destroy mb.
Proof.
  destruct mb as [m b]. unfold Overlay.destroy.
  destruct (Overlay.animationFrameId m) as [[|h]|] eqn:Hf;
    destruct (Overlay.root m) as [r|] eqn:Hr;
    cbn [Overlay.container Overlay.set_root];
    destruct (Overlay.container m) as [c|] eqn:Hc;
    cbn [Overlay.parentOf Overlay.set_log Overlay.set_frames];
    try (destruct (Overlay.parentOf b !! c) as [q|] eqn:Hq);
    repeat first
      [ progress cbn [Overlay.animationFrameId Overlay.root Overlay.container
                      Overlay.set_container Overlay.set_root Overlay.parentOf
                      Overlay.set_dom Overlay.set_log Overlay.set_frames
                      Overlay.frames Overlay.nextFrame Overlay.player
                      Overlay.video Overlay.freshNode Overlay.mediaTime
                      Overlay.log]
      | rewrite Hf | rewrite Hr | rewrite Hc | rewrite Hq
      | rewrite filter_twice ];
    reflexivity.
Qed.

(** X23: tearing down is idempotent: [destroy] on what [destroy] left
    changes nothing (nothing is unmounted or removed a second time), and on
    a page that is not a watch page a second [checkAndInitialize] leaves
    the state the first one made. *)
Theorem cleanup_twice (s : Reactor.State) :
  Overlay.destroy (Overlay.destroy (Reactor.overlay s))
  = Overlay.destroy (Reactor.overlay s) /\
  (SubtitleExtractor.isVideoPage (page (Reactor.world s)) = false ->
   Reactor.checkAndInitialize (Reactor.checkAndInitialize s)
   = Reactor.checkAndInitialize s).
Proof.
  split; [apply destroy_twice|].
  intros Hpage.
  assert (Hstay : forall s0,
    SubtitleExtractor.isVideoPage (page (Reactor.world s0)) = false ->
    Reactor.checkAndInitialize s0 = Reactor.cleanup s0).
  { intros s0 H0. unfold Reactor.checkAndInitialize. rewrite H0. reflexivity. }
  rewrite (Hstay s Hpage).
  rewrite Hstay by (unfold Reactor.cleanup; destruct (Overlay.destroy _); exact Hpage).
  unfold Reactor.cleanup.
  pose proof (destroy_twice (Reactor.manager s, Reactor.browser s)) as Htwice.
  change (Reactor.overlay (Reactor.set_reactor _ s))
    with (Reactor.manager s, Reactor.browser s).
  destruct (Overlay.destroy (Reactor.manager s, Reactor.browser s)) as [m1 b1].
  change (Reactor.overlay (Reactor.set_reactor _ (Reactor.set_overlay (m1, b1) _)))
    with (m1, b1).
  rewrite Htwice. reflexivity.
Qed.

Lemma teardown_twice_witness :
  let s := Reactor.set_page Sample.pageHome sessionThenNavigation in
  SubtitleExtractor.isVideoPage (page (Reactor.world s)) = false /\
  Overlay.root (Reactor.manager s) <> None /\
  Reactor.checkAndInitialize (Reactor.checkAndInitialize s)
  = Reactor.checkAndInitialize s.
Proof.
  intros s.
  assert (Hpage : SubtitleExtractor.isVideoPage (page (Reactor.world s)) = false)
    by (vm_compute; reflexivity).
  split; [exact Hpage|]. split; [vm_compute; discriminate|].
  exact (proj2 (cleanup_twice s) Hpage).
Defined.

Lemma render_isEnabled mb :
  Overlay.isEnabled (fst (Overlay.render mb)) = Overlay.isEnabled (fst mb).
Proof.
  destruct mb as [m b]. unfold Overlay.render.
  destruct (Overlay.root m); reflexivity.
Qed.

Lemma syncTime_isEnabled mb :
  Overlay.isEnabled (fst (Overlay.syncTime mb)) = Overlay.isEnabled (fst mb).
Proof.
  destruct mb as [m b]. unfold Overlay.syncTime, Overlay.render.
  destruct (Overlay.videoElement m) as [v|]; [|reflexivity].
  destruct (Overlay.timeMoved _ _); [|reflexivity].
  cbn [Overlay.root Overlay.set_currentTime].
  destruct (Overlay.root m); reflexivity.
Qed.

Lemma initialize_isEnabled mb :
  Overlay.isEnabled (fst (snd (Overlay.initialize mb))) = Overlay.isEnabled (fst mb).
Proof.
  destruct mb as [m b]. unfold Overlay.initialize.
  destruct (Overlay.player b) as [p|]; [|reflexivity].
  destruct (match Overlay.container m with
            | Some c => Overlay.inDocument b c
            | None => false
            end); [reflexivity|].
  cbn [snd]. rewrite render_isEnabled.
  cbn [Overlay.videoElement Overlay.set_videoElement Overlay.set_root
       Overlay.set_container Overlay.video Overlay.set_dom].
  destruct (Overlay.video b);
    [unfold Overlay.startTimeSync; rewrite syncTime_isEnabled|]; reflexivity.
Qed.

Lemma destroy_isEnabled mb :
  Overlay.isEnabled (fst (Overlay.destroy mb)) = Overlay.isEnabled (fst mb).
Proof.
  destruct mb as [m b]. unfold Overlay.destroy.
  destruct (Overlay.root m) as [r|];
    cbn [Overlay.container Overlay.set_root];
    destruct (Overlay.container m) as [c|];
    cbn [Overlay.parentOf Overlay.set_log];
    try match goal with
        |- context [match ?x !! c with _ => _ end] => destruct (x !! c)
        end;
    reflexivity.
Qed.

Section Enabled.
Context `{Platform}.

Lemma step_isEnabled e s s' :
  match e with Reactor.Toggle _ => False | _ => True end ->
  Reactor.step e s = Some s' ->
  Overlay.isEnabled (Reactor.manager s') = Overlay.isEnabled (Reactor.manager s).
Proof.
  intros Hne Hstep.
  assert (Hset : forall mb,
    Overlay.isEnabled (Reactor.manager (Reactor.set_overlay mb s))
    = Overlay.isEnabled (fst mb)) by (intros [m b]; reflexivity).
  destruct e; try contradiction; unfold Reactor.step in Hstep.
  - apply (inj Some) in Hstep; subst s'. reflexivity.
  - apply (inj Some) in Hstep; subst s'. reflexivity.
  - apply (inj Some) in Hstep; subst s'. reflexivity.
  - apply (inj Some) in Hstep; subst s'. reflexivity.
  - apply (inj Some) in Hstep; subst s'. reflexivity.
  - apply (inj Some) in Hstep; subst s'. reflexivity.
  - (* Recheck *) apply (inj Some) in Hstep; subst s'.
    unfold Reactor.checkAndInitialize.
    destruct (negb _).
    + unfold Reactor.cleanup.
      change (Reactor.overlay (Reactor.set_reactor _ s))
        with (Reactor.manager s, Reactor.browser s).
      pose proof (destroy_isEnabled (Reactor.manager s, Reactor.browser s)) as Hd.
      destruct (Overlay.destroy _) as [m1 b1]. exact Hd.
    + destruct (_ && _); reflexivity.
  - (* Resume *)
    destruct (Reactor.pending s !! i) as [[|outcome]|]; [| |discriminate].
    + destruct (Reactor.playerReady _); [|discriminate].
      apply (inj Some) in Hstep; subst s'. reflexivity.
    + apply (inj Some) in Hstep; subst s'.
      unfold Reactor.initializeForVideo_resume.
      set (s0 := Reactor.set_pending _ s).
      assert (H1 : Reactor.manager (snd (Reactor.extractSubtitles_resume outcome s0))
                   = Reactor.manager s)
        by (destruct outcome; reflexivity).
      destruct (Reactor.extractSubtitles_resume outcome s0) as [subs s1].
      cbn [snd] in H1.
      destruct subs as [|seg segs]; [rewrite H1; reflexivity|].
      pose proof (initialize_isEnabled (Reactor.overlay s1)) as Hinit.
      destruct (Overlay.initialize (Reactor.overlay s1)) as [ok [m b]].
      cbn [fst snd] in Hinit.
      change (Overlay.isEnabled (fst (Reactor.overlay s1)))
        with (Overlay.isEnabled (Reactor.manager s1)) in Hinit.
      rewrite H1 in Hinit.
      destruct ok; cbn [negb]; [|exact Hinit].
      unfold Overlay.setSubtitles.
      pose proof (render_isEnabled
                    (Overlay.set_segments (seg :: segs)
                       (fst (Reactor.overlay (Reactor.set_overlay (m, b) s1))),
                     snd (Reactor.overlay (Reactor.set_overlay (m, b) s1)))) as Hr.
      destruct (Overlay.render _) as [m3 b3]. cbn in Hr |- *.
      rewrite Hr. exact Hinit.
  - (* Frame *)
    destruct (existsb _ _); [|discriminate]. apply (inj Some) in Hstep; subst s'.
    rewrite Hset, syncTime_isEnabled. reflexivity.
  - apply (inj Some) in Hstep; subst s'.
    rewrite Hset. unfold Overlay.handleWordHover. rewrite render_isEnabled. reflexivity.
  - apply (inj Some) in Hstep; subst s'.
    rewrite Hset. unfold Overlay.handleWordLeave. rewrite render_isEnabled. reflexivity.
  - apply (inj Some) in Hstep; subst s'.
    rewrite Hset. unfold Overlay.setTranslation. rewrite render_isEnabled. reflexivity.
Qed.

End Enabled.

(** X24: the overlay starts enabled and only a toggle message changes
    that: through navigation, initialisation, teardown, frames, hovering
    and arriving translations the flag keeps its value, so a content script
    that has received no toggle message shows its overlay whatever the
    stored settings say. *)
Theorem enabled_until_toggled `{Platform}
  (es : list Reactor.Event) (s s' : Reactor.State) :
  Forall (fun e => match e with Reactor.Toggle _ => False | _ => True end) es ->
  Reactor.run es s = Some s' ->
  Overlay.isEnabled (Reactor.manager s') = Overlay.isEnabled (Reactor.manager s) /\
  (forall w hasPlayer hasVideo,
      s = Reactor.initial w hasPlayer hasVideo ->
      Overlay.isEnabled (Reactor.manager s') = true).
Proof.
  intros Hes Hrun.
  assert (Hkeep : Overlay.isEnabled (Reactor.manager s')
                  = Overlay.isEnabled (Reactor.manager s)).
  { revert s Hrun. induction Hes as [|e es He Hes IH]; intros s Hrun; simpl in Hrun.
    - injection Hrun as <-. reflexivity.
    - destruct (Reactor.step e s) as [s1|] eqn:Hstep; [|discriminate].
      rewrite (IH s1 Hrun). exact (step_isEnabled e s s1 He Hstep). }
  split; [exact Hkeep|].
  intros w hp hv ->. rewrite Hkeep. reflexivity.
Qed.

Lemma enabled_flag_witness :
  Overlay.isEnabled (Reactor.manager sessionThenNavigation) = true.
Proof.
  refine (proj2 (@enabled_until_toggled Sample.platform
                   [Reactor.Recheck; Reactor.Resume 0; Reactor.Resume 0;
                    Reactor.Navigate Sample.pageB]
                   (Reactor.initial Sample.worldA true true)
                   sessionThenNavigation _ _) Sample.worldA true true eq_refl).
  - repeat constructor.
  - vm_compute. reflexivity.
Defined.

(** ** The CSV export *)

Lemma readQuoted_quoted (cell rest : jsstring) :
  head rest <> Some 34%N ->
  readQuoted (flat_map (fun c => if (c =? 34)%N then [34%N; 34%N] else [c]) cell
              ++ [34%N] ++ rest)
  = Some (cell, rest).
Proof.
  intros Hrest. induction cell as [|c cell IH].
  - simpl. destruct rest as [|d rest]; [reflexivity|].
    destruct (d =? 34)%N eqn:Hd; [|reflexivity].
    apply N.eqb_eq in Hd. subst d. contradiction Hrest. reflexivity.
  - cbn [flat_map]. destruct (c =? 34)%N eqn:Hc.
    + apply N.eqb_eq in Hc. subst c.
      change (readQuoted (([34%N; 34%N] ++ ?x) ++ ?y))
        with (option_map (fun out => (34%N :: fst out, snd out)) (readQuoted (x ++ y))).
      rewrite IH. reflexivity.
    + change (readQuoted (([c] ++ ?x) ++ ?y))
        with (if (c =? 34)%N
              then match x ++ y with
                   | d :: r' =>
                       if (d =? 34)%N
                       then option_map (fun out => (34%N :: fst out, snd out))
                                       (readQuoted r')
                       else Some ([], x ++ y)
                   | [] => Some ([], [])
                   end
              else option_map (fun out => (c :: fst out, snd out))
                              (readQuoted (x ++ y))).
      rewrite Hc, IH. reflexivity.
Qed.

Lemma readRow_cell (n : nat) (cell rest : jsstring) :
  head rest <> Some 34%N ->
  readRow (S n) (Storage.quoteCell cell ++ rest)
  = match rest with
    | k :: rest' =>
        if (k =? 44)%N
        then option_map (fun out => (cell :: fst out, snd out)) (readRow n rest')
        else Some ([cell], k :: rest')
    | [] => Some ([cell], [])
    end.
Proof.
  intros H34. unfold Storage.quoteCell.
  rewrite <- !app_assoc. cbn [app readRow].
  change (34 =? 34)%N with true. cbv iota.
  pose proof (readQuoted_quoted cell rest H34) as Hread. cbn [app] in Hread.
  rewrite Hread. destruct rest; reflexivity.
Qed.

Lemma readRow_row (row : list jsstring) (rest : jsstring) :
  row <> [] ->
  head rest <> Some 34%N -> head rest <> Some 44%N ->
  readRow (length row) (Storage.join (lit ",") (map Storage.quoteCell row) ++ rest)
  = Some (row, rest).
Proof.
  intros Hrow H34 H44. induction row as [|cell row IH]; [contradiction|].
  destruct row as [|cell' row].
  - cbn [map Storage.join length].
    rewrite (readRow_cell 0 cell rest H34).
    destruct rest as [|k rest]; [reflexivity|].
    destruct (k =? 44)%N eqn:Hk; [|reflexivity].
    apply N.eqb_eq in Hk. subst k. contradiction H44. reflexivity.
  - change (Storage.join (lit ",") (map Storage.quoteCell (cell :: cell' :: row)))
      with (Storage.quoteCell cell ++ lit ","
            ++ Storage.join (lit ",") (map Storage.quoteCell (cell' :: row))).
    set (tail := Storage.join (lit ",") (map Storage.quoteCell (cell' :: row))) in *.
    change (length (cell :: cell' :: row)) with (S (length (cell' :: row))).
    rewrite <- !app_assoc.
    rewrite readRow_cell by discriminate.
    change (lit "," ++ tail ++ rest) with (44%N :: (tail ++ rest)).
    change (44 =? 44)%N with true. cbv iota.
    rewrite IH by discriminate. reflexivity.
Qed.

(** X25: the CSV export is the header line followed by one line per
    stored item, in order; a line is the item's five cells between quotes
    with every quote doubled, separated by commas, so that the cells read
    back exactly, whatever commas, quotes or line breaks they hold, as
    long as what follows the line starts with neither a quote nor a
    comma. *)
Theorem exportVocabularyToCSV_reads_back
  (toLocaleDateString : jsstring -> jsstring) (st : Storage.t) :
  let line v := Storage.join (lit ",")
                  (map Storage.quoteCell (Storage.cellsOf toLocaleDateString v)) in
  Storage.exportVocabularyToCSV toLocaleDateString st
  = lit "Word,Translation,Context,Video ID,Date"
    ++ flat_map (fun v => [10%N] ++ line v) (Storage.getVocabulary st) /\
  forall v rest,
    head rest <> Some 34%N -> head rest <> Some 44%N ->
    readRow 5 (line v ++ rest) = Some (Storage.cellsOf toLocaleDateString v, rest).
Proof.
  intros line. split.
  - unfold Storage.exportVocabularyToCSV.
    change (Storage.join (lit ",") [lit "Word"; lit "Translation"; lit "Context";
                                    lit "Video ID"; lit "Date"])
      with (lit "Word,Translation,Context,Video ID,Date").
    rewrite map_map. fold line.
    generalize (lit "Word,Translation,Context,Video ID,Date") as header.
    induction (Storage.getVocabulary st) as [|v vs IH]; intros header.
    + simpl. rewrite app_nil_r. reflexivity.
    + change (Storage.join [10%N] (header :: map line (v :: vs)))
        with (header ++ [10%N] ++ Storage.join [10%N] (line v :: map line vs)).
      rewrite IH. reflexivity.
  - intros v rest H34 H44.
    exact (readRow_row (Storage.cellsOf toLocaleDateString v) rest
             ltac:(discriminate) H34 H44).
Qed.

Lemma csv_export_witness :
  let item := {| item_id := 7; originalWord := [34%N] ++ lit "Hi," ++ [34%N];
                 item_translation := lit "xin chao"; contextSentence := lit "a, b";
                 item_videoId := lit "aaa"; videoTitle := None;
                 timestamp := lit "2024-01-01T00:00:00.000Z";
                 item_language := None; mastery := None |} in
  let st := {| Storage.available := true; Storage.vocabulary := Some [item];
               Storage.settings := None; Storage.translationCache := None |} in
  let day (ts : jsstring) := take 10 ts in
  exists line,
    Storage.exportVocabularyToCSV day st
    = lit "Word,Translation,Context,Video ID,Date" ++ [10%N] ++ line /\
    readRow 5 line
    = Some ([[34%N] ++ lit "Hi," ++ [34%N]; lit "xin chao"; lit "a, b"; lit "aaa";
             lit "2024-01-01"], []).
Proof.
  intros item st day.
  destruct (exportVocabularyToCSV_reads_back day st) as [Hcsv Hread].
  eexists. split.
  - rewrite Hcsv. vm_compute. reflexivity.
  - specialize (Hread item [] ltac:(discriminate) ltac:(discriminate)).
    rewrite app_nil_r in Hread. etransitivity; [|exact Hread]. vm_compute. reflexivity.
Defined.
